(** * ytdownloader: the rate limiters, validators, format sort, download
      handler, download client and client queue, embedded from the
      TypeScript sources and checked against the written specification.

    Conventions of the embedding:
    - a JavaScript string is a [string] (a sequence of character codes);
      every character class the sources use is a class of ASCII codes,
      and any other code falls outside all of them;
    - [Date.now()] and the counters are integers ([Z]);
    - a [Map] or an object literal used as a table is a [gmap];
    - module-level mutable state ([rateLimitMap], the temporary
      directory, React state) is passed explicitly. *)

From Stdlib Require Import ZArith String Ascii List Bool Lia.
From Stdlib Require Import DecimalString DecimalN Floats Uint63.
From stdpp Require Import gmap strings list fin_maps sorting.

Local Open Scope Z_scope.

(* ===================================================================== *)
(** * Part I: the embedding *)
(* ===================================================================== *)

(** ** The string operations of the platform that the sources call *)

Module Js.

Definition code (c : ascii) : nat := nat_of_ascii c.

Definition in_range (lo hi : nat) (c : ascii) : bool :=
  (lo <=? code c)%nat && (code c <=? hi)%nat.

(** [\d] *)
Definition is_digit (c : ascii) : bool := in_range 48 57 c.

(** [a-zA-Z] *)
Definition is_letter (c : ascii) : bool := in_range 97 122 c || in_range 65 90 c.

(** [\s] and the characters [trim] strips, among the codes below 256:
    tab, line feed, vertical tab, form feed, carriage return, space and
    the no-break space. *)
Definition is_space (c : ascii) : bool :=
  in_range 9 13 c || (code c =? 32)%nat || (code c =? 160)%nat.

(** [s.includes(sub)] *)
Fixpoint includes (sub s : string) : bool :=
  String.prefix sub s ||
  match s with
  | EmptyString => false
  | String _ rest => includes sub rest
  end.

(** [s.replace(/[class]/g, empty)]: every character of the class is dropped. *)
Fixpoint remove (class : ascii -> bool) (s : string) : string :=
  match s with
  | EmptyString => EmptyString
  | String c rest => if class c then remove class rest else String c (remove class rest)
  end.

(** [s.replace(/\s+/g, " ")]: [in_run] tells that the previous character
    was white space, whose run has already produced its single space. *)
Fixpoint collapse_from (in_run : bool) (s : string) : string :=
  match s with
  | EmptyString => EmptyString
  | String c rest =>
      if is_space c
      then if in_run then collapse_from true rest
           else String " " (collapse_from true rest)
      else String c (collapse_from false rest)
  end.

Definition collapse_spaces (s : string) : string := collapse_from false s.

Fixpoint trim_start (s : string) : string :=
  match s with
  | EmptyString => EmptyString
  | String c rest => if is_space c then trim_start rest else s
  end.

Fixpoint trim_end (s : string) : string :=
  match s with
  | EmptyString => EmptyString
  | String c rest =>
      match trim_end rest with
      | EmptyString => if is_space c then EmptyString else String c EmptyString
      | kept => String c kept
      end
  end.

(** [s.trim()] *)
Definition trim (s : string) : string := trim_end (trim_start s).

(** [s.substring(0, n)] *)
Fixpoint substring0 (n : nat) (s : string) : string :=
  match n, s with
  | O, _ => EmptyString
  | _, EmptyString => EmptyString
  | S n', String c rest => String c (substring0 n' rest)
  end.

(** [s.toLowerCase()] on the codes below 256: A-Z and the accented
    capitals of Latin-1 move up by 32. *)
Definition lower_char (c : ascii) : ascii :=
  if in_range 65 90 c || (in_range 192 222 c && negb (code c =? 215)%nat)
  then ascii_of_nat (code c + 32)
  else c.

Fixpoint toLowerCase (s : string) : string :=
  match s with
  | EmptyString => EmptyString
  | String c rest => String (lower_char c) (toLowerCase rest)
  end.

Fixpoint all_chars (class : ascii -> bool) (s : string) : bool :=
  match s with
  | EmptyString => true
  | String c rest => class c && all_chars class rest
  end.

(** A string is truthy when it is not empty. *)
Definition nonempty (s : string) : bool :=
  match s with EmptyString => false | _ => true end.

(** [array.includes(x)] on an array of strings. *)
Definition array_includes (xs : list string) (x : string) : bool :=
  existsb (String.eqb x) xs.


(** [sub] occurs in [s]. *)
Definition contains (sub s : string) : Prop :=
  exists before after, s = before +:+ sub +:+ after.


(** No two white-space characters stand next to each other. *)
Fixpoint single_spaced (s : string) : bool :=
  match s with
  | String c (String c' _ as rest) =>
      negb (is_space c && is_space c') && single_spaced rest
  | _ => true
  end.


(** What heads a text: nothing, or a character that is no white space. *)
Definition no_leading_space (s : string) : Prop :=
  match s with
  | EmptyString => True
  | String c _ => is_space c = false
  end.

End Js.

(* ===================================================================== *)
(** ** Rate limiting
    [src/app/api/video-info/route.ts], [checkRateLimit], and
    the download route, [checkDownloadRateLimit]. *)
(* ===================================================================== *)

Module RateLimit.

(** [{ count: number; resetTime: number }] *)
Record entry := Entry { count : Z; resetTime : Z }.

#[global] Instance entry_eq_dec : EqDecision entry.
Proof. solve_decision. Defined.

Section Limiter.

(** The window and the maximum of a route. *)
Variables (WINDOW MAX_REQUESTS : Z).

(** The clean-up loop: [if (now > value.resetTime) map.delete(key)]. *)
Definition sweep (now : Z) (m : gmap string entry) : gmap string entry :=
  filter (fun kv => ¬ (resetTime kv.2 < now)) m.

(** The body after the loop.  [userLimit.count++] mutates the object
    held by the map, which is the insertion of the updated entry. *)
Definition consume (now : Z) (ip : string) (m : gmap string entry)
  : bool * gmap string entry :=
  match m !! ip with
  | None => (true, <[ip := Entry 1 (now + WINDOW)]> m)
  | Some userLimit =>
      if resetTime userLimit <? now
      then (true, <[ip := Entry 1 (now + WINDOW)]> m)
      else if MAX_REQUESTS <=? count userLimit
           then (false, m)
           else (true, <[ip := Entry (count userLimit + 1) (resetTime userLimit)]> m)
  end.

Definition check (now : Z) (ip : string) (m : gmap string entry)
  : bool * gmap string entry :=
  consume now ip (sweep now m).

(** A sequence of calls, each with its clock reading and client key. *)
Fixpoint run (calls : list (Z * string)) (m : gmap string entry)
  : gmap string entry :=
  match calls with
  | [] => m
  | (now, ip) :: rest => run rest (check now ip m).2
  end.

End Limiter.

(** How many of the calls carry the key [ip]. *)
Fixpoint calls_of (ip : string) (calls : list (Z * string)) : Z :=
  match calls with
  | [] => 0
  | (_, k) :: rest => (if decide (k = ip) then 1 else 0) + calls_of ip rest
  end.

(** The entry of [k] that is still inside its window at [now]. *)
Definition live (now : Z) (m : gmap string entry) (k : string) : option entry :=
  match m !! k with
  | Some e => if resetTime e <? now then None else Some e
  | None => None
  end.

(** The two configured instances. *)
Definition RATE_LIMIT_WINDOW : Z := 60 * 1000.
Definition RATE_LIMIT_MAX_REQUESTS : Z := 30.
Definition DOWNLOAD_RATE_LIMIT_WINDOW : Z := 60 * 1000.
Definition DOWNLOAD_RATE_LIMIT_MAX_REQUESTS : Z := 10.

Definition checkRateLimit :=
  check RATE_LIMIT_WINDOW RATE_LIMIT_MAX_REQUESTS.
Definition checkDownloadRateLimit :=
  check DOWNLOAD_RATE_LIMIT_WINDOW DOWNLOAD_RATE_LIMIT_MAX_REQUESTS.

Inductive limiter := Metadata | Download.

Definition window (l : limiter) : Z :=
  match l with
  | Metadata => RATE_LIMIT_WINDOW
  | Download => DOWNLOAD_RATE_LIMIT_WINDOW
  end.

Definition max_requests (l : limiter) : Z :=
  match l with
  | Metadata => RATE_LIMIT_MAX_REQUESTS
  | Download => DOWNLOAD_RATE_LIMIT_MAX_REQUESTS
  end.

Definition check_of (l : limiter) :=
  match l with
  | Metadata => checkRateLimit
  | Download => checkDownloadRateLimit
  end.

Definition run_of (l : limiter) := run (window l) (max_requests l).

End RateLimit.

(* ===================================================================== *)
(** ** URL validation of the metadata endpoint
    [src/app/api/video-info/route.ts], [validateYouTubeUrl]. *)
(* ===================================================================== *)

Module UrlValidation.

(** The two properties of a [URL] object that the validation reads. *)
Record URL := MkURL { hostname : string; pathname : string }.

Definition validHosts : list string :=
  ["www.youtube.com"; "youtube.com"; "youtu.be"; "m.youtube.com"].

Section Validate.

(** [new URL(url)] is the platform's parser; [None] stands for the
    [TypeError] it throws on a string that is not a URL. *)
Variable URL_parse : string -> option URL.

Definition validateYouTubeUrl (url : string) : bool :=
  match URL_parse url with
  | None => false
  | Some urlObj =>
      if negb (Js.array_includes validHosts (hostname urlObj)) then false
      else if String.eqb (hostname urlObj) "youtu.be"
           then (1 <? String.length (pathname urlObj))%nat
           else Js.includes "/watch" (pathname urlObj)
                || Js.includes "/shorts/" (pathname urlObj)
  end.

End Validate.

(** A parser for the plain case, used to run the validation on concrete
    inputs: [http://] or [https://], then a non-empty host up to the
    first [/], [?] or [#], then the path up to the first [?] or [#],
    where an absent path reads [/]. *)
Fixpoint take_until (stop : ascii -> bool) (s : string) : string * string :=
  match s with
  | EmptyString => (EmptyString, EmptyString)
  | String c rest =>
      if stop c then (EmptyString, s)
      else let '(a, b) := take_until stop rest in (String c a, b)
  end.

Definition strip_prefix (p s : string) : option string :=
  if String.prefix p s
  then Some (String.substring (String.length p) (String.length s - String.length p) s)
  else None.

Definition is_path_end (c : ascii) : bool :=
  (Js.code c =? 63)%nat || (Js.code c =? 35)%nat.

Definition is_host_end (c : ascii) : bool :=
  (Js.code c =? 47)%nat || is_path_end c.

Definition parse_plain (s : string) : option URL :=
  let after_scheme :=
    match strip_prefix "https://" s with
    | Some r => Some r
    | None => strip_prefix "http://" s
    end in
  match after_scheme with
  | None => None
  | Some r =>
      let '(host, rest) := take_until is_host_end r in
      let '(path, _) := take_until is_path_end rest in
      if Js.nonempty host
      then Some (MkURL host (if Js.nonempty path then path else "/"))
      else None
  end.





End UrlValidation.

(* ===================================================================== *)
(** ** Format processing of the metadata endpoint
    [src/app/api/video-info/route.ts], [processFormats],
    [getQualityString], [getQualityScore]. *)
(* ===================================================================== *)

Module Formats.

(** A number of the tool's JSON output as JavaScript prints it in a
    template literal: the whole part, and the digits after the point
    when it has any ([1080] prints [1080], [129.478] prints [129.478]). *)
Record number := Num { whole : N; fraction : string }.

Definition render (n : N) : string := NilEmpty.string_of_uint (N.to_uint n).

Definition number_to_string (x : number) : string :=
  render (whole x) +:+
  (if Js.nonempty (fraction x) then "." +:+ fraction x else EmptyString).

(** Truthiness: a number is falsy when it is zero, a string when it is
    empty, an absent ([undefined] or [null]) field always. *)
Definition number_truthy (x : number) : bool :=
  negb ((whole x =? 0)%N && Js.all_chars (fun c => (Js.code c =? 48)%nat) (fraction x)).

Definition truthy_num (o : option number) : bool :=
  match o with Some x => number_truthy x | None => false end.

Definition truthy_str (o : option string) : bool :=
  match o with Some s => Js.nonempty s | None => false end.

(** A format record of the tool.  The fields are read as the types the
    client-facing [VideoFormat] interface declares for them. *)
Record RawFormat := MkRaw {
  raw_format_id : option string;
  raw_ext : option string;
  raw_height : option number;
  raw_abr : option number;
  raw_quality : option string;
  raw_format_note : option string;
  raw_vcodec : option string;
  raw_acodec : option string;
  raw_fps : option number;
  raw_tbr : option number;
  raw_filesize : option number }.

(** The descriptor [processFormats] builds in its [map]. *)
Record Descriptor := MkDescriptor {
  format_id : option string;
  ext : string;
  quality : string;
  filesize : option number;
  format_note : option string;
  vcodec : option string;
  acodec : option string;
  fps : option number;
  tbr : option number }.

Definition getQualityString (format : RawFormat) : string :=
  if truthy_num (raw_height format)
  then match raw_height format with
       | Some h => number_to_string h +:+ "p"
       | None => EmptyString
       end
  else if truthy_num (raw_abr format)
  then match raw_abr format with
       | Some a => number_to_string a +:+ "kbps"
       | None => EmptyString
       end
  else if truthy_str (raw_quality format)
  then default EmptyString (raw_quality format)
  else if truthy_str (raw_format_note format)
  then default EmptyString (raw_format_note format)
  else "Unknown quality".

(** The longest run of digits at the head of a string, and what follows. *)
Fixpoint digits_prefix (s : string) : string * string :=
  match s with
  | EmptyString => (EmptyString, EmptyString)
  | String c rest =>
      if Js.is_digit c
      then let '(ds, tl) := digits_prefix rest in (String c ds, tl)
      else (EmptyString, s)
  end.

(** [s.match(/(\d+)lit/)] for a literal [lit] that starts with a
    non-digit: the captured digits of the leftmost match.  At a start
    offset [\d+] first takes the whole run of digits; giving digits back
    leaves a digit where [lit] must start, so only the whole run can
    match there, and the search moves on by one character otherwise. *)
Fixpoint match_digits (lit s : string) : option string :=
  let '(ds, tl) := digits_prefix s in
  if Js.nonempty ds && String.prefix lit tl then Some ds
  else match s with
       | EmptyString => None
       | String _ rest => match_digits lit rest
       end.

(** [Number.parseInt] of a captured run of digits. *)
Definition parseInt (ds : string) : Z :=
  match NilEmpty.uint_of_string ds with
  | Some d => Z.of_N (N.of_uint d)
  | None => 0
  end.

Definition is_video (vcodec : option string) : bool :=
  truthy_str vcodec && negb (bool_decide (vcodec = Some "none")).

Definition getQualityScore (quality : string) (vcodec : option string) : Z :=
  let audio :=
    match match_digits "kbps" quality with
    | Some ds => parseInt ds
    | None => 0
    end in
  if is_video vcodec
  then match match_digits "p" quality with
       | Some ds => parseInt ds + 10000
       | None => audio
       end
  else audio.

Definition score (d : Descriptor) : Z := getQualityScore (quality d) (vcodec d).

(** The [filter] callback. *)
Definition has_quality_info (format : RawFormat) : bool :=
  truthy_str (raw_format_id format) &&
  (truthy_num (raw_height format) || truthy_num (raw_abr format)
   || truthy_str (raw_quality format)).

(** The [map] callback. *)
Definition describe (format : RawFormat) : Descriptor :=
  {| format_id := raw_format_id format;
     ext := if truthy_str (raw_ext format) then default EmptyString (raw_ext format) else "unknown";
     quality := getQualityString format;
     filesize := raw_filesize format;
     format_note := raw_format_note format;
     vcodec := raw_vcodec format;
     acodec := raw_acodec format;
     fps := raw_fps format;
     tbr := raw_tbr format |}.

(** [sort((a, b) => bScore - aScore)].  The sort of the platform is
    stable and the comparator orders by a number, so its result is the
    one stable arrangement by descending score; inserting from the right,
    each element in front of the first one that does not beat it,
    computes that arrangement. *)
Fixpoint insert (a : Descriptor) (sorted : list Descriptor) : list Descriptor :=
  match sorted with
  | [] => [a]
  | b :: rest => if score a <? score b then b :: insert a rest else a :: sorted
  end.

Definition sort (l : list Descriptor) : list Descriptor := foldr insert [] l.

Definition processFormats (formats : list RawFormat) : list Descriptor :=
  sort (map describe (List.filter has_quality_info formats)).



(** A record with only an identifier, a height or bitrate and a codec. *)
Definition whole_number (n : N) : number := Num n EmptyString.

Definition video_format (id : string) (h : N) (codec : string) : RawFormat :=
  MkRaw (Some id) (Some "mp4") (Some (whole_number h)) None None None
        (Some codec) None None None None.

Definition audio_format (id : string) (rate : number) : RawFormat :=
  MkRaw (Some id) (Some "m4a") None (Some rate) None None
        (Some "none") (Some "mp4a") None None None.



End Formats.

(* ===================================================================== *)
(** ** The download endpoint
    [src/app/api/download/route.ts]: [validateFormatId],
    [sanitizeFilename], [getContentType], [POST]. *)
(* ===================================================================== *)

Module DownloadRoute.

(** [[a-zA-Z0-9_-]] *)
Definition is_token_char (c : ascii) : bool :=
  Js.is_letter c || Js.is_digit c
  || (Js.code c =? 95)%nat || (Js.code c =? 45)%nat.

(** [/^[a-zA-Z0-9_-]+$/.test(formatId) && formatId.length <= 20] *)
Definition validateFormatId (formatId : string) : bool :=
  (Js.nonempty formatId && Js.all_chars is_token_char formatId)
  && (String.length formatId <=? 20)%nat.

(** The class of the first replacement: the characters
    [<], [>], [:], the double quote, [/], the backslash, [|], [?], [*]. *)
Definition is_invalid_char (c : ascii) : bool :=
  existsb (Nat.eqb (Js.code c)) [60; 62; 58; 34; 47; 92; 124; 63; 42]%nat.

(** [[^\x20-\x7E]] *)
Definition is_non_printable (c : ascii) : bool := negb (Js.in_range 32 126 c).

Definition sanitizeFilename (filename : string) : string :=
  Js.substring0 200
    (Js.trim
       (Js.collapse_spaces
          (Js.remove is_non_printable (Js.remove is_invalid_char filename)))).

Definition contentTypes : gmap string string :=
  list_to_map
    [("mp4", "video/mp4"); ("webm", "video/webm"); ("mkv", "video/x-matroska");
     ("avi", "video/x-msvideo"); ("mov", "video/quicktime");
     ("mp3", "audio/mpeg"); ("m4a", "audio/mp4"); ("aac", "audio/aac");
     ("ogg", "audio/ogg"); ("wav", "audio/wav")].

Definition getContentType (fileExtension : string) : string :=
  default "application/octet-stream" (contentTypes !! Js.toLowerCase fileExtension).

(** A field of the parsed request body: absent, a string, or a value of
    another type, of which only the truthiness is read. *)
Inductive JsValue :=
| JUndefined
| JString (s : string)
| JOther (truthy : bool).

(** [await request.json()]: it throws, or yields [null], or yields a
    value from which the four fields are read. *)
Inductive ParsedBody :=
| InvalidJson
| NullBody
| Fields (url formatId title channel : JsValue).

Record Request := MkRequest {
  forwarded_for : option string;
  body : ParsedBody }.

(** [request.headers.get("x-forwarded-for") || "unknown"] *)
Definition clientIP (request : Request) : string :=
  match forwarded_for request with
  | Some ip => if Js.nonempty ip then ip else "unknown"
  | None => "unknown"
  end.

(** The temporary directory: the names with their sizes, in the order
    [readdirSync] lists them. *)
Definition Directory := list (string * Z).

(** What [execAsync] yields: the two output streams of a tool that
    exited, or an error, of which the handler reads whether its code is
    [TIMEOUT]. *)
Inductive ExecResult :=
| Exited (stdout stderr : string)
| ExecError (code_is_TIMEOUT : bool).

(** The external tool: from the command line, the time limit and the
    directory it finds, its result and the directory it leaves. *)
Definition Tool := string -> Z -> Directory -> ExecResult * Directory.

Record Env := MkEnv { VERCEL : bool; os_tmpdir : string }.

(** The state the handler works on.  [executed] lists the command lines
    handed to [execAsync]; [cleanups] the paths for which the three
    clean-up triggers were registered. *)
Record Server := MkServer {
  downloadRateLimitMap : gmap string RateLimit.entry;
  tempFiles : Directory;
  executed : list string;
  cleanups : list string }.

Inductive Response :=
| Json (status : Z) (error : string)
| FileStream (path : string) (contentType contentDisposition : string)
             (contentLength : Z).

Definition dquote : string := String (ascii_of_nat 34) EmptyString.

Definition getTempDir (env : Env) : string :=
  if VERCEL env then "/tmp" else os_tmpdir env.

Definition join (dir name : string) : string := dir +:+ "/" +:+ name.

(** [v || fallback], handed to [sanitizeFilename]: a truthy value that is
    not a string has no [replace] method, and the call throws. *)
Definition or_default (v : JsValue) (fallback : string) : option string :=
  match v with
  | JString s => Some (if Js.nonempty s then s else fallback)
  | JUndefined => Some fallback
  | JOther false => Some fallback
  | JOther true => None
  end.

(** [name.split(".").pop() || "mp4"] *)
Fixpoint last_segment (s : string) : string :=
  match s with
  | EmptyString => EmptyString
  | String c rest =>
      if Js.includes "." rest then last_segment rest
      else if (Js.code c =? 46)%nat then rest else s
  end.

Definition fileExtension_of (name : string) : string :=
  let e := last_segment name in if Js.nonempty e then e else "mp4".

Definition existsSync (dir : Directory) (name : string) : bool :=
  existsb (fun f => String.eqb f.1 name) dir.

Definition statSync_size (dir : Directory) (name : string) : Z :=
  match List.find (fun f => String.eqb f.1 name) dir with
  | Some f => f.2
  | None => 0
  end.

Definition unlinkSync (dir : Directory) (name : string) : Directory :=
  List.filter (fun f => negb (String.eqb f.1 name)) dir.

Definition maxFileSize : Z := 2000 * 1024 * 1024.

Definition command_line (formatId outputPath url : string) : string :=
  "yt-dlp -f " +:+ formatId +:+ " -o " +:+ dquote +:+ outputPath +:+ dquote
  +:+ " --no-warnings " +:+ dquote +:+ url +:+ dquote.

(** The handler once [execAsync] has resolved with the tool's output. *)
Definition deliver (tempDir filename stderr : string) (server : Server)
  : Response * Server :=
  if Js.nonempty stderr && Js.includes "ERROR" stderr
  then (Json 404 "Download failed. Video might be unavailable or format not supported.",
        server)
  else
    let files := map fst (tempFiles server) in
    match List.filter (fun f => Js.includes filename f) files with
    | [] => (Json 500 "Download completed but file not found", server)
    | downloadedFile :: _ =>
        let filePath := join tempDir downloadedFile in
        if negb (existsSync (tempFiles server) downloadedFile)
        then (Json 500 "Downloaded file not found", server)
        else
          let size := statSync_size (tempFiles server) downloadedFile in
          if maxFileSize <? size
          then (Json 413 "File too large. Maximum size is 2GB.",
                MkServer (downloadRateLimitMap server)
                         (unlinkSync (tempFiles server) downloadedFile)
                         (executed server) (cleanups server))
          else (FileStream filePath
                           (getContentType (fileExtension_of downloadedFile))
                           ("attachment; filename=" +:+ dquote +:+ downloadedFile +:+ dquote)
                           size,
                MkServer (downloadRateLimitMap server) (tempFiles server)
                         (executed server) (filePath :: cleanups server))
    end.

(** The handler from the validated fields on: the command line is built
    and run, and its outcome handled. *)
Definition download (env : Env) (tool : Tool) (url formatId title channel : string)
  (server : Server) : Response * Server :=
  let filename := sanitizeFilename title +:+ " - " +:+ sanitizeFilename channel in
  let tempDir := getTempDir env in
  let outputPath := join tempDir (filename +:+ ".%(ext)s") in
  let command := command_line formatId outputPath url in
  let timeout := if VERCEL env then 250000 else 300000 in
  let '(result, files) := tool command timeout (tempFiles server) in
  let server' := MkServer (downloadRateLimitMap server) files
                          (executed server ++ [command]) (cleanups server) in
  match result with
  | ExecError true =>
      (Json 408 "Download timeout. Video might be too large or unavailable.", server')
  | ExecError false =>
      (Json 500 "Download failed. The video might be unavailable or the format might not be supported.",
       server')
  | Exited stdout stderr => deliver tempDir filename stderr server'
  end.

Definition POST (env : Env) (tool : Tool) (now : Z) (request : Request)
  (server : Server) : Response * Server :=
  let '(allowed, limits) :=
    RateLimit.checkDownloadRateLimit now (clientIP request)
                                     (downloadRateLimitMap server) in
  let server := MkServer limits (tempFiles server) (executed server)
                         (cleanups server) in
  if negb allowed
  then (Json 429 "Download rate limit exceeded. Please try again later.", server)
  else
    match body request with
    | InvalidJson => (Json 400 "Invalid JSON in request body", server)
    | NullBody => (Json 500 "Internal server error", server)
    | Fields (JString url) formatId title channel =>
        if negb (Js.nonempty url)
        then (Json 400 "URL is required and must be a string", server)
        else
          match formatId with
          | JString formatId =>
              if negb (Js.nonempty formatId)
              then (Json 400 "Format ID is required and must be a string", server)
              else if negb (validateFormatId formatId)
              then (Json 400 "Invalid format ID", server)
              else
                match or_default title "video", or_default channel "unknown" with
                | Some title, Some channel =>
                    download env tool url formatId title channel server
                | _, _ => (Json 500 "Internal server error", server)
                end
          | _ => (Json 400 "Format ID is required and must be a string", server)
          end
    | Fields _ _ _ _ => (Json 400 "URL is required and must be a string", server)
    end.

Definition status_of (r : Response) : Z :=
  match r with
  | Json status _ => status
  | FileStream _ _ _ _ => 200
  end.

(** The token pattern as the specification words it. *)
Definition token_char (c : ascii) : Prop :=
  (("a" <=? c) && (c <=? "z"))%char = true \/
  (("A" <=? c) && (c <=? "Z"))%char = true \/
  (("0" <=? c) && (c <=? "9"))%char = true \/
  c = "-"%char \/ c = "_"%char.

Definition restrictive_token (s : string) : Prop :=
  s <> EmptyString /\ (String.length s <= 20)%nat /\
  Forall token_char (list_ascii_of_string s).


(** A character that a sanitized file name may hold: printable ASCII
    outside the class of the first replacement. *)
Definition is_filename_char (c : ascii) : bool :=
  negb (is_invalid_char c) && negb (is_non_printable c).

End DownloadRoute.

(* ===================================================================== *)
(** ** The download client
    [src/lib/api.ts]: [downloadVideo] and its [sanitizeFilename]. *)
(* ===================================================================== *)

Module Client.

Definition sanitizeFilename (filename : string) : string :=
  Js.substring0 200
    (Js.trim
       (Js.remove DownloadRoute.is_non_printable
          (Js.remove DownloadRoute.is_invalid_char filename))).

(** *** Progress events *)

(** The fields of a progress event the listener reads; the byte counts
    are JavaScript numbers. *)
Record ProgressEvent := MkProgress {
  lengthComputable : bool;
  loaded : float;
  total : float }.

Definition two52 : float := 0x1p52%float.

(** The nearest whole number to [x], ties to even, for [0 <= x < 2^52]:
    adding and removing [2^52] rounds the fraction away. *)
Definition nearest_even (x : float) : float :=
  PrimFloat.sub (PrimFloat.add x two52) two52.

Definition floor_abs (x : float) : float :=
  let r := nearest_even x in
  if PrimFloat.ltb x r then PrimFloat.sub r 1%float else r.

(** [Math.round]: the nearest whole number, a tie going up.  A number
    that is not finite, or whose size leaves no room for a fraction, is
    returned as it is. *)
Definition Math_round (x : float) : float :=
  if negb (PrimFloat.ltb (PrimFloat.abs x) two52) then x
  else if PrimFloat.ltb x 0%float
  then (* a tie goes up, toward zero *)
       let a := PrimFloat.abs x in
       let f := floor_abs a in
       if PrimFloat.ltb 0.5%float (PrimFloat.sub a f)
       then PrimFloat.opp (PrimFloat.add f 1%float)
       else PrimFloat.opp f
  else let f := floor_abs x in
       if PrimFloat.leb 0.5%float (PrimFloat.sub x f)
       then PrimFloat.add f 1%float
       else f.

(** The [progress] listener: the calls it makes to [onProgress], which
    the caller may have left out. *)
Definition on_progress_event (event : ProgressEvent) (onProgress : bool)
  : list float :=
  if lengthComputable event && onProgress
  then [Math_round (PrimFloat.mul (PrimFloat.div (loaded event) (total event)) 100%float)]
  else if onProgress
  then (* Show indeterminate progress *) [0%float]
  else [].

(** *** Completion *)

(** What the [load] listener reads from the request.  [blob_size] is
    absent when there is no response body; [error_field] is the [error]
    of the parsed response text, absent when the text cannot be read or
    parsed or holds none. *)
Record Loaded := MkLoaded {
  status : Z;
  content_type : option string;
  blob_size : option Z;
  content_disposition : option string;
  error_field : option string }.

Inductive Outcome :=
| Resolved
| Rejected (message : string) (status : Z).

(** The text from the first occurrence of [sep] on; [None] without one. *)
Fixpoint after_first (sep s : string) : option string :=
  if String.prefix sep s
  then Some (String.substring (String.length sep)
                              (String.length s - String.length sep) s)
  else match s with
       | EmptyString => None
       | String _ rest => after_first sep rest
       end.

(** The text up to the first occurrence of [sep]. *)
Fixpoint before_first (sep s : string) : string :=
  if String.prefix sep s then EmptyString
  else match s with
       | EmptyString => EmptyString
       | String c rest => String c (before_first sep rest)
       end.

(** [header.split("filename=")[1]], with every double quote removed. *)
Definition disposition_filename (header : string) : option string :=
  match after_first "filename=" header with
  | Some rest =>
      Some (Js.remove (fun c => (Js.code c =? 34)%nat) (before_first "filename=" rest))
  | None => None
  end.

(** The [load] listener: how the promise settles, and the names under
    which it has the browser save the received content ([link.click()]);
    an absent name stands for [undefined]. *)
Definition on_load (title channel : string) (xhr : Loaded)
  : Outcome * list (option string) :=
  if (200 <=? status xhr) && (status xhr <? 300)
  then
    match content_type xhr with
    | None => (Rejected "Invalid file type received" 500, [])
    | Some contentType =>
        if negb (Js.nonempty contentType)
           || (negb (Js.includes "video" contentType)
               && negb (Js.includes "audio" contentType))
        then (Rejected "Invalid file type received" 500, [])
        else
          match blob_size xhr with
          | None => (Rejected "Downloaded file is empty" 500, [])
          | Some size =>
              if size =? 0
              then (Rejected "Downloaded file is empty" 500, [])
              else
                let filename :=
                  match content_disposition xhr with
                  | Some header =>
                      if Js.nonempty header then disposition_filename header
                      else Some (sanitizeFilename title +:+ " - "
                                 +:+ sanitizeFilename channel +:+ ".mp4")
                  | None => Some (sanitizeFilename title +:+ " - "
                                  +:+ sanitizeFilename channel +:+ ".mp4")
                  end in
                (Resolved, [filename])
          end
    end
  else
    (Rejected (match error_field xhr with
               | Some e => if Js.nonempty e then e else "Download failed"
               | None => "Download failed"
               end)
              (status xhr), []).


(** What both sanitizers start from: the name without the invalid and
    the non-printable characters. *)
Definition cleaned (filename : string) : string :=
  Js.remove DownloadRoute.is_non_printable
    (Js.remove DownloadRoute.is_invalid_char filename).


(** The class of the replacement in the file name: the double quote. *)
Definition is_dquote (c : ascii) : bool := (Js.code c =? 34)%nat.

(** What the [load] listener reads when the file the server streams
    has arrived in full: the three headers of the answer and the size
    of the content. *)
Definition received_file (contentType contentDisposition : string)
  (contentLength : Z) : Loaded :=
  MkLoaded 200 (Some contentType) (Some contentLength) (Some contentDisposition) None.

End Client.

(* ===================================================================== *)
(** ** The client download queue
    [src/components/video-url-form.tsx]: the [downloads] and
    [activeDownloads] state, the [downloadQueueRef] queue, the effect
    that runs [processQueue], [startDownload] and the handlers. *)
(* ===================================================================== *)

Module Queue.

Inductive Status := queued | preparing | downloading | completed | error | cancelled.

#[global] Instance Status_eq_dec : EqDecision Status.
Proof. solve_decision. Defined.

(** [abortController] is the identity of the controller object. *)
Record DownloadItem := MkItem {
  id : string;
  title : string;
  channel : string;
  format : string;
  status : Status;
  progress : option float;
  error_message : option string;
  abortController : option nat;
  url : option string;
  formatId : option string }.

Definition MAX_CONCURRENT_DOWNLOADS : Z := 1.

(** The component's state and what hangs off it between two turns of
    the event loop:
    - [transfers]: the calls of [downloadVideo] that have not settled,
      each with the [downloadId] of its [startDownload] and its signal;
    - [timers]: the pending [setTimeout(() => processQueue(), 0)], each
      with the [activeDownloads] its closure captured;
    - [requests]: the [downloadId]s for which a request was sent;
    - [controllers]: how many [AbortController]s were created. *)
Record State := MkState {
  downloads : list DownloadItem;
  activeDownloads : Z;
  downloadQueue : list string;
  transfers : list (string * option nat);
  timers : list Z;
  requests : list string;
  controllers : nat }.

Definition initial : State := MkState [] 0 [] [] [] [] 0.

(** [prev.map((d) => d.id === downloadId ? f(d) : d)] *)
Definition update (downloadId : string) (f : DownloadItem -> DownloadItem)
  (ds : list DownloadItem) : list DownloadItem :=
  map (fun d => if String.eqb (id d) downloadId then f d else d) ds.

Definition with_status (st : Status) (d : DownloadItem) : DownloadItem :=
  MkItem (id d) (title d) (channel d) (format d) st (progress d)
         (error_message d) (abortController d) (url d) (formatId d).

Definition with_error (msg : string) (d : DownloadItem) : DownloadItem :=
  MkItem (id d) (title d) (channel d) (format d) error (progress d)
         (Some msg) (abortController d) (url d) (formatId d).

Definition with_progress (p : float) (d : DownloadItem) : DownloadItem :=
  MkItem (id d) (title d) (channel d) (format d) (status d) (Some p)
         (error_message d) (abortController d) (url d) (formatId d).

Definition requeued (controller : nat) (d : DownloadItem) : DownloadItem :=
  MkItem (id d) (title d) (channel d) (format d) queued None None
         (Some controller) (url d) (formatId d).

(** [downloads.find((d) => d.id === downloadId)] *)
Definition find_download (downloadId : string) (ds : list DownloadItem)
  : option DownloadItem :=
  List.find (fun d => String.eqb (id d) downloadId) ds.

Definition status_of (s : State) (downloadId : string) : option Status :=
  status <$> find_download downloadId (downloads s).

(** [startDownload] up to its [await]: the slot is taken and the
    request sent. *)
Definition startDownload (downloadId : string) (signal : option nat) (s : State)
  : State :=
  MkState (downloads s) (activeDownloads s + 1) (downloadQueue s)
          (transfers s ++ [(downloadId, signal)]) (timers s)
          (requests s ++ [downloadId]) (controllers s).

Definition schedule_retry (captured : Z) (s : State) : State :=
  MkState (downloads s) (activeDownloads s) (downloadQueue s) (transfers s)
          (timers s ++ [captured]) (requests s) (controllers s).

(** [processQueue] as the closure of a render in which [activeDownloads]
    had the value [captured].  The updater handed to [setDownloads]
    starts the download and returns the list with the item [preparing];
    the update to [downloading] that [startDownload] queues is the
    event [Started] below. *)
Definition processQueue (captured : Z) (s : State) : State :=
  if (MAX_CONCURRENT_DOWNLOADS <=? captured)
  then s
  else
    match downloadQueue s with
    | [] => s
    | downloadId :: rest =>
        let s := MkState (downloads s) (activeDownloads s) rest (transfers s)
                         (timers s) (requests s) (controllers s) in
        if negb (Js.nonempty downloadId) then s
        else
          match find_download downloadId (downloads s) with
          | None => schedule_retry captured s
          | Some download =>
              if negb (bool_decide (status download = queued))
              then schedule_retry captured s
              else if negb (Formats.truthy_str (url download))
                      || negb (Formats.truthy_str (formatId download))
              then schedule_retry captured s
              else
                let s := startDownload downloadId (abortController download) s in
                MkState (update downloadId (with_status preparing) (downloads s))
                        (activeDownloads s) (downloadQueue s) (transfers s)
                        (timers s) (requests s) (controllers s)
          end
    end.

(** The dependencies of the effect: [[activeDownloads, downloads.length]]. *)
Definition deps_changed (prev next : State) : bool :=
  negb (activeDownloads prev =? activeDownloads next)
  || negb (length (downloads prev) =? length (downloads next))%nat.

(** After a render the effect runs when a dependency changed, with the
    values of that render; what it changes is rendered in turn. *)
Fixpoint effects (fuel : nat) (prev next : State) : State :=
  match fuel with
  | O => next
  | S fuel =>
      if deps_changed prev next
      then effects fuel next (processQueue (activeDownloads next) next)
      else next
  end.

(** A run of [processQueue] that gets past its guard shortens the
    queue, which bounds the renders that follow one another. *)
Definition commit (prev next : State) : State :=
  effects (2 + length (downloadQueue next)) prev next.

(** [handleDownload], for the item data it builds from the chosen
    format; the new item is put in front of the list. *)
Definition handleDownload (downloadId title channel format url formatId : string)
  (s : State) : State :=
  let newDownload :=
    MkItem downloadId title channel format queued None None
           (Some (controllers s)) (Some url) (Some formatId) in
  MkState (newDownload :: downloads s) (activeDownloads s)
          (downloadQueue s ++ [downloadId]) (transfers s) (timers s)
          (requests s) (S (controllers s)).

(** How a call of [downloadVideo] settles: it resolves, or rejects with
    the abort error, with an [APIError], or with something else. *)
Inductive Settlement :=
| Succeeded
| Aborted
| ApiError (message : string) (status : Z)
| OtherError.

Definition friendly_message (o : Settlement) : string :=
  match o with
  | ApiError message status =>
      if status =? 429
      then "Too many downloads at once! Give us a moment and try again."
      else if status =? 413
      then "This file is too large. Try selecting a smaller quality option."
      else if status =? 408
      then "Download took too long. Please try again."
      else message
  | _ => "Download failed. Let's try that again."
  end.

Fixpoint remove_transfer (t : string * option nat)
  (ts : list (string * option nat)) : list (string * option nat) :=
  match ts with
  | [] => []
  | t' :: rest => if bool_decide (t' = t) then rest else t' :: remove_transfer t rest
  end.

(** [startDownload] from its [await] on, for the transfer [t]. *)
Definition settle (t : string * option nat) (o : Settlement) (s : State) : State :=
  let downloadId := t.1 in
  let change :=
    match o with
    | Succeeded => with_status completed
    | Aborted => with_status cancelled
    | _ => with_error (friendly_message o)
    end in
  MkState (update downloadId change (downloads s)) (activeDownloads s - 1)
          (downloadQueue s) (remove_transfer t (transfers s)) (timers s)
          (requests s) (controllers s).

(** [controller.abort()]: the transfers that were given its signal
    reject with the abort error. *)
Definition abort (controller : nat) (s : State) : State :=
  foldl (fun s t => if bool_decide (t.2 = Some controller) then settle t Aborted s else s)
        s (transfers s).

Definition handleCancelDownload (downloadId : string) (s : State) : State :=
  match find_download downloadId (downloads s) with
  | Some download =>
      if bool_decide (status download = queued)
      then MkState (update downloadId (with_status cancelled) (downloads s))
                   (activeDownloads s)
                   (List.filter (fun i => negb (String.eqb i downloadId)) (downloadQueue s))
                   (transfers s) (timers s) (requests s) (controllers s)
      else match abortController download with
           | Some controller => abort controller s
           | None => s
           end
  | None => s
  end.

Definition handleRetryDownload (downloadId : string) (s : State) : State :=
  match find_download downloadId (downloads s) with
  | None => s
  | Some _ =>
      MkState (update downloadId (requeued (controllers s)) (downloads s))
              (activeDownloads s) (downloadQueue s ++ [downloadId])
              (transfers s) (timers s) (requests s) (S (controllers s))
  end.

Definition handleClearCompleted (s : State) : State :=
  MkState (List.filter (fun d => negb (bool_decide (status d = completed))) (downloads s))
          (activeDownloads s) (downloadQueue s) (transfers s) (timers s)
          (requests s) (controllers s).

(** What a turn of the event loop delivers to the component. *)
Inductive Event :=
| Download (downloadId title channel format url formatId : string)
| Cancel (downloadId : string)
| Retry (downloadId : string)
| ClearCompleted
| Started (downloadId : string)
| Progress (downloadId : string) (p : float)
| Settled (downloadId : string) (o : Settlement)
| Timeout (k : nat).

Definition transfer_of (downloadId : string) (s : State) : option (string * option nat) :=
  List.find (fun t => String.eqb t.1 downloadId) (transfers s).

Definition set_downloads (ds : list DownloadItem) (s : State) : State :=
  MkState ds (activeDownloads s) (downloadQueue s) (transfers s) (timers s)
          (requests s) (controllers s).

(** The handler of the event, then the renders and effects it causes. *)
Definition react (s : State) (e : Event) : State :=
  match e with
  | Download downloadId title channel format url formatId =>
      commit s (handleDownload downloadId title channel format url formatId s)
  | Cancel downloadId => commit s (handleCancelDownload downloadId s)
  | Retry downloadId => commit s (handleRetryDownload downloadId s)
  | ClearCompleted => commit s (handleClearCompleted s)
  | Started downloadId =>
      set_downloads (update downloadId (with_status downloading) (downloads s)) s
  | Progress downloadId p =>
      set_downloads (update downloadId (with_progress p) (downloads s)) s
  | Settled downloadId o =>
      match transfer_of downloadId s with
      | Some t => commit s (settle t o s)
      | None => s
      end
  | Timeout k =>
      match timers s !! k with
      | Some captured =>
          let s' := MkState (downloads s) (activeDownloads s) (downloadQueue s)
                            (transfers s) (delete k (timers s)) (requests s)
                            (controllers s) in
          commit s (processQueue captured s')
      | None => s
      end
  end.

(** Modelled from the spec: the list component that renders the retry
    and cancel actions ([components/download-progress]) is not among the
    sources; by section 4.4 retry is the transition from [error] or
    [cancelled] to [queued], so it is offered for those two states. *)
Definition retry_offered (st : Status) : bool :=
  bool_decide (st = error) || bool_decide (st = cancelled).

(** The events the environment can deliver in a state: a download with
    a new identifier (it embeds the time of the click) for the address
    and format of the video on display, which are not empty; a retry
    where it is offered; what concerns a transfer while it is pending;
    a timer that is pending. *)
Definition offered (s : State) (e : Event) : Prop :=
  match e with
  | Download downloadId _ _ _ url formatId =>
      (downloadId ∉ map id (downloads s)) /\ downloadId <> EmptyString
      /\ url <> EmptyString /\ formatId <> EmptyString
  | Retry downloadId =>
      exists st, status_of s downloadId = Some st /\ retry_offered st = true
  | Cancel _ | ClearCompleted => True
  | Started downloadId | Progress downloadId _ | Settled downloadId _ =>
      downloadId ∈ map fst (transfers s)
  | Timeout k => (k < length (timers s))%nat
  end.

Inductive reachable : State -> Prop :=
| reachable_initial : reachable initial
| reachable_react s e : reachable s -> offered s e -> reachable (react s e).

(** A run of events from a state, each offered where it happens. *)
Inductive run : State -> list Event -> State -> Prop :=
| run_nil s : run s [] s
| run_snoc s evs s' e : run s evs s' -> offered s' e -> run s (evs ++ [e]) (react s' e).

Definition is_active (st : Status) : bool :=
  bool_decide (st = preparing) || bool_decide (st = downloading).

Definition is_finished (st : Status) : bool :=
  bool_decide (st = completed) || bool_decide (st = error)
  || bool_decide (st = cancelled).

Definition active_items (s : State) : list DownloadItem :=
  List.filter (fun d => is_active (status d)) (downloads s).


(** *** What holds in every reachable state *)

(** Some item of the list has the identifier [x] and the status [st]. *)
Definition has_status (ds : list DownloadItem) (x : string) (st : Status) : Prop :=
  exists d, d ∈ ds /\ id d = x /\ status d = st.

Definition well_formed (d : DownloadItem) : Prop :=
  Js.nonempty (id d) = true /\ Formats.truthy_str (url d) = true
  /\ Formats.truthy_str (formatId d) = true.

Record Inv (s : State) : Prop := MkInv {
  ids_nodup : NoDup (map id (downloads s));
  queue_nodup : NoDup (downloadQueue s);
  queue_iff : forall x, x ∈ downloadQueue s <-> has_status (downloads s) x queued;
  items_ok : Forall well_formed (downloads s);
  slot_count : activeDownloads s = Z.of_nat (length (transfers s));
  slot_single : (length (transfers s) <= 1)%nat;
  transfer_iff : forall x,
    x ∈ map fst (transfers s) <->
    exists st, has_status (downloads s) x st /\ is_active st = true;
  no_timers : timers s = [] }.

(** [a] stands before [b] in the queue. *)
Definition before (a b : string) (q : list string) : Prop :=
  exists q1 q2, q = q1 ++ a :: q2 /\ b ∈ q2.

(** While [a] has not finished, an item [b] that was requested later
    waits behind it, or was cancelled while it waited. *)
Definition waits_behind (a b : string) (s : State) : Prop :=
  (has_status (downloads s) b queued \/ has_status (downloads s) b cancelled) /\
  (has_status (downloads s) b queued ->
   (exists st, has_status (downloads s) a st /\ is_active st = true)
   \/ before a b (downloadQueue s)).

Definition unfinished (a : string) (s : State) : Prop :=
  exists st, has_status (downloads s) a st /\ is_finished st = false.

Definition finished (a : string) (s : State) : Prop :=
  exists st, status_of s a = Some st /\ is_finished st = true.

Definition active (a : string) (s : State) : Prop :=
  exists st, status_of s a = Some st /\ is_active st = true.


(** The state in which [processQueue] leaves the queue when it starts
    the download at its head. *)
Definition take_slot (downloadId : string) (signal : option nat) (rest : list string)
  (s : State) : State :=
  MkState (update downloadId (with_status preparing) (downloads s))
          (activeDownloads s + 1) rest (transfers s ++ [(downloadId, signal)])
          (timers s) (requests s ++ [downloadId]) (controllers s).


(** The status in which a transfer that settles leaves its item. *)
Definition settled_as (o : Settlement) : Status :=
  match o with
  | Succeeded => completed
  | Aborted => cancelled
  | _ => error
  end.


Definition settled (a : string) (s : State) : Prop :=
  exists st, has_status (downloads s) a st /\ is_finished st = true.

(** The order of admission between [a] and a later [b]: [a] has
    finished, or it has not and [b] waits behind it. *)
Definition in_order (a b : string) (s : State) : Prop :=
  settled a s \/ (unfinished a s /\ waits_behind a b s).


(** What a turn keeps of that order, from [s] to [next]. *)
Definition keeps_order (a b : string) (s next : State) : Prop :=
  settled a next \/
  (unfinished a next /\ (waits_behind a b s -> waits_behind a b next)).


(** The item [x] is cancelled, and since the requests [sent] no request
    was sent for it. *)
Definition stays_cancelled (x : string) (sent : list string) (s : State) : Prop :=
  has_status (downloads s) x cancelled /\
  exists more, requests s = sent ++ more /\ x ∉ more.


(** Each pending transfer was given the signal of the controller that
    its item holds. *)
Definition signals_ok (s : State) : Prop :=
  forall x signal,
    (x, signal) ∈ transfers s ->
    exists d controller,
      d ∈ downloads s /\ id d = x /\ signal = Some controller
      /\ abortController d = Some controller.

End Queue.

(* ===================================================================== *)
(** ** The metadata endpoint
    [src/app/api/video-info/route.ts]: [sanitizeInput], [formatViewCount],
    [formatUploadDate], [POST]. *)
(* ===================================================================== *)

Module MetadataRoute.

(** [input.trim().substring(0, 2000)] *)
Definition sanitizeInput (input : string) : string :=
  Js.substring0 2000 (Js.trim input).

(** The document the tool prints, parsed.  The fields are read as the
    types of the tool's schema: texts as strings, counts as numbers. *)
Record VideoInfo := MkInfo {
  info_id : option string;
  info_title : option string;
  info_uploader : option string;
  info_channel : option string;
  info_duration : option Formats.number;
  info_thumbnail : option string;
  info_description : option string;
  info_view_count : option Formats.number;
  info_upload_date : option string;
  info_formats : option (list Formats.RawFormat) }.

(** The answer of the endpoint on success. *)
Record VideoData := MkData {
  id : string;
  title : string;
  channel : string;
  duration : string;
  thumbnail : string;
  description : string;
  viewCount : string;
  uploadDate : string;
  formats : list Formats.Descriptor }.

Inductive ParsedBody :=
| InvalidJson
| NullBody
| Body (url : DownloadRoute.JsValue).

Record Request := MkRequest {
  forwarded_for : option string;
  body : ParsedBody }.

Definition clientIP (request : Request) : string :=
  match forwarded_for request with
  | Some ip => if Js.nonempty ip then ip else "unknown"
  | None => "unknown"
  end.

Record Server := MkServer {
  rateLimitMap : gmap string RateLimit.entry;
  executed : list string }.

Inductive Response :=
| Json (status : Z) (error : string)
| Data (videoData : VideoData).

Definition status_of (r : Response) : Z :=
  match r with
  | Json status _ => status
  | Data _ => 200
  end.

(** [a || b] on optional texts. *)
Definition or_else (a : option string) (b : string) : string :=
  match a with
  | Some s => if Js.nonempty s then s else b
  | None => b
  end.

Definition command_line (sanitizedUrl : string) : string :=
  "yt-dlp --dump-json --no-download --no-warnings "
  +:+ DownloadRoute.dquote +:+ sanitizedUrl +:+ DownloadRoute.dquote.

Section Platform.

(** The platform and the tool: [new URL], [JSON.parse] (absent when it
    throws or yields [null]), [(n / d).toFixed(1)], the short en-US
    rendering of the date [new Date(text)] (absent when the date is
    invalid), and [execAsync] of a command line. *)
Variable URL_parse : string -> option UrlValidation.URL.
Variable JSON_parse : string -> option VideoInfo.
Variable toFixed1 : Formats.number -> N -> string.
Variable Date_short : string -> option string.
Variable exec : string -> DownloadRoute.ExecResult.

Definition formatViewCount (viewCount : option Formats.number) : string :=
  match viewCount with
  | None => "0 views"
  | Some v =>
      if negb (Formats.number_truthy v) then "0 views"
      else if (1000000000 <=? Formats.whole v)%N
      then toFixed1 v 1000000000 +:+ "B"
      else if (1000000 <=? Formats.whole v)%N
      then toFixed1 v 1000000 +:+ "M"
      else if (1000 <=? Formats.whole v)%N
      then toFixed1 v 1000 +:+ "K"
      else Formats.number_to_string v
  end.

Definition formatUploadDate (uploadDate : option string) : string :=
  match uploadDate with
  | None => "Unknown date"
  | Some text =>
      if negb (Js.nonempty text) || (String.length text <? 8)%nat
      then "Unknown date"
      else
        let year := String.substring 0 4 text in
        let month := String.substring 4 2 text in
        let day := String.substring 6 2 text in
        match Date_short (year +:+ "-" +:+ month +:+ "-" +:+ day) with
        | Some shown => shown
        | None => "Unknown date"
        end
  end.

(** The object built from a document that has an identifier and a title. *)
Definition videoData_of (videoInfo : VideoInfo) : VideoData :=
  {| id := default EmptyString (info_id videoInfo);
     title := Js.substring0 200 (default EmptyString (info_title videoInfo));
     channel :=
       Js.substring0 100
         (match info_uploader videoInfo with
          | Some u => if Js.nonempty u then u
                      else or_else (info_channel videoInfo) "Unknown"
          | None => or_else (info_channel videoInfo) "Unknown"
          end);
     duration :=
       match info_duration videoInfo with
       | Some d => if Formats.number_truthy d then Formats.number_to_string d else "0"
       | None => "0"
       end;
     thumbnail := or_else (info_thumbnail videoInfo) EmptyString;
     description := Js.substring0 1000 (or_else (info_description videoInfo) EmptyString);
     viewCount := formatViewCount (info_view_count videoInfo);
     uploadDate := formatUploadDate (info_upload_date videoInfo);
     formats := Formats.processFormats (default [] (info_formats videoInfo)) |}.

Definition POST (now : Z) (request : Request) (server : Server)
  : Response * Server :=
  let '(allowed, limits) :=
    RateLimit.checkRateLimit now (clientIP request) (rateLimitMap server) in
  let server := MkServer limits (executed server) in
  if negb allowed
  then (Json 429 "Rate limit exceeded. Please try again later.", server)
  else
    match body request with
    | InvalidJson => (Json 400 "Invalid JSON in request body", server)
    | NullBody => (Json 500 "Internal server error", server)
    | Body (DownloadRoute.JString url) =>
        if negb (Js.nonempty url)
        then (Json 400 "URL is required and must be a string", server)
        else
          let sanitizedUrl := sanitizeInput url in
          if negb (UrlValidation.validateYouTubeUrl URL_parse sanitizedUrl)
          then (Json 400 "Invalid YouTube URL format", server)
          else
            let command := command_line sanitizedUrl in
            let server := MkServer limits (executed server ++ [command]) in
            match exec command with
            | DownloadRoute.ExecError true =>
                (Json 408 "Request timeout. Video might be too large or unavailable.",
                 server)
            | DownloadRoute.ExecError false =>
                (Json 500 "Failed to fetch video information. Video might be private or unavailable.",
                 server)
            | DownloadRoute.Exited stdout stderr =>
                if Js.nonempty stderr && Js.includes "ERROR" stderr
                then (Json 404 "Video not available or private", server)
                else
                  match JSON_parse stdout with
                  | None =>
                      (Json 500 "Failed to fetch video information. Video might be private or unavailable.",
                       server)
                  | Some videoInfo =>
                      if negb (Formats.truthy_str (info_id videoInfo))
                         || negb (Formats.truthy_str (info_title videoInfo))
                      then (Json 500 "Invalid video data received", server)
                      else (Data (videoData_of videoInfo), server)
                  end
            end
    | Body _ => (Json 400 "URL is required and must be a string", server)
    end.

End Platform.

End MetadataRoute.

(* ===================================================================== *)
(** ** Clean-up of a streamed file
    [src/app/api/download/route.ts], the three triggers registered in
    [POST]: on [end], on [error] and after five minutes. *)
(* ===================================================================== *)

Module TempFiles.

(** [unlinkSync] throws when there is no such file. *)
Definition unlink_or_throw (dir : DownloadRoute.Directory) (name : string)
  : option DownloadRoute.Directory :=
  if DownloadRoute.existsSync dir name
  then Some (DownloadRoute.unlinkSync dir name)
  else None.

(** The body of each trigger: [if (existsSync(p)) unlinkSync(p)] inside
    a [try] whose [catch] only logs.  The second component tells whether
    an error was caught. *)
Definition cleanup (name : string) (dir : DownloadRoute.Directory)
  : DownloadRoute.Directory * bool :=
  if DownloadRoute.existsSync dir name
  then match unlink_or_throw dir name with
       | Some dir' => (dir', false)
       | None => (dir, true)
       end
  else (dir, false).

(** The triggers that fire, one after the other, each on what the
    previous ones and other requests left. *)
Fixpoint fire (names : list string) (dir : DownloadRoute.Directory)
  : DownloadRoute.Directory * bool :=
  match names with
  | [] => (dir, false)
  | name :: rest =>
      let '(dir', caught) := cleanup name dir in
      let '(dir'', caught') := fire rest dir' in
      (dir'', caught || caught')
  end.

End TempFiles.

(* ===================================================================== *)
(** ** The metadata client and the form
    [src/lib/api.ts], [fetchVideoInfo]; [src/components/video-url-form.tsx],
    [handleSubmit], [isValidYouTubeUrl], the submit button,
    [hasActiveDownloads]. *)
(* ===================================================================== *)

Module Form.

(** What [fetch] gives the client: it rejects (with a [TypeError] whose
    message mentions [fetch], or with something else), or it answers
    with a status and a body, which is no JSON, or an object that may
    hold an [error] text, or the video data. *)
Inductive WireJson :=
| ErrorObject (error : option string)
| DataObject (data : MetadataRoute.VideoData).

Inductive Wire :=
| Unreachable (type_error_about_fetch : bool)
| Answer (status : Z) (json : option WireJson).

(** [NextResponse.json] of the endpoint's answer, as the client gets it. *)
Definition on_the_wire (r : MetadataRoute.Response) : Wire :=
  match r with
  | MetadataRoute.Json status error => Answer status (Some (ErrorObject (Some error)))
  | MetadataRoute.Data videoData => Answer 200 (Some (DataObject videoData))
  end.

(** [APIError(message, status)] *)
Record APIError := MkError { message : string; status : Z }.

Definition fetchVideoInfo (w : Wire) : MetadataRoute.VideoData + APIError :=
  match w with
  | Unreachable true => inr (MkError "Network error. Please check your connection." 0)
  | Unreachable false => inr (MkError "An unexpected error occurred" 500)
  | Answer status json =>
      if (200 <=? status) && (status <? 300)
      then match json with
           | None => inr (MkError "An unexpected error occurred" 500)
           | Some (ErrorObject _) => inr (MkError "Invalid video data received" 500)
           | Some (DataObject data) =>
               if negb (Js.nonempty (MetadataRoute.id data))
                  || negb (Js.nonempty (MetadataRoute.title data))
               then inr (MkError "Invalid video data received" 500)
               else inl data
           end
      else
        inr (MkError
               (match json with
                | Some (ErrorObject (Some e)) =>
                    if Js.nonempty e then e else "Failed to fetch video information"
                | _ => "Failed to fetch video information"
                end)
               status)
  end.

(** What [handleSubmit] leaves in the [videoData] and [error] state. *)
Definition handleSubmit (w : Wire) : option MetadataRoute.VideoData * option string :=
  match fetchVideoInfo w with
  | inl videoInfo => (Some videoInfo, None)
  | inr err =>
      (None,
       Some (if status err =? 429
             then "Whoa, slow down! Please wait a moment before trying again."
             else if status err =? 400
             then "Hmm, that doesn't look like a valid YouTube link. Can you double-check?"
             else if status err =? 404
             then "We couldn't find that video. It might be private or deleted."
             else message err))
  end.

(** [.] of a regular expression: any character but a line terminator. *)
Definition is_line_terminator (c : ascii) : bool :=
  (Js.code c =? 10)%nat || (Js.code c =? 13)%nat.

Definition drop_prefix (p s : string) : string :=
  match UrlValidation.strip_prefix p s with
  | Some rest => rest
  | None => s
  end.

(** [/^(https?:\/\/)?(www\.)?(youtube\.com|youtu\.be)\/.+/.test(url)].
    Each optional group is taken when it is there: without it the text
    would have to go on with [www.] or a host name where it goes on with
    [http]. *)
Definition isValidYouTubeUrl (url : string) : bool :=
  let after_scheme :=
    match UrlValidation.strip_prefix "https://" url with
    | Some rest => rest
    | None => drop_prefix "http://" url
    end in
  let after_www := drop_prefix "www." after_scheme in
  let after_host :=
    match UrlValidation.strip_prefix "youtube.com" after_www with
    | Some rest => Some rest
    | None => UrlValidation.strip_prefix "youtu.be" after_www
    end in
  match after_host with
  | Some (String slash (String c _)) =>
      (Js.code slash =? 47)%nat && negb (is_line_terminator c)
  | _ => false
  end.

(** The submit button is enabled: [url.trim()], the pattern, not loading. *)
Definition submit_enabled (url : string) (isLoading : bool) : bool :=
  Js.nonempty (Js.trim url) && isValidYouTubeUrl url && negb isLoading.



(** The pattern read as a grammar: an optional scheme, an optional
    [www.], one of the two host names, a slash, and at least one
    character that is no line terminator; what follows is free. *)
Definition matches_pattern (url : string) : Prop :=
  exists scheme www host c rest,
    In scheme [EmptyString; "http://"; "https://"] /\
    In www [EmptyString; "www."] /\
    In host ["youtube.com"; "youtu.be"] /\
    is_line_terminator c = false /\
    url = scheme +:+ www +:+ host +:+ "/" +:+ String c rest.

End Form.

(* ===================================================================== *)
(** ** The format lists on display
    [src/components/format-selector.tsx]: the three filters, of which
    the tabs show [combinedFormats] and [audioFormats]. *)
(* ===================================================================== *)

Module FormatSelector.

Definition has_video (f : Formats.Descriptor) : bool :=
  Formats.is_video (Formats.vcodec f).

Definition has_audio (f : Formats.Descriptor) : bool :=
  Formats.is_video (Formats.acodec f).

Definition videoFormats (formats : list Formats.Descriptor) : list Formats.Descriptor :=
  List.filter has_video formats.

(** [(f.vcodec === "none" || !f.vcodec) && (f.ext === "m4a" || f.ext === "mp4")] *)
Definition audioFormats (formats : list Formats.Descriptor) : list Formats.Descriptor :=
  List.filter
    (fun f =>
       (bool_decide (Formats.vcodec f = Some "none")
        || negb (Formats.truthy_str (Formats.vcodec f)))
       && (String.eqb (Formats.ext f) "m4a" || String.eqb (Formats.ext f) "mp4"))
    formats.

Definition combinedFormats (formats : list Formats.Descriptor) : list Formats.Descriptor :=
  List.filter (fun f => has_video f && has_audio f) formats.

(** The cards of the two tabs, each tab in the order of [sortFormats],
    which is not modelled: the list is read as the set of its cards. *)
Definition offered (formats : list Formats.Descriptor) : list Formats.Descriptor :=
  combinedFormats formats ++ audioFormats formats.

End FormatSelector.

(* ===================================================================== *)
(** ** The duration badge
    [src/components/video-details.tsx], [formatDuration]. *)
(* ===================================================================== *)

Module VideoDetails.



Section Duration.

(** [Number.parseInt]; absent for [NaN]. *)
Variable Number_parseInt : string -> option Z.


End Duration.




(** The text of the view count on the card: [{video.viewCount} views]. *)
Definition views_label (video : MetadataRoute.VideoData) : string :=
  MetadataRoute.viewCount video +:+ " views".

End VideoDetails.

(* ===================================================================== *)
(** * Part II: the properties *)
(* ===================================================================== *)

(** ** Rate limiting *)

Section LimiterFacts.

Import RateLimit.

Variables (WINDOW MAX_REQUESTS : Z).

Lemma sweep_lookup now m k : sweep now m !! k = live now m k.
Proof.
  unfold sweep, live.
  destruct (m !! k) as [e|] eqn:Hk.
  - destruct (Z.ltb_spec (resetTime e) now) as [Hlt|Hge].
    + apply map_lookup_filter_None. right. intros e' He'. simpl.
      assert (e' = e) by congruence. subst. lia.
    + apply map_lookup_filter_Some. split; [done|]. simpl. lia.
  - apply map_lookup_filter_None. left. done.
Qed.

Lemma live_not_expired now m k e :
  live now m k = Some e -> (resetTime e <? now) = false.
Proof.
  unfold live. destruct (m !! k) as [e'|]; [|done].
  destruct (resetTime e' <? now) eqn:E; [done|].
  intros [= <-]. done.
Qed.

(** One call, read off the entry that is live for the caller. *)
Lemma check_unfold now ip m :
  check WINDOW MAX_REQUESTS now ip m =
    match live now m ip with
    | None => (true, <[ip := Entry 1 (now + WINDOW)]> (sweep now m))
    | Some u =>
        if count u <? MAX_REQUESTS
        then (true, <[ip := Entry (count u + 1) (resetTime u)]> (sweep now m))
        else (false, sweep now m)
    end.
Proof.
  unfold check, consume. rewrite sweep_lookup.
  destruct (live now m ip) as [u|] eqn:Hl; [|done].
  rewrite (live_not_expired _ _ _ _ Hl).
  destruct (Z.leb_spec MAX_REQUESTS (count u)), (Z.ltb_spec (count u) MAX_REQUESTS);
    done || lia.
Qed.

(** To any other key a call does what the sweep does. *)
Lemma check_other now ip m k :
  k ≠ ip -> (check WINDOW MAX_REQUESTS now ip m).2 !! k = live now m k.
Proof.
  intros Hne. rewrite check_unfold.
  destruct (live now m ip) as [u|]; [destruct (count u <? MAX_REQUESTS)|];
    simpl; rewrite ?lookup_insert_ne by done; apply sweep_lookup.
Qed.

Lemma check_own now ip m :
  (check WINDOW MAX_REQUESTS now ip m).2 !! ip =
    match live now m ip with
    | None => Some (Entry 1 (now + WINDOW))
    | Some u =>
        if count u <? MAX_REQUESTS
        then Some (Entry (count u + 1) (resetTime u))
        else Some u
    end.
Proof.
  rewrite check_unfold.
  destruct (live now m ip) as [u|] eqn:Hl;
    [destruct (count u <? MAX_REQUESTS)|]; simpl;
    rewrite ?lookup_insert_eq; try done.
  by rewrite sweep_lookup.
Qed.

Lemma check_allowed now ip m :
  (check WINDOW MAX_REQUESTS now ip m).1 =
    match live now m ip with
    | None => true
    | Some u => count u <? MAX_REQUESTS
    end.
Proof.
  rewrite check_unfold.
  destruct (live now m ip) as [u|]; [destruct (count u <? MAX_REQUESTS)|]; done.
Qed.

Lemma calls_of_nonneg ip calls : 0 <= calls_of ip calls.
Proof.
  induction calls as [|[? ?] ? ?]; simpl; [lia|]. destruct (decide _); lia.
Qed.

(** Inside its window the entry of [ip] only counts up, to the maximum. *)
Lemma run_inside_window ip calls : forall m c r,
  m !! ip = Some (Entry c r) ->
  c <= MAX_REQUESTS ->
  Forall (fun call => call.1 <= r) calls ->
  run WINDOW MAX_REQUESTS calls m !! ip
  = Some (Entry (Z.min MAX_REQUESTS (c + calls_of ip calls)) r).
Proof.
  induction calls as [|[now k] rest IH]; intros m c r Hm Hc Hall; simpl.
  - rewrite Hm. do 2 f_equal. lia.
  - inversion Hall as [|? ? Hnow Hrest]; subst. simpl in Hnow.
    assert (Hlive : live now m ip = Some (Entry c r)).
    { unfold live. rewrite Hm. simpl.
      destruct (Z.ltb_spec r now); [lia|done]. }
    pose proof (calls_of_nonneg ip rest).
    destruct (decide (k = ip)) as [->|Hne].
    + pose proof (check_own now ip m) as He. rewrite Hlive in He.
      simpl in He. destruct (Z.ltb_spec c MAX_REQUESTS) as [Hlt|Hge].
      * rewrite (IH _ _ _ He) by (done || lia). do 2 f_equal; lia.
      * rewrite (IH _ _ _ He) by (done || lia). do 2 f_equal; lia.
    + assert (He : (check WINDOW MAX_REQUESTS now k m).2 !! ip = Some (Entry c r)).
      { rewrite check_other; done. }
      rewrite (IH _ _ _ He) by done. do 2 f_equal; lia.
Qed.

End LimiterFacts.

Lemma check_of_eq l :
  RateLimit.check_of l = RateLimit.check (RateLimit.window l) (RateLimit.max_requests l).
Proof. by destruct l. Qed.

Lemma max_requests_pos l : 1 <= RateLimit.max_requests l.
Proof. by destruct l. Qed.

(** C1. One call of either limiter first drops every entry whose reset
    time has passed.  Then a key without a live entry gets the entry
    (1, now + window) and is allowed; a key whose count is below the
    maximum (30 for metadata, 10 for downloads, per 60 s) is counted and
    allowed; a key at the maximum is denied and its entry left as it is.
    Hence, for a fresh key first seen at [t0] and any calls that follow
    no later than [t0 + window], mixed with those of other keys: the next
    call inside the window is allowed exactly while fewer than the
    maximum were made, so the one after the maximum is denied; and a
    call after the window is allowed and sets the count back to 1. *)
Theorem rate_limit_contract (l : RateLimit.limiter) :
  let W := RateLimit.window l in
  let N := RateLimit.max_requests l in
  W = 60000 /\ N = (match l with RateLimit.Metadata => 30 | RateLimit.Download => 10 end) /\
  (forall now ip m,
     let r := RateLimit.check_of l now ip m in
     (forall k, k ≠ ip -> r.2 !! k = RateLimit.live now m k) /\
     match RateLimit.live now m ip with
     | None => r.1 = true /\ r.2 !! ip = Some (RateLimit.Entry 1 (now + W))
     | Some u =>
         if RateLimit.count u <? N
         then r.1 = true /\
              r.2 !! ip = Some (RateLimit.Entry (RateLimit.count u + 1) (RateLimit.resetTime u))
         else r.1 = false /\ r.2 !! ip = Some u
     end) /\
  (forall t0 ip m calls t,
     m !! ip = None ->
     Forall (fun call => call.1 <= t0 + W) calls ->
     let first := RateLimit.check_of l t0 ip m in
     let m1 := RateLimit.run_of l calls first.2 in
     let next := RateLimit.check_of l t ip m1 in
     first.1 = true /\
     (t <= t0 + W ->
        (next.1 = true <-> 1 + RateLimit.calls_of ip calls < N) /\
        (1 + RateLimit.calls_of ip calls = N -> next.1 = false /\ next.2 !! ip = m1 !! ip)) /\
     (t0 + W < t ->
        next.1 = true /\ next.2 !! ip = Some (RateLimit.Entry 1 (t + W)))).
Proof.
  intros W N. split; [by destruct l|]. split; [by destruct l|].
  rewrite check_of_eq. fold W N. split.
  - intros now ip m r. split.
    + intros k Hk. by apply check_other.
    + unfold r. rewrite check_own, check_allowed.
      destruct (RateLimit.live now m ip) as [u|]; [|done].
      destruct (RateLimit.count u <? N); done.
  - intros t0 ip m calls t Hfresh Hall first m1 next.
    assert (Hlive0 : RateLimit.live t0 m ip = None).
    { unfold RateLimit.live. by rewrite Hfresh. }
    assert (Hfirst : first.2 !! ip = Some (RateLimit.Entry 1 (t0 + W))).
    { unfold first. rewrite check_own. by rewrite Hlive0. }
    assert (Hm1 : m1 !! ip = Some (RateLimit.Entry
                    (Z.min N (1 + RateLimit.calls_of ip calls)) (t0 + W))).
    { unfold m1, RateLimit.run_of. fold W N.
      apply run_inside_window; [done | apply max_requests_pos | done]. }
    pose proof (calls_of_nonneg ip calls) as Hnn.
    pose proof (max_requests_pos l) as Hpos. fold N in Hpos.
    split; [|split].
    + unfold first. rewrite check_allowed. by rewrite Hlive0.
    + intros Ht.
      assert (Hl : RateLimit.live t m1 ip = Some (RateLimit.Entry
                     (Z.min N (1 + RateLimit.calls_of ip calls)) (t0 + W))).
      { unfold RateLimit.live. rewrite Hm1. simpl.
        destruct (Z.ltb_spec (t0 + W) t); [lia|done]. }
      split.
      * unfold next. rewrite check_allowed, Hl. simpl.
        rewrite Z.ltb_lt. lia.
      * intros Hfull. unfold next. rewrite check_allowed, check_own, Hl. simpl.
        destruct (Z.ltb_spec (Z.min N (1 + RateLimit.calls_of ip calls)) N); [lia|].
        by rewrite Hm1.
    + intros Ht.
      assert (Hl : RateLimit.live t m1 ip = None).
      { unfold RateLimit.live. rewrite Hm1. simpl.
        destruct (Z.ltb_spec (t0 + W) t); [done|lia]. }
      unfold next. by rewrite check_allowed, check_own, Hl.
Qed.

(** A download client calls ten times inside one window, another client
    in between: the eleventh call is denied, and a call after the window
    is allowed again. *)
Lemma rate_limit_contract_witness :
  let calls := repeat (2000, "10.0.0.1") 9 ++ [(2500, "10.0.0.2")] in
  let m1 := RateLimit.run_of RateLimit.Download calls
              (RateLimit.check_of RateLimit.Download 1000 "10.0.0.1" ∅).2 in
  (RateLimit.check_of RateLimit.Download 3000 "10.0.0.1" m1).1 = false /\
  (RateLimit.check_of RateLimit.Download 61001 "10.0.0.1" m1).1 = true.
Proof.
  intros calls m1.
  destruct (rate_limit_contract RateLimit.Download) as (_ & _ & _ & H).
  assert (Hfresh : (∅ : gmap string RateLimit.entry) !! "10.0.0.1" = None) by reflexivity.
  assert (Hall : Forall (fun call : Z * string => call.1 <= 1000 + RateLimit.window RateLimit.Download) calls).
  { unfold calls. simpl. repeat constructor; simpl; vm_compute; discriminate. }
  split.
  - destruct (H 1000 "10.0.0.1" ∅ calls 3000 Hfresh Hall) as (_ & Hin & _).
    apply Hin; [vm_compute; discriminate | reflexivity].
  - destruct (H 1000 "10.0.0.1" ∅ calls 61001 Hfresh Hall) as (_ & _ & Hout).
    apply Hout. reflexivity.
Defined.

(** ** String searches *)

Lemma append_nil r : EmptyString +:+ r = r.
Proof. reflexivity. Qed.

Lemma append_cons c p r : String c p +:+ r = String c (p +:+ r).
Proof. reflexivity. Qed.

Lemma prefix_nil s : String.prefix EmptyString s = true.
Proof. by destruct s. Qed.

Lemma prefix_cons_nil c p : String.prefix (String c p) EmptyString = false.
Proof. reflexivity. Qed.

Lemma prefix_cons_cons c p c' s :
  String.prefix (String c p) (String c' s)
  = if Ascii.ascii_dec c c' then String.prefix p s else false.
Proof. reflexivity. Qed.

Lemma prefix_spec p : forall s,
  String.prefix p s = true <-> exists rest, s = p +:+ rest.
Proof.
  induction p as [|c p IH]; intros s.
  - rewrite prefix_nil. split; [intros _; by exists s | done].
  - destruct s as [|c' s].
    + rewrite prefix_cons_nil. split; [done | intros [rest Hr]; discriminate].
    + rewrite prefix_cons_cons. destruct (Ascii.ascii_dec c c') as [->|Hne].
      * rewrite IH. split; intros [rest Hr]; exists rest;
          rewrite ?append_cons in *; congruence.
      * split; [done | intros [rest Hr]; rewrite append_cons in Hr; congruence].
Qed.

Lemma includes_unfold sub s :
  Js.includes sub s
  = String.prefix sub s
    || match s with EmptyString => false | String _ rest => Js.includes sub rest end.
Proof. by destruct s. Qed.

Lemma includes_spec sub : forall s,
  Js.includes sub s = true <-> Js.contains sub s.
Proof.
  unfold Js.contains.
  induction s as [|c s IH]; rewrite includes_unfold.
  - rewrite orb_false_r, prefix_spec. split.
    + intros [rest Hr]. by exists EmptyString, rest.
    + intros ([|? ?] & rest & Hr); [by exists rest | discriminate].
  - rewrite orb_true_iff, prefix_spec, IH. split.
    + intros [[rest Hr] | (pre & post & Hr)].
      * by exists EmptyString, rest.
      * exists (String c pre), post. rewrite append_cons. by rewrite Hr.
    + intros ([|c' pre] & post & Hr).
      * left. by exists post.
      * right. exists pre, post. rewrite append_cons in Hr. congruence.
Qed.

Lemma array_includes_spec xs x : Js.array_includes xs x = true <-> In x xs.
Proof.
  unfold Js.array_includes. rewrite existsb_exists. split.
  - intros (y & Hy & Heq). apply String.eqb_eq in Heq. by subst.
  - intros Hx. exists x. split; [done | apply String.eqb_refl].
Qed.

(** ** URL validation *)




(** ** Format order *)

Section FormatFacts.

Import Formats.

Lemma insert_perm a l : insert a l ≡ₚ a :: l.
Proof.
  induction l as [|b l IH]; simpl; [done|].
  destruct (score a <? score b); [|done].
  rewrite IH. apply Permutation_swap.
Qed.


Lemma sort_perm l : sort l ≡ₚ l.
Proof.
  induction l as [|a l IH]; simpl; [done|]. by rewrite insert_perm, IH.
Qed.




(** *** Decimal rendering *)



Lemma parseInt_render n : parseInt (render n) = Z.of_N n.
Proof.
  unfold parseInt, render. rewrite NilEmpty.usu.
  by rewrite DecimalN.Unsigned.of_to.
Qed.

Lemma render_nonempty n : Js.nonempty (render n) = true.
Proof.
  destruct (render n) eqn:E; [|done].
  pose proof (parseInt_render n) as H. rewrite E in H.
  change (parseInt EmptyString) with 0 in H.
  assert (n = 0%N) as -> by lia. discriminate E.
Qed.




Lemma append_nil_r s : s +:+ EmptyString = s.
Proof. induction s as [|c s IH]; [done|]. rewrite append_cons. by rewrite IH. Qed.



Lemma whole_truthy n : n <> 0%N -> number_truthy (whole_number n) = true.
Proof.
  intros Hn. unfold number_truthy, whole_number. simpl.
  destruct (N.eqb_spec n 0); [done|]. done.
Qed.

Lemma whole_to_string n : number_to_string (whole_number n) = render n.
Proof. unfold number_to_string, whole_number. simpl. apply append_nil_r. Qed.



End FormatFacts.






(** A bitrate with a fraction is scored by the digits after the point:
    129.478 kbps scores 478 and stands before 160 kbps. *)
Example fraction_digits_scored :
  let a := Formats.audio_format "140" (Formats.Num 129 "478") in
  let b := Formats.audio_format "141" (Formats.whole_number 160) in
  Formats.quality (Formats.describe a) = "129.478kbps" /\
  Formats.score (Formats.describe a) = 478 /\
  Formats.processFormats [b; a] = [Formats.describe a; Formats.describe b].
Proof. repeat split. Qed.

(** ** The download endpoint *)

Section DownloadFacts.

Import DownloadRoute.

Lemma is_token_char_spec c : is_token_char c = true <-> token_char c.
Proof.
  unfold token_char.
  destruct c as [[] [] [] [] [] [] [] []]; vm_compute; split;
    (try done);
    (try (intros _; first [ by left | by right; left | by right; right; left
                        | by right; right; right; left | by right; right; right; right ]));
    intros [H|[H|[H|[H|H]]]]; discriminate H.
Qed.

Lemma all_token_chars s :
  Js.all_chars is_token_char s = true <-> Forall token_char (list_ascii_of_string s).
Proof.
  induction s as [|c s IH]; simpl.
  - split; [constructor | done].
  - rewrite andb_true_iff, Forall_cons, is_token_char_spec, IH. done.
Qed.

(** The test of the handler is the token pattern of the specification. *)
Lemma validateFormatId_spec s :
  validateFormatId s = true <-> restrictive_token s.
Proof.
  unfold validateFormatId, restrictive_token.
  rewrite !andb_true_iff, all_token_chars, Nat.leb_le.
  destruct s; simpl; intuition (try done; try lia).
Qed.


Lemma deliver_executed tempDir filename stderr server :
  executed (deliver tempDir filename stderr server).2 = executed server.
Proof.
  unfold deliver.
  destruct (Js.nonempty stderr && Js.includes "ERROR" stderr); [done|].
  destruct (List.filter _ _) as [|name rest]; [done|].
  destruct (negb (existsSync _ _)); [done|].
  destruct (maxFileSize <? _); done.
Qed.

Lemma download_executed env tool url formatId title channel server :
  exists outputPath,
    executed (download env tool url formatId title channel server).2
    = executed server ++ [command_line formatId outputPath url].
Proof.
  unfold download. eexists.
  destruct (tool _ _ _) as [result files].
  destruct result as [stdout stderr|[]]; try done.
  by rewrite deliver_executed.
Qed.

End DownloadFacts.

(** C6, as the code has it.  The handler hands a command line to the
    subprocess only for a format identifier that is a string of 1 to 20
    letters, digits, hyphens and underscores, which it interpolates as
    it is.  A request whose body carries any other format identifier
    runs no subprocess and touches no file; it is answered 400 when the
    rate limiter lets the request through, and 429 when it does not. *)
Theorem format_id_guard (env : DownloadRoute.Env) (tool : DownloadRoute.Tool)
  (now : Z) (request : DownloadRoute.Request) (server : DownloadRoute.Server) :
  let r := DownloadRoute.POST env tool now request server in
  let allowed :=
    (RateLimit.checkDownloadRateLimit now (DownloadRoute.clientIP request)
       (DownloadRoute.downloadRateLimitMap server)).1 in
  (DownloadRoute.executed r.2 <> DownloadRoute.executed server ->
   exists url formatId title channel outputPath,
     DownloadRoute.body request
     = DownloadRoute.Fields (DownloadRoute.JString url)
                            (DownloadRoute.JString formatId) title channel /\
     DownloadRoute.restrictive_token formatId /\
     DownloadRoute.executed r.2
     = DownloadRoute.executed server
       ++ [DownloadRoute.command_line formatId outputPath url]) /\
  (forall url formatId title channel,
     DownloadRoute.body request = DownloadRoute.Fields url formatId title channel ->
     (forall token, formatId = DownloadRoute.JString token ->
                    ~ DownloadRoute.restrictive_token token) ->
     DownloadRoute.executed r.2 = DownloadRoute.executed server /\
     DownloadRoute.tempFiles r.2 = DownloadRoute.tempFiles server /\
     DownloadRoute.status_of r.1 = if allowed then 400 else 429).
Proof.
  intros r allowed. unfold r, allowed, DownloadRoute.POST.
  destruct (RateLimit.checkDownloadRateLimit _ _ _) as [ok limits].
  cbn [fst].
  destruct ok; cbn [negb]; [|by split; [|intros; split]].
  destruct (DownloadRoute.body request) as [| |url formatId title channel] eqn:Hbody;
    [by split | by split |].
  split.
  - destruct url as [|url|]; try done.
    destruct (Js.nonempty url); cbn [negb]; [|done].
    destruct formatId as [|formatId|]; try done.
    destruct (Js.nonempty formatId); cbn [negb]; [|done].
    destruct (DownloadRoute.validateFormatId formatId) eqn:Hvalid; cbn [negb]; [|done].
    apply validateFormatId_spec in Hvalid.
    destruct (DownloadRoute.or_default title "video") as [t|]; [|done].
    destruct (DownloadRoute.or_default channel "unknown") as [c|]; [|done].
    intros _.
    destruct (download_executed env tool url formatId t c
                (DownloadRoute.MkServer limits (DownloadRoute.tempFiles server)
                   (DownloadRoute.executed server) (DownloadRoute.cleanups server)))
      as [outputPath Hexec].
    exists url, formatId, title, channel, outputPath. done.
  - intros url' formatId' title' channel' [= <- <- <- <-] Hbad.
    destruct url as [|url|]; try done.
    destruct (Js.nonempty url); cbn [negb]; [|done].
    destruct formatId as [|formatId|]; try done.
    destruct (Js.nonempty formatId); cbn [negb]; [|done].
    destruct (DownloadRoute.validateFormatId formatId) eqn:Hvalid; cbn [negb]; [|done].
    apply validateFormatId_spec in Hvalid. by destruct (Hbad formatId).
Qed.

(** A request that tries to smuggle a second command in its format
    identifier, on a server that has seen nothing yet: answered 400, no
    subprocess. *)
Lemma format_id_guard_witness :
  let request :=
    DownloadRoute.MkRequest (Some "10.0.0.1")
      (DownloadRoute.Fields (DownloadRoute.JString "https://youtu.be/abc123")
                            (DownloadRoute.JString "18; rm -rf /")
                            DownloadRoute.JUndefined DownloadRoute.JUndefined) in
  let server := DownloadRoute.MkServer ∅ [] [] [] in
  let tool : DownloadRoute.Tool := fun _ _ files => (DownloadRoute.Exited EmptyString EmptyString, files) in
  let r := DownloadRoute.POST (DownloadRoute.MkEnv false "/tmp") tool 1000 request server in
  DownloadRoute.executed r.2 = [] /\ DownloadRoute.status_of r.1 = 400.
Proof.
  intros request server tool r.
  destruct (format_id_guard (DownloadRoute.MkEnv false "/tmp") tool 1000 request server)
    as [_ H].
  destruct (H _ _ _ _ eq_refl) as (He & _ & Hs).
  - intros token [= <-] Htoken. apply validateFormatId_spec in Htoken. discriminate Htoken.
  - split; [exact He | exact Hs].
Defined.

(** C6 as the specification words it fails: the eleventh request of a minute is
    answered 429, whatever its format identifier. *)
Lemma format_id_guard_counterexample :
  ~ (forall env tool now request server url formatId title channel,
       DownloadRoute.body request = DownloadRoute.Fields url formatId title channel ->
       (forall token, formatId = DownloadRoute.JString token ->
                      ~ DownloadRoute.restrictive_token token) ->
       DownloadRoute.status_of (DownloadRoute.POST env tool now request server).1 = 400).
Proof.
  intros H.
  pose (request :=
    DownloadRoute.MkRequest (Some "10.0.0.1")
      (DownloadRoute.Fields (DownloadRoute.JString "https://youtu.be/abc123")
                            (DownloadRoute.JString "18; rm -rf /")
                            DownloadRoute.JUndefined DownloadRoute.JUndefined)).
  pose (server := DownloadRoute.MkServer
                    {[ "10.0.0.1" := RateLimit.Entry 10 61000 ]} [] [] []).
  pose (tool := (fun _ _ files => (DownloadRoute.Exited EmptyString EmptyString, files))
                : DownloadRoute.Tool).
  specialize (H (DownloadRoute.MkEnv false "/tmp") tool 2000 request server _ _ _ _ eq_refl).
  assert (Hs : DownloadRoute.status_of
                 (DownloadRoute.POST (DownloadRoute.MkEnv false "/tmp") tool 2000
                    request server).1 = 429) by (vm_compute; reflexivity).
  rewrite Hs in H. 
  assert (429 = 400) as Habs; [|discriminate Habs].
  apply H. intros token [= <-] Htoken.
  apply validateFormatId_spec in Htoken. discriminate Htoken.
Qed.

Lemma existsSync_elem files name :
  name ∈ map fst files -> DownloadRoute.existsSync files name = true.
Proof.
  intros Hin. unfold DownloadRoute.existsSync. apply existsb_exists.
  apply list_elem_of_fmap in Hin as (f & -> & Hf).
  exists f. split; [by apply list_elem_of_In | apply String.eqb_refl].
Qed.

Lemma existsSync_unlink files name :
  DownloadRoute.existsSync (DownloadRoute.unlinkSync files name) name = false.
Proof.
  unfold DownloadRoute.existsSync, DownloadRoute.unlinkSync.
  induction files as [|f files IH]; simpl; [done|].
  destruct (String.eqb f.1 name) eqn:E; simpl; [done|]. by rewrite E.
Qed.

Lemma existsSync_unlink_other files name other :
  other <> name ->
  DownloadRoute.existsSync (DownloadRoute.unlinkSync files name) other
  = DownloadRoute.existsSync files other.
Proof.
  intros Hne. unfold DownloadRoute.existsSync, DownloadRoute.unlinkSync.
  induction files as [|f files IH]; simpl; [done|].
  destruct (String.eqb_spec f.1 name) as [Heq|Hn]; simpl.
  - rewrite IH. destruct (String.eqb_spec f.1 other); [congruence|done].
  - by rewrite IH.
Qed.

Lemma deliver_stream_size tempDir filename stderr server path ct cd len :
  (DownloadRoute.deliver tempDir filename stderr server).1
  = DownloadRoute.FileStream path ct cd len ->
  len <= DownloadRoute.maxFileSize.
Proof.
  unfold DownloadRoute.deliver.
  destruct (Js.nonempty stderr && Js.includes "ERROR" stderr); [done|].
  destruct (List.filter _ _) as [|name rest]; [done|].
  destruct (negb (DownloadRoute.existsSync _ _)); [done|].
  destruct (Z.ltb_spec DownloadRoute.maxFileSize
              (DownloadRoute.statSync_size (DownloadRoute.tempFiles server) name));
    [done|].
  intros [= _ _ _ <-]. done.
Qed.

(** C4. When the tool has exited without an error marker and the file
    the handler locates is larger than the cap of 2000 * 1024 * 1024
    bytes, the handler unlinks that file and answers 413, registering no
    stream; and no response of the handler ever streams a file above
    the cap. *)
Theorem file_size_guard (env : DownloadRoute.Env) (tool : DownloadRoute.Tool)
  (now : Z) (request : DownloadRoute.Request) (server : DownloadRoute.Server) :
  let r := DownloadRoute.POST env tool now request server in
  DownloadRoute.maxFileSize = 2097152000 /\
  (forall path ct cd len,
     r.1 = DownloadRoute.FileStream path ct cd len -> len <= DownloadRoute.maxFileSize) /\
  (forall url formatId title channel t c stdout stderr files name rest,
     (RateLimit.checkDownloadRateLimit now (DownloadRoute.clientIP request)
        (DownloadRoute.downloadRateLimitMap server)).1 = true ->
     DownloadRoute.body request
     = DownloadRoute.Fields (DownloadRoute.JString url)
                            (DownloadRoute.JString formatId) title channel ->
     Js.nonempty url = true ->
     DownloadRoute.validateFormatId formatId = true ->
     DownloadRoute.or_default title "video" = Some t ->
     DownloadRoute.or_default channel "unknown" = Some c ->
     let filename :=
       DownloadRoute.sanitizeFilename t +:+ " - " +:+ DownloadRoute.sanitizeFilename c in
     tool (DownloadRoute.command_line formatId
             (DownloadRoute.join (DownloadRoute.getTempDir env) (filename +:+ ".%(ext)s"))
             url)
          (if DownloadRoute.VERCEL env then 250000 else 300000)
          (DownloadRoute.tempFiles server)
     = (DownloadRoute.Exited stdout stderr, files) ->
     Js.includes "ERROR" stderr = false ->
     List.filter (fun f => Js.includes filename f) (map fst files) = name :: rest ->
     DownloadRoute.maxFileSize < DownloadRoute.statSync_size files name ->
     r.1 = DownloadRoute.Json 413 "File too large. Maximum size is 2GB." /\
     DownloadRoute.tempFiles r.2 = DownloadRoute.unlinkSync files name /\
     DownloadRoute.existsSync (DownloadRoute.tempFiles r.2) name = false /\
     (forall other, other <> name ->
        DownloadRoute.existsSync (DownloadRoute.tempFiles r.2) other
        = DownloadRoute.existsSync files other) /\
     DownloadRoute.cleanups r.2 = DownloadRoute.cleanups server).
Proof.
  intros r. split; [reflexivity|]. split.
  - intros path ct cd len. unfold r, DownloadRoute.POST.
    destruct (RateLimit.checkDownloadRateLimit _ _ _) as [ok limits].
    destruct ok; cbn [negb]; [|done].
    destruct (DownloadRoute.body request) as [| |url formatId title channel]; try done.
    destruct url as [|url|]; try done.
    destruct (Js.nonempty url); cbn [negb]; [|done].
    destruct formatId as [|formatId|]; try done.
    destruct (Js.nonempty formatId); cbn [negb]; [|done].
    destruct (DownloadRoute.validateFormatId formatId); cbn [negb]; [|done].
    destruct (DownloadRoute.or_default title "video") as [t|]; [|done].
    destruct (DownloadRoute.or_default channel "unknown") as [c|]; [|done].
    unfold DownloadRoute.download.
    destruct (tool _ _ _) as [result files].
    destruct result as [stdout stderr|[]]; try done.
    apply deliver_stream_size.
  - intros url formatId title channel t c stdout stderr files name rest
      Hok Hbody Hurl Hvalid Ht Hc filename Htool Hclean Hfound Hbig.
    unfold r, DownloadRoute.POST.
    destruct (RateLimit.checkDownloadRateLimit _ _ _) as [ok limits].
    cbn [fst] in Hok. subst ok. cbn [negb].
    rewrite Hbody, Hurl. cbn [negb].
    assert (Js.nonempty formatId = true) as ->.
    { destruct formatId; [discriminate Hvalid | done]. }
    rewrite Hvalid, Ht, Hc. cbn [negb].
    unfold DownloadRoute.download. cbn [DownloadRoute.tempFiles].
    fold filename. rewrite Htool.
    unfold DownloadRoute.deliver. cbn [DownloadRoute.tempFiles].
    rewrite Hclean, andb_false_r, Hfound.
    assert (Hin : name ∈ map fst files).
    { assert (Hn : name ∈ List.filter (fun f => Js.includes filename f) (map fst files))
        by (rewrite Hfound; left).
      apply list_elem_of_In, filter_In in Hn as [Hn _]. by apply list_elem_of_In. }
    rewrite (existsSync_elem _ _ Hin). cbn [negb].
    destruct (Z.ltb_spec DownloadRoute.maxFileSize (DownloadRoute.statSync_size files name));
      [|lia].
    cbn [fst snd DownloadRoute.tempFiles DownloadRoute.cleanups].
    split; [done|]. split; [done|]. split; [apply existsSync_unlink|].
    split; [|done]. intros other Hne. by apply existsSync_unlink_other.
Qed.

(** The tool leaves a file of 3 000 000 000 bytes: it is unlinked and
    the answer is 413. *)
Lemma file_size_guard_witness :
  let request :=
    DownloadRoute.MkRequest (Some "10.0.0.1")
      (DownloadRoute.Fields (DownloadRoute.JString "https://youtu.be/abc123")
                            (DownloadRoute.JString "137")
                            DownloadRoute.JUndefined DownloadRoute.JUndefined) in
  let server := DownloadRoute.MkServer ∅ [("other.txt", 5)] [] [] in
  let tool : DownloadRoute.Tool :=
    fun _ _ files =>
      (DownloadRoute.Exited "done" EmptyString,
       files ++ [("video - unknown.mp4", 3000000000)]) in
  let r := DownloadRoute.POST (DownloadRoute.MkEnv false "/tmp") tool 1000 request server in
  r.1 = DownloadRoute.Json 413 "File too large. Maximum size is 2GB." /\
  DownloadRoute.tempFiles r.2 = [("other.txt", 5)].
Proof.
  intros request server tool r.
  destruct (file_size_guard (DownloadRoute.MkEnv false "/tmp") tool 1000 request server)
    as (_ & _ & H).
  destruct (H "https://youtu.be/abc123" "137" DownloadRoute.JUndefined
              DownloadRoute.JUndefined "video" "unknown" "done" EmptyString
              [("other.txt", 5); ("video - unknown.mp4", 3000000000)]
              "video - unknown.mp4" [])
    as (Hr & Hfiles & _); try reflexivity.
  split; [exact Hr | exact Hfiles].
Defined.

(** ** The download client *)



(** The percentage is the one of the platform's arithmetic: 29 of 200
    bytes give 14.499999999999998, reported as 14. *)
Example progress_rounding :
  Client.on_progress_event (Client.MkProgress true 29%float 200%float) true = [14%float].
Proof. vm_compute. reflexivity. Qed.

Lemma octet_stream_neither :
  Js.includes "video" "application/octet-stream" = false /\
  Js.includes "audio" "application/octet-stream" = false.
Proof. split; reflexivity. Qed.



(** ** The two filename sanitizers *)

(** C10 does not hold of the code: the server collapses a run of white
    space to one space, the client keeps the run. *)
Theorem sanitizers_differ :
  DownloadRoute.sanitizeFilename "a  b" = "a b" /\
  Client.sanitizeFilename "a  b" = "a  b" /\
  DownloadRoute.sanitizeFilename "a  b" <> Client.sanitizeFilename "a  b".
Proof. repeat split. vm_compute. discriminate. Qed.

Lemma remove_printable s :
  Js.all_chars (fun c => negb (DownloadRoute.is_non_printable c))
               (Js.remove DownloadRoute.is_non_printable s) = true.
Proof.
  induction s as [|c s IH]; simpl; [done|].
  destruct (DownloadRoute.is_non_printable c) eqn:E; simpl; [done|]. by rewrite E.
Qed.

Lemma printable_space c :
  DownloadRoute.is_non_printable c = false -> Js.is_space c = true -> c = " "%char.
Proof.
  destruct c as [[] [] [] [] [] [] [] []]; vm_compute; intros; congruence.
Qed.

Lemma collapse_single_spaced s : forall in_run,
  Js.all_chars (fun c => negb (DownloadRoute.is_non_printable c)) s = true ->
  Js.single_spaced s = true ->
  (in_run = true -> match s with
                    | EmptyString => True
                    | String c _ => Js.is_space c = false
                    end) ->
  Js.collapse_from in_run s = s.
Proof.
  induction s as [|c s IH]; intros in_run Hp Hs Hrun; [done|].
  cbn [Js.all_chars] in Hp. apply andb_prop in Hp as [Hc Hp].
  apply negb_true_iff in Hc.
  cbn [Js.collapse_from]. destruct (Js.is_space c) eqn:Ec.
  - destruct in_run; [by specialize (Hrun eq_refl)|].
    rewrite (printable_space c Hc Ec). f_equal.
    apply IH; [done | by destruct s; [|cbn in Hs; apply andb_prop in Hs as [_ ?]] |].
    intros _. destruct s as [|c' s]; [done|].
    cbn in Hs. rewrite Ec in Hs. cbn in Hs.
    destruct (Js.is_space c'); [done | done].
  - f_equal.
    apply IH; [done | by destruct s; [|cbn in Hs; apply andb_prop in Hs as [_ ?]] | done].
Qed.

(** X8. Where the name, once the invalid and the non-printable
    characters are dropped, has no run of white space, the two
    sanitizers agree. *)
Lemma sanitizers_agree filename :
  Js.single_spaced (Client.cleaned filename) = true ->
  DownloadRoute.sanitizeFilename filename = Client.sanitizeFilename filename.
Proof.
  intros Hs. unfold DownloadRoute.sanitizeFilename, Client.sanitizeFilename.
  fold (Client.cleaned filename). unfold Js.collapse_spaces.
  rewrite collapse_single_spaced; [done | apply remove_printable | done | done].
Qed.

(** ** The client queue *)

Section QueueFacts.

Import Queue.

Implicit Types (ds : list DownloadItem) (d : DownloadItem) (x y : string)
  (st : Status) (s : State).

(** *** Items and their statuses *)

Lemma elem_of_update x f ds d' :
  d' ∈ update x f ds <->
  exists d, d ∈ ds /\ d' = if String.eqb (id d) x then f d else d.
Proof.
  unfold update. rewrite list_elem_of_fmap.
  split; intros (d & H1 & H2); exists d; done.
Qed.

Lemma ids_update x f ds :
  (forall d, id (f d) = id d) -> map id (update x f ds) = map id ds.
Proof.
  intros Hf. unfold update. rewrite map_map. apply map_ext.
  intros d. destruct (String.eqb (id d) x); [apply Hf | done].
Qed.

Lemma length_update x f ds : length (update x f ds) = length ds.
Proof. unfold update. apply length_map. Qed.

(** Updating [x] leaves the status of every other identifier alone. *)
Lemma has_status_update_ne x f ds y st :
  (forall d, id (f d) = id d) -> y <> x ->
  has_status (update x f ds) y st <-> has_status ds y st.
Proof.
  intros Hf Hne. unfold has_status. split.
  - intros (d' & Hd' & Hid & Hst). apply elem_of_update in Hd' as (d & Hd & ->).
    destruct (String.eqb_spec (id d) x) as [Heq|Hn].
    + rewrite Hf in Hid. congruence.
    + by exists d.
  - intros (d & Hd & Hid & Hst). exists d. split; [|done].
    apply elem_of_update. exists d. split; [done|].
    destruct (String.eqb_spec (id d) x); [congruence | done].
Qed.

(** Updating [x] gives it the status the update sets. *)
Lemma has_status_update_eq x f ds st0 st :
  (forall d, id (f d) = id d) -> (forall d, status (f d) = st0) ->
  has_status (update x f ds) x st <-> st = st0 /\ x ∈ map id ds.
Proof.
  intros Hf Hst0. unfold has_status. split.
  - intros (d' & Hd' & Hid & Hst). apply elem_of_update in Hd' as (d & Hd & ->).
    destruct (String.eqb_spec (id d) x) as [Heq|Hn].
    + rewrite Hst0 in Hst. split; [done|]. apply list_elem_of_fmap. by exists d.
    + done.
  - intros [-> Hx]. apply list_elem_of_fmap in Hx as (d & -> & Hd).
    exists (f d). split; [|by rewrite Hf, Hst0].
    apply elem_of_update. exists d. split; [done|]. by rewrite String.eqb_refl.
Qed.

(** An update that keeps the status keeps every status. *)
Lemma has_status_update_same x f ds y st :
  (forall d, id (f d) = id d) -> (forall d, status (f d) = status d) ->
  has_status (update x f ds) y st <-> has_status ds y st.
Proof.
  intros Hf Hs. unfold has_status. split.
  - intros (d' & Hd' & Hid & Hst). apply elem_of_update in Hd' as (d & Hd & ->).
    exists d. split; [done|].
    destruct (String.eqb (id d) x); [rewrite Hf in Hid; rewrite Hs in Hst|]; done.
  - intros (d & Hd & Hid & Hst).
    exists (if String.eqb (id d) x then f d else d). split.
    + apply elem_of_update. by exists d.
    + destruct (String.eqb (id d) x); rewrite ?Hf, ?Hs; done.
Qed.

Lemma has_status_id ds x st : has_status ds x st -> x ∈ map id ds.
Proof. intros (d & Hd & <- & _). apply list_elem_of_fmap. by exists d. Qed.

(** With distinct identifiers an item has one status. *)
Lemma has_status_fun ds x st st' :
  NoDup (map id ds) -> has_status ds x st -> has_status ds x st' -> st = st'.
Proof.
  intros Hnd (d & Hd & Hid & <-) (d' & Hd' & Hid' & <-).
  induction ds as [|d0 ds IH]; [by apply elem_of_nil in Hd|].
  simpl in Hnd. apply NoDup_cons in Hnd as [Hfresh Hnd].
  apply elem_of_cons in Hd as [->|Hd], Hd' as [->|Hd'].
  - done.
  - destruct Hfresh. rewrite Hid, <- Hid'. apply list_elem_of_fmap. by exists d'.
  - destruct Hfresh. rewrite Hid', <- Hid. apply list_elem_of_fmap. by exists d.
  - by apply IH.
Qed.

Lemma find_download_spec ds x d :
  find_download x ds = Some d -> d ∈ ds /\ id d = x.
Proof.
  unfold find_download. intros H. apply find_some in H as [Hin Heq].
  split; [by apply list_elem_of_In | by apply String.eqb_eq].
Qed.

Lemma find_download_None ds x :
  find_download x ds = None <-> x ∉ map id ds.
Proof.
  unfold find_download. induction ds as [|d ds IH]; simpl.
  - split; [intros _; apply not_elem_of_nil | done].
  - rewrite not_elem_of_cons. destruct (String.eqb_spec (id d) x) as [Heq|Hne].
    + split; [done | intros [Hn _]; congruence].
    + rewrite IH. split; [intros H; split; [congruence | done] | intros [_ H]; done].
Qed.

(** [status_of] reads the status that the item has. *)
Lemma status_of_spec s x st :
  NoDup (map id (downloads s)) ->
  status_of s x = Some st <-> has_status (downloads s) x st.
Proof.
  intros Hnd. unfold status_of. split.
  - destruct (find_download x (downloads s)) as [d|] eqn:Hf; [|done].
    intros [= <-]. apply find_download_spec in Hf as [Hd Hid]. by exists d.
  - intros Hs. destruct (find_download x (downloads s)) as [d|] eqn:Hf.
    + apply find_download_spec in Hf as [Hd Hid]. simpl. f_equal.
      eapply has_status_fun; [exact Hnd | by exists d | done].
    + apply find_download_None in Hf. by apply has_status_id in Hs.
Qed.


Lemma has_status_cons d ds x st :
  has_status (d :: ds) x st <-> (id d = x /\ status d = st) \/ has_status ds x st.
Proof.
  unfold has_status. split.
  - intros (d' & Hd' & Hid & Hst). apply elem_of_cons in Hd' as [->|Hd'].
    + by left.
    + right. by exists d'.
  - intros [[Hid Hst]|(d' & Hd' & Hid & Hst)].
    + exists d. split; [left|]; done.
    + exists d'. split; [by right | done].
Qed.

Lemma has_status_clear ds x st :
  has_status (List.filter (fun d => negb (bool_decide (status d = completed))) ds) x st
  <-> has_status ds x st /\ st <> completed.
Proof.
  unfold has_status. split.
  - intros (d & Hd & Hid & Hst).
    apply list_elem_of_In, filter_In in Hd as [Hd Hk].
    apply negb_true_iff, bool_decide_eq_false in Hk.
    split; [exists d; split; [by apply list_elem_of_In | done] | congruence].
  - intros [(d & Hd & Hid & Hst) Hne]. exists d. split; [|done].
    apply list_elem_of_In, filter_In. split; [by apply list_elem_of_In|].
    apply negb_true_iff, bool_decide_eq_false. congruence.
Qed.

Lemma well_formed_update x f ds :
  (forall d, well_formed d -> well_formed (f d)) ->
  Forall well_formed ds -> Forall well_formed (update x f ds).
Proof.
  intros Hf Hds. unfold update. rewrite Forall_forall in *.
  intros d' Hd'. apply list_elem_of_fmap in Hd' as (d & -> & Hd).
  destruct (String.eqb (id d) x); auto.
Qed.

Lemma well_formed_with_status st d : well_formed d -> well_formed (with_status st d).
Proof. done. Qed.

Lemma well_formed_with_error msg d : well_formed d -> well_formed (with_error msg d).
Proof. done. Qed.

Lemma well_formed_with_progress p d : well_formed d -> well_formed (with_progress p d).
Proof. done. Qed.

Lemma well_formed_requeued c d : well_formed d -> well_formed (requeued c d).
Proof. done. Qed.

(** *** Consequences of the invariant *)

Lemma transfers_cases s :
  Inv s -> transfers s = [] \/ exists t, transfers s = [t].
Proof.
  intros HI. pose proof (slot_single s HI) as H.
  destruct (transfers s) as [|t [|t' ts]]; simpl in H; [by left | right; by exists t | lia].
Qed.

Lemma idle_no_active s x st :
  Inv s -> transfers s = [] -> has_status (downloads s) x st -> is_active st = false.
Proof.
  intros HI Hnone Hst. destruct (is_active st) eqn:E; [|done].
  assert (Hx : x ∈ map fst (transfers s)) by (apply (transfer_iff s HI); by exists st).
  rewrite Hnone in Hx. by apply elem_of_nil in Hx.
Qed.

Lemma queue_head_item s h rest :
  Inv s -> downloadQueue s = h :: rest ->
  exists d, find_download h (downloads s) = Some d /\ status d = queued
            /\ well_formed d /\ id d = h.
Proof.
  intros HI Hq.
  assert (Hh : has_status (downloads s) h queued).
  { apply (queue_iff s HI). rewrite Hq. left. }
  destruct (find_download h (downloads s)) as [d|] eqn:Hf.
  - apply find_download_spec in Hf as [Hd Hid]. exists d. split; [done|].
    split; [|split; [|done]].
    + eapply has_status_fun; [apply (ids_nodup s HI) | by exists d | done].
    + pose proof (items_ok s HI) as Hok. rewrite Forall_forall in Hok. by apply Hok.
  - apply find_download_None in Hf. by apply has_status_id in Hh.
Qed.


(** *** Admission *)

Lemma processQueue_cases s :
  Inv s ->
  processQueue (activeDownloads s) s = s \/
  exists h rest signal,
    transfers s = [] /\ downloadQueue s = h :: rest /\
    processQueue (activeDownloads s) s = take_slot h signal rest s.
Proof.
  intros HI. unfold processQueue.
  rewrite (slot_count s HI).
  destruct (transfers_cases s HI) as [Hnone|[t Ht]].
  2: { rewrite Ht. simpl. by left. }
  rewrite Hnone. simpl.
  destruct (downloadQueue s) as [|h rest] eqn:Hq; [by left|].
  destruct (queue_head_item s h rest HI Hq) as (d & Hfind & Hst & (Hid & Hurl & Hfmt) & Hidh).
  right. exists h, rest, (abortController d). split; [done|]. split; [done|].
  cbn [downloads]. rewrite Hfind. rewrite <- Hidh, Hid. cbn [negb].
  rewrite Hst, Hurl, Hfmt. cbn [negb orb]. rewrite bool_decide_eq_true_2 by done.
  cbn [negb]. unfold take_slot, startDownload. cbn.
  rewrite Hnone, (slot_count s HI), Hnone. done.
Qed.

Lemma take_slot_inv s h rest signal :
  Inv s -> transfers s = [] -> downloadQueue s = h :: rest ->
  Inv (take_slot h signal rest s).
Proof.
  intros HI Hnone Hq.
  assert (Hpres : forall d, id (with_status preparing d) = id d) by done.
  assert (Hh : has_status (downloads s) h queued).
  { apply (queue_iff s HI). rewrite Hq. left. }
  pose proof (queue_nodup s HI) as Hnd. rewrite Hq in Hnd.
  apply NoDup_cons in Hnd as [Hfresh Hnd].
  constructor; cbn.
  - rewrite ids_update by done. apply (ids_nodup s HI).
  - done.
  - intros x. destruct (decide (x = h)) as [->|Hne].
    + rewrite (has_status_update_eq h _ _ preparing) by done.
      split; [done | intros [? _]; done].
    + rewrite has_status_update_ne by done.
      rewrite <- (queue_iff s HI), Hq. rewrite elem_of_cons.
      split; [by right | by intros [?|?]].
  - apply well_formed_update; [done | apply (items_ok s HI)].
  - rewrite Hnone, (slot_count s HI), Hnone. done.
  - rewrite Hnone. simpl. lia.
  - intros x. rewrite Hnone. simpl. rewrite list_elem_of_singleton.
    destruct (decide (x = h)) as [->|Hne].
    + split; [|done]. intros _. exists preparing. split; [|done].
      apply has_status_update_eq with (st0 := preparing); try done.
      split; [done|]. by eapply has_status_id.
    + split; [done|]. intros (st & Hst & Hact).
      rewrite has_status_update_ne in Hst by done.
      by rewrite (idle_no_active s x st HI Hnone Hst) in Hact.
  - apply (no_timers s HI).
Qed.

Lemma processQueue_inv s : Inv s -> Inv (processQueue (activeDownloads s) s).
Proof.
  intros HI. destruct (processQueue_cases s HI) as [->|(h & rest & c & Hn & Hq & ->)];
    [done | by apply take_slot_inv].
Qed.

Lemma effects_inv fuel : forall prev next, Inv next -> Inv (effects fuel prev next).
Proof.
  induction fuel as [|fuel IH]; intros prev next HI; simpl; [done|].
  destruct (deps_changed prev next); [|done].
  apply IH. by apply processQueue_inv.
Qed.

Lemma commit_inv prev next : Inv next -> Inv (commit prev next).
Proof. apply effects_inv. Qed.

(** *** The handlers keep the invariant *)

Lemma handleDownload_inv s x title channel format url formatId :
  Inv s -> offered s (Download x title channel format url formatId) ->
  Inv (handleDownload x title channel format url formatId s).
Proof.
  intros HI (Hfresh & Hx & Hurl & Hfmt).
  assert (Hnq : x ∉ downloadQueue s).
  { intros Hin. apply (queue_iff s HI) in Hin. by apply has_status_id in Hin. }
  constructor; cbn.
  - apply NoDup_cons. split; [done | apply (ids_nodup s HI)].
  - apply NoDup_app. split; [apply (queue_nodup s HI)|]. split.
    + intros y Hy Hy'. apply list_elem_of_singleton in Hy'. by subst.
    + apply NoDup_singleton.
  - intros y. rewrite elem_of_app, list_elem_of_singleton, has_status_cons.
    cbn. rewrite (queue_iff s HI). split.
    + intros [H| ->]; [by right | by left].
    + intros [[-> _]|H]; [by right | by left].
  - constructor; [|apply (items_ok s HI)].
    split; [by destruct x|]. split; [by destruct url | by destruct formatId].
  - apply (slot_count s HI).
  - apply (slot_single s HI).
  - intros y. rewrite (transfer_iff s HI). split.
    + intros (st & Hst & Hact). exists st. split; [|done].
      apply has_status_cons. by right.
    + intros (st & Hst & Hact). exists st. split; [|done].
      apply has_status_cons in Hst as [[_ <-]|Hst]; [done | done].
  - apply (no_timers s HI).
Qed.

Lemma settle_downloads t o s :
  exists f, (forall d, id (f d) = id d) /\ (forall d, status (f d) = settled_as o)
            /\ (forall d, well_formed d -> well_formed (f d))
            /\ downloads (settle t o s) = update t.1 f (downloads s).
Proof.
  exists (match o with
          | Succeeded => with_status completed
          | Aborted => with_status cancelled
          | _ => with_error (friendly_message o)
          end).
  unfold settle. destruct o; done.
Qed.

Lemma settled_as_finished o : is_finished (settled_as o) = true.
Proof. by destruct o. Qed.

Lemma finished_not_active st : is_finished st = true -> is_active st = false.
Proof. by destruct st. Qed.

Lemma finished_not_queued st : is_finished st = true -> st <> queued.
Proof. by destruct st. Qed.

Lemma active_not_queued st : is_active st = true -> st <> queued.
Proof. by destruct st. Qed.

Lemma settle_inv s t o :
  Inv s -> transfers s = [t] -> Inv (settle t o s).
Proof.
  intros HI Ht.
  destruct (settle_downloads t o s) as (f & Hid & Hst & Hwf & Hds).
  assert (Hact : exists st, has_status (downloads s) t.1 st /\ is_active st = true).
  { apply (transfer_iff s HI). rewrite Ht. simpl. left. }
  destruct Hact as (st0 & Hst0 & Hact0).
  constructor; rewrite ?Hds; cbn.
  - rewrite ids_update by done. apply (ids_nodup s HI).
  - apply (queue_nodup s HI).
  - intros x. rewrite (queue_iff s HI).
    destruct (decide (x = t.1)) as [->|Hne].
    + rewrite (has_status_update_eq _ _ _ (settled_as o)) by done. split.
      * intros Hq. pose proof (has_status_fun _ _ _ _ (ids_nodup s HI) Hq Hst0) as <-.
        done.
      * intros [Hq _]. pose proof (settled_as_finished o) as Hfin.
        rewrite <- Hq in Hfin. done.
    + by rewrite has_status_update_ne.
  - apply well_formed_update; [done | apply (items_ok s HI)].
  - rewrite (slot_count s HI), Ht. simpl. rewrite bool_decide_eq_true_2 by done.
    simpl. lia.
  - rewrite Ht. simpl. rewrite bool_decide_eq_true_2 by done. simpl. lia.
  - intros x. rewrite Ht. simpl. rewrite bool_decide_eq_true_2 by done. simpl.
    split; [intros H; by apply elem_of_nil in H|].
    intros (st & Hx & Hact).
    destruct (decide (x = t.1)) as [->|Hne].
    + apply (has_status_update_eq _ _ _ (settled_as o)) in Hx as [-> _]; [|done|done].
      by rewrite (finished_not_active _ (settled_as_finished o)) in Hact.
    + rewrite has_status_update_ne in Hx by done.
      assert (Hin : x ∈ map fst (transfers s)) by (apply (transfer_iff s HI); by exists st).
      rewrite Ht in Hin. simpl in Hin. apply list_elem_of_singleton in Hin. done.
  - apply (no_timers s HI).
Qed.

Lemma abort_cases s controller :
  Inv s ->
  abort controller s = s \/
  exists t, transfers s = [t] /\ abort controller s = settle t Aborted s.
Proof.
  intros HI. unfold abort.
  destruct (transfers_cases s HI) as [->|[t Ht]]; [by left|].
  rewrite Ht. simpl. destruct (bool_decide (t.2 = Some controller)); [|by left].
  right. by exists t.
Qed.

Lemma abort_inv s controller : Inv s -> Inv (abort controller s).
Proof.
  intros HI. destruct (abort_cases s controller HI) as [->|(t & Ht & ->)];
    [done | by apply settle_inv].
Qed.

Lemma elem_of_filter_ne (q : list string) x y :
  y ∈ List.filter (fun i => negb (String.eqb i x)) q <-> y ∈ q /\ y <> x.
Proof.
  rewrite !list_elem_of_In, filter_In, negb_true_iff.
  destruct (String.eqb_spec y x); simpl; intuition congruence.
Qed.

Lemma NoDup_list_filter {A} (P : A -> bool) (l : list A) :
  NoDup l -> NoDup (List.filter P l).
Proof.
  induction 1 as [|a l Hin Hnd IH]; simpl; [constructor|].
  destruct (P a); [|done]. constructor; [|done].
  rewrite list_elem_of_In, filter_In, <- list_elem_of_In. tauto.
Qed.

(** Cancelling an item that waits. *)
Lemma cancel_queued_inv s x :
  Inv s -> has_status (downloads s) x queued ->
  Inv (MkState (update x (with_status cancelled) (downloads s)) (activeDownloads s)
               (List.filter (fun i => negb (String.eqb i x)) (downloadQueue s))
               (transfers s) (timers s) (requests s) (controllers s)).
Proof.
  intros HI Hx.
  assert (Hid : forall d, id (with_status cancelled d) = id d) by done.
  constructor; cbn.
  - rewrite ids_update by done. apply (ids_nodup s HI).
  - apply NoDup_list_filter, (queue_nodup s HI).
  - intros y. rewrite elem_of_filter_ne, (queue_iff s HI).
    destruct (decide (y = x)) as [->|Hne].
    + rewrite (has_status_update_eq _ _ _ cancelled) by done. intuition congruence.
    + rewrite has_status_update_ne by done. intuition congruence.
  - apply well_formed_update; [done | apply (items_ok s HI)].
  - apply (slot_count s HI).
  - apply (slot_single s HI).
  - intros y. rewrite (transfer_iff s HI). split; intros (st & Hst & Hact); exists st.
    + split; [|done]. destruct (decide (y = x)) as [->|Hne].
      * pose proof (has_status_fun _ _ _ _ (ids_nodup s HI) Hst Hx) as ->. done.
      * by rewrite has_status_update_ne.
    + split; [|done]. destruct (decide (y = x)) as [->|Hne].
      * apply (has_status_update_eq _ _ _ cancelled) in Hst as [-> _]; done.
      * by rewrite has_status_update_ne in Hst.
  - apply (no_timers s HI).
Qed.

Lemma handleCancelDownload_inv s x : Inv s -> Inv (handleCancelDownload x s).
Proof.
  intros HI. unfold handleCancelDownload.
  destruct (find_download x (downloads s)) as [d|] eqn:Hf; [|done].
  apply find_download_spec in Hf as [Hd Hid].
  destruct (bool_decide (status d = queued)) eqn:Hq.
  - apply bool_decide_eq_true in Hq. apply cancel_queued_inv; [done|]. by exists d.
  - destruct (abortController d); [by apply abort_inv | done].
Qed.

Lemma handleRetryDownload_inv s x :
  Inv s -> offered s (Retry x) -> Inv (handleRetryDownload x s).
Proof.
  intros HI (st & Hst & Hoff). apply (status_of_spec _ _ _ (ids_nodup s HI)) in Hst.
  assert (Hnq : st <> queued) by (by destruct st).
  assert (Hna : is_active st = false) by (by destruct st).
  unfold handleRetryDownload.
  destruct (find_download x (downloads s)) as [d|] eqn:Hf; [|done].
  assert (Hid : forall d, id (requeued (controllers s) d) = id d) by done.
  assert (Hxq : x ∉ downloadQueue s).
  { intros Hin. apply (queue_iff s HI) in Hin.
    by pose proof (has_status_fun _ _ _ _ (ids_nodup s HI) Hst Hin). }
  constructor; cbn.
  - rewrite ids_update by done. apply (ids_nodup s HI).
  - apply NoDup_app. split; [apply (queue_nodup s HI)|]. split.
    + intros y Hy Hy'. apply list_elem_of_singleton in Hy'. by subst.
    + apply NoDup_singleton.
  - intros y. rewrite elem_of_app, list_elem_of_singleton, (queue_iff s HI).
    destruct (decide (y = x)) as [->|Hne].
    + rewrite (has_status_update_eq _ _ _ queued) by done. split.
      * intros _. split; [done|]. by eapply has_status_id.
      * intros _. by right.
    + rewrite has_status_update_ne by done. split; [by intros [?|?] | by left].
  - apply well_formed_update; [done | apply (items_ok s HI)].
  - apply (slot_count s HI).
  - apply (slot_single s HI).
  - intros y. rewrite (transfer_iff s HI). split; intros (st' & Hst' & Hact); exists st'.
    + split; [|done]. destruct (decide (y = x)) as [->|Hne].
      * pose proof (has_status_fun _ _ _ _ (ids_nodup s HI) Hst Hst') as ->. congruence.
      * by rewrite has_status_update_ne.
    + split; [|done]. destruct (decide (y = x)) as [->|Hne].
      * apply (has_status_update_eq _ _ _ queued) in Hst' as [-> _]; done.
      * by rewrite has_status_update_ne in Hst'.
  - apply (no_timers s HI).
Qed.

Lemma NoDup_map_filter {A B} (f : A -> B) (P : A -> bool) (l : list A) :
  NoDup (map f l) -> NoDup (map f (List.filter P l)).
Proof.
  induction l as [|a l IH]; simpl; [done|].
  intros Hnd. apply NoDup_cons in Hnd as [Hfresh Hnd].
  destruct (P a); simpl; [|by apply IH].
  apply NoDup_cons. split; [|by apply IH].
  intros Hin. apply Hfresh.
  apply list_elem_of_fmap in Hin as (a' & -> & Ha').
  apply list_elem_of_fmap. exists a'. split; [done|].
  apply list_elem_of_In, filter_In in Ha' as [Ha' _]. by apply list_elem_of_In.
Qed.

Lemma handleClearCompleted_inv s : Inv s -> Inv (handleClearCompleted s).
Proof.
  intros HI. constructor; cbn.
  - apply NoDup_map_filter, (ids_nodup s HI).
  - apply (queue_nodup s HI).
  - intros x. rewrite has_status_clear, (queue_iff s HI). split; [done | by intros [? _]].
  - pose proof (items_ok s HI) as Hok. rewrite Forall_forall in *.
    intros d Hd. apply Hok.
    apply list_elem_of_In, filter_In in Hd as [Hd _]. by apply list_elem_of_In.
  - apply (slot_count s HI).
  - apply (slot_single s HI).
  - intros x. rewrite (transfer_iff s HI). split; intros (st & Hst & Hact); exists st.
    + split; [|done]. apply has_status_clear. split; [done|]. by destruct st.
    + split; [|done]. by apply has_status_clear in Hst as [Hst _].
  - apply (no_timers s HI).
Qed.

Lemma started_inv s x :
  Inv s -> offered s (Started x) -> Inv (react s (Started x)).
Proof.
  intros HI Hoff. simpl in Hoff.
  apply (transfer_iff s HI) in Hoff as (st & Hst & Hact).
  assert (Hid : forall d, id (with_status downloading d) = id d) by done.
  constructor; cbn.
  - rewrite ids_update by done. apply (ids_nodup s HI).
  - apply (queue_nodup s HI).
  - intros y. rewrite (queue_iff s HI). destruct (decide (y = x)) as [->|Hne].
    + rewrite (has_status_update_eq _ _ _ downloading) by done. split.
      * intros Hq. pose proof (has_status_fun _ _ _ _ (ids_nodup s HI) Hst Hq) as ->.
        done.
      * by intros [? _].
    + by rewrite has_status_update_ne.
  - apply well_formed_update; [done | apply (items_ok s HI)].
  - apply (slot_count s HI).
  - apply (slot_single s HI).
  - intros y. rewrite (transfer_iff s HI). destruct (decide (y = x)) as [->|Hne].
    + split; intros _; [|by exists st].
      exists downloading. split; [|done].
      apply (has_status_update_eq _ _ _ downloading); try done.
      split; [done|]. by eapply has_status_id.
    + split; intros (st' & Hst' & Hact'); exists st'; split; try done.
      * by rewrite has_status_update_ne.
      * by rewrite has_status_update_ne in Hst'.
  - apply (no_timers s HI).
Qed.

Lemma progress_inv s x p : Inv s -> Inv (react s (Progress x p)).
Proof.
  intros HI.
  assert (Hid : forall d, id (with_progress p d) = id d) by done.
  assert (Hst : forall d, status (with_progress p d) = status d) by done.
  constructor; cbn.
  - rewrite ids_update by done. apply (ids_nodup s HI).
  - apply (queue_nodup s HI).
  - intros y. rewrite has_status_update_same by done. apply (queue_iff s HI).
  - apply well_formed_update; [done | apply (items_ok s HI)].
  - apply (slot_count s HI).
  - apply (slot_single s HI).
  - intros y. rewrite (transfer_iff s HI).
    split; intros (st & H & Hact); exists st; split; try done.
    + by rewrite has_status_update_same.
    + by rewrite has_status_update_same in H.
  - apply (no_timers s HI).
Qed.

Lemma transfer_of_spec s x t :
  Inv s -> transfer_of x s = Some t -> transfers s = [t] /\ t.1 = x.
Proof.
  intros HI Ht. unfold transfer_of in Ht.
  apply find_some in Ht as [Hin Heq]. apply String.eqb_eq in Heq.
  destruct (transfers_cases s HI) as [Hn|[t' Ht']].
  - rewrite Hn in Hin. done.
  - rewrite Ht' in Hin. destruct Hin as [->|[]]. done.
Qed.

(** Every event that is offered keeps the invariant. *)
Lemma react_inv s e : Inv s -> offered s e -> Inv (react s e).
Proof.
  intros HI Hoff. destruct e as [x ti ch fo u f|x|x| |x|x p|x o|k].
  - apply commit_inv. by apply handleDownload_inv.
  - apply commit_inv. by apply handleCancelDownload_inv.
  - apply commit_inv. by apply handleRetryDownload_inv.
  - apply commit_inv. by apply handleClearCompleted_inv.
  - by apply started_inv.
  - by apply progress_inv.
  - simpl. destruct (transfer_of x s) as [t|] eqn:Ht; [|done].
    apply transfer_of_spec in Ht as [Ht _]; [|done].
    apply commit_inv. by apply settle_inv.
  - simpl in Hoff. rewrite (no_timers s HI) in Hoff. simpl in Hoff. lia.
Qed.

Lemma initial_inv : Inv initial.
Proof.
  constructor; cbn.
  - constructor.
  - constructor.
  - intros x. split; [intros H; by apply elem_of_nil in H|].
    intros (d & Hd & _). by apply elem_of_nil in Hd.
  - constructor.
  - done.
  - lia.
  - intros x. split; [intros H; by apply elem_of_nil in H|].
    intros (st & (d & Hd & _) & _). by apply elem_of_nil in Hd.
  - done.
Qed.

Lemma reachable_inv s : reachable s -> Inv s.
Proof.
  induction 1 as [|s e _ IH Hoff]; [apply initial_inv | by apply react_inv].
Qed.

Lemma run_inv s evs s' : run s evs s' -> Inv s -> Inv s'.
Proof.
  induction 1 as [|s evs s' e _ IH Hoff]; [done|].
  intros HI. apply react_inv; auto.
Qed.

(** *** One active item *)

Lemma single_active s : Inv s -> (length (active_items s) <= 1)%nat.
Proof.
  intros HI.
  assert (Hnd : NoDup (map id (active_items s))).
  { apply NoDup_map_filter, (ids_nodup s HI). }
  assert (Hsub : map id (active_items s) ⊆+ map fst (transfers s)).
  { apply NoDup_submseteq; [done|]. intros x Hx.
    apply list_elem_of_fmap in Hx as (d & -> & Hd).
    apply list_elem_of_In, filter_In in Hd as [Hd Hact].
    apply (transfer_iff s HI). exists (status d). split; [|done].
    exists d. split; [by apply list_elem_of_In | done]. }
  apply submseteq_length in Hsub. rewrite !length_map in Hsub.
  pose proof (slot_single s HI). lia.
Qed.

(** *** Order of admission *)

Lemma before_app_r a b q x : before a b q -> before a b (q ++ [x]).
Proof.
  intros (q1 & q2 & -> & Hb). exists q1, (q2 ++ [x]).
  split; [by rewrite <- app_assoc | apply elem_of_app; by left].
Qed.

Lemma before_last a b q : a ∈ q -> before a b (q ++ [b]).
Proof.
  intros Ha. apply list_elem_of_split in Ha as (q1 & q2 & ->).
  exists q1, (q2 ++ [b]). split; [by rewrite <- app_assoc|].
  apply elem_of_app. right. left.
Qed.

Lemma before_tail a b h rest : h <> a -> before a b (h :: rest) -> before a b rest.
Proof.
  intros Hne (q1 & q2 & Hq & Hb). destruct q1 as [|h' q1]; simpl in Hq.
  - congruence.
  - injection Hq as -> ->. by exists q1, q2.
Qed.

Lemma before_head_absurd a b rest : a <> b -> NoDup (b :: rest) -> ~ before a b (b :: rest).
Proof.
  intros Hne Hnd (q1 & q2 & Hq & Hb). destruct q1 as [|h' q1]; simpl in Hq.
  - congruence.
  - injection Hq as <- ->. apply NoDup_cons in Hnd as [Hfresh _]. apply Hfresh.
    apply elem_of_app. right. by right.
Qed.

Lemma list_filter_app {A} (P : A -> bool) (l1 l2 : list A) :
  List.filter P (l1 ++ l2) = List.filter P l1 ++ List.filter P l2.
Proof. induction l1 as [|a l1 IH]; simpl; [done|]. destruct (P a); simpl; by rewrite IH. Qed.

Lemma before_filter a b x q :
  x <> a -> x <> b -> before a b q ->
  before a b (List.filter (fun i => negb (String.eqb i x)) q).
Proof.
  intros Ha Hb (q1 & q2 & -> & Hin).
  exists (List.filter (fun i => negb (String.eqb i x)) q1),
         (List.filter (fun i => negb (String.eqb i x)) q2).
  split.
  - rewrite list_filter_app. simpl.
    destruct (String.eqb_spec a x); [congruence | done].
  - apply elem_of_filter_ne. done.
Qed.

Lemma unfinished_status a s st :
  Inv s -> unfinished a s -> has_status (downloads s) a st -> is_finished st = false.
Proof.
  intros HI (st' & Hst' & Hfin) Hst.
  by rewrite (has_status_fun _ _ _ _ (ids_nodup s HI) Hst Hst').
Qed.

Lemma unfinished_cases st : is_finished st = false -> st = queued \/ is_active st = true.
Proof. destruct st; auto; done. Qed.

(** Starting the download at the head of the queue. *)
Lemma take_slot_unfinished a s h rest signal :
  Inv s -> downloadQueue s = h :: rest -> unfinished a s ->
  unfinished a (take_slot h signal rest s).
Proof.
  intros HI Hq (sta & Hsta & Hfa).
  assert (Hid : forall d, id (with_status preparing d) = id d) by done.
  destruct (decide (a = h)) as [->|Hne].
  - exists preparing. split; [|done]. cbn.
    apply (has_status_update_eq _ _ _ preparing); try done.
    split; [done | by eapply has_status_id].
  - exists sta. split; [|done]. cbn. by rewrite has_status_update_ne.
Qed.

Lemma unfinished_not_finished a s :
  Inv s -> unfinished a s -> settled a s -> False.
Proof.
  intros HI (st & Hst & Hf) (st' & Hst' & Hf').
  rewrite (has_status_fun _ _ _ _ (ids_nodup s HI) Hst Hst') in Hf. congruence.
Qed.

Lemma waits_distinct a b s :
  Inv s -> unfinished a s -> waits_behind a b s -> a <> b.
Proof.
  intros HI Hu [Hb Hord] <-.
  destruct Hb as [Hb|Hb].
  - destruct (Hord Hb) as [(st & Hst & Hact)|(q1 & q2 & Hq & Hin)].
    + by pose proof (has_status_fun _ _ _ _ (ids_nodup s HI) Hb Hst) as <-.
    + pose proof (queue_nodup s HI) as Hnd. rewrite Hq in Hnd.
      apply NoDup_app in Hnd as (_ & _ & Hnd). by apply NoDup_cons in Hnd as [? _].
  - apply (unfinished_not_finished a s HI Hu). by exists cancelled.
Qed.

Lemma take_slot_waits a b s h rest signal :
  Inv s -> transfers s = [] -> downloadQueue s = h :: rest -> unfinished a s ->
  waits_behind a b s -> waits_behind a b (take_slot h signal rest s).
Proof.
  intros HI Hidle Hq Hu Hw.
  pose proof (waits_distinct a b s HI Hu Hw) as Hab.
  destruct Hw as [Hb Hord].
  assert (Hid : forall d, id (with_status preparing d) = id d) by done.
  assert (Hhq : has_status (downloads s) h queued).
  { apply (queue_iff s HI). rewrite Hq. left. }
  assert (Hbh : b <> h).
  { intros ->. destruct (Hord Hhq) as [(st & Hst & Hact)|Hbef].
    - by rewrite (idle_no_active s a st HI Hidle Hst) in Hact.
    - pose proof (queue_nodup s HI) as Hnd. rewrite Hq in *.
      by apply (before_head_absurd a h rest). }
  split.
  - cbn. rewrite !has_status_update_ne by done. done.
  - cbn. rewrite has_status_update_ne by done. intros Hbq.
    destruct (decide (a = h)) as [->|Hne].
    + left. exists preparing. split; [|done].
      apply (has_status_update_eq _ _ _ preparing); try done.
      split; [done | by eapply has_status_id].
    + destruct (Hord Hbq) as [(st & Hst & Hact)|Hbef].
      * left. exists st. split; [|done]. by rewrite has_status_update_ne.
      * right. rewrite Hq in Hbef. apply (before_tail a b h); done.
Qed.

Lemma take_slot_settled a s h rest signal :
  Inv s -> downloadQueue s = h :: rest -> settled a s ->
  settled a (take_slot h signal rest s).
Proof.
  intros HI Hq (st & Hst & Hfin).
  assert (Hhq : has_status (downloads s) h queued).
  { apply (queue_iff s HI). rewrite Hq. left. }
  assert (a <> h).
  { intros ->. pose proof (has_status_fun _ _ _ _ (ids_nodup s HI) Hst Hhq) as ->. done. }
  exists st. split; [|done]. cbn. by rewrite has_status_update_ne.
Qed.

(** What the effect keeps, it keeps through the renders of a turn. *)
Lemma effects_keep (P : State -> Prop) :
  (forall s, Inv s -> P s -> P (processQueue (activeDownloads s) s)) ->
  forall fuel prev next, Inv next -> P next -> P (effects fuel prev next).
Proof.
  intros Hstep. induction fuel as [|fuel IH]; intros prev next HI HP; simpl; [done|].
  destruct (deps_changed prev next); [|done].
  apply IH; [by apply processQueue_inv | by apply Hstep].
Qed.

Lemma commit_keeps_order a b s prev next :
  Inv next -> keeps_order a b s next -> keeps_order a b s (commit prev next).
Proof.
  apply effects_keep. intros s' HI HP.
  destruct (processQueue_cases s' HI) as [->|(h & rest & c & Hn & Hq & ->)]; [done|].
  destruct HP as [Hs|[Hu Hw]].
  - left. by apply take_slot_settled.
  - right. split; [by apply take_slot_unfinished|].
    intros W. apply take_slot_waits; auto.
Qed.

(** *** The handlers keep the order *)

Lemma unfinished_in_queue_or_active a s :
  Inv s -> unfinished a s ->
  a ∈ downloadQueue s \/ exists st, has_status (downloads s) a st /\ is_active st = true.
Proof.
  intros HI (st & Hst & Hf). destruct (unfinished_cases st Hf) as [->|Hact].
  - left. by apply (queue_iff s HI).
  - right. by exists st.
Qed.

Lemma handleDownload_order a b s x title channel format url formatId :
  Inv s -> offered s (Download x title channel format url formatId) ->
  unfinished a s ->
  keeps_order a b s (handleDownload x title channel format url formatId s).
Proof.
  intros HI (Hfresh & _) (st & Hst & Hf). right. split.
  - exists st. split; [|done]. cbn. apply has_status_cons. by right.
  - intros [Hb Hord].
    assert (Hbx : b <> x).
    { intros ->. destruct Hb as [Hb|Hb]; by apply has_status_id in Hb. }
    assert (Hax : a <> x) by (intros ->; by apply has_status_id in Hst).
    assert (Hsame : forall y st', y <> x ->
              has_status (downloads (handleDownload x title channel format url formatId s)) y st'
              <-> has_status (downloads s) y st').
    { intros y st' Hy. cbn. rewrite has_status_cons. cbn. intuition congruence. }
    split.
    + rewrite !Hsame by done. done.
    + rewrite Hsame by done. intros Hbq. destruct (Hord Hbq) as [(st' & Hst' & Hact)|Hbef].
      * left. exists st'. by rewrite Hsame.
      * right. cbn. by apply before_app_r.
Qed.

(** A later item joins the queue behind an unfinished earlier one. *)
Lemma handleDownload_behind a s b title channel format url formatId :
  Inv s -> offered s (Download b title channel format url formatId) ->
  unfinished a s ->
  waits_behind a b (handleDownload b title channel format url formatId s).
Proof.
  intros HI (Hfresh & _) Hu.
  assert (Hab : a <> b).
  { intros ->. destruct Hu as (st & Hst & _). by apply has_status_id in Hst. }
  split.
  - left. cbn. apply has_status_cons. by left.
  - intros _. destruct (unfinished_in_queue_or_active a s HI Hu) as [Hq|(st & Hst & Hact)].
    + right. cbn. by apply before_last.
    + left. exists st. split; [|done]. cbn. apply has_status_cons. by right.
Qed.

Lemma settle_order a b s t o :
  Inv s -> transfers s = [t] -> unfinished a s ->
  keeps_order a b s (settle t o s).
Proof.
  intros HI Ht (st & Hst & Hf).
  destruct (settle_downloads t o s) as (f & Hid & Hsto & Hwf & Hds).
  assert (Hact : exists st, has_status (downloads s) t.1 st /\ is_active st = true).
  { apply (transfer_iff s HI). rewrite Ht. simpl. left. }
  destruct Hact as (stt & Hstt & Hactt).
  destruct (decide (a = t.1)) as [->|Hne].
  - left. exists (settled_as o). split; [|apply settled_as_finished].
    rewrite Hds. apply (has_status_update_eq _ _ _ (settled_as o)); try done.
    split; [done | by eapply has_status_id].
  - right. split.
    + exists st. split; [|done]. rewrite Hds. by rewrite has_status_update_ne.
    + intros [Hb Hord].
      assert (Hbt : b <> t.1).
      { intros ->. destruct Hb as [Hb|Hb];
          pose proof (has_status_fun _ _ _ _ (ids_nodup s HI) Hb Hstt) as <-; done. }
      split.
      * rewrite Hds, !has_status_update_ne by done. done.
      * rewrite Hds, has_status_update_ne by done. intros Hbq.
        destruct (Hord Hbq) as [(st' & Hst' & Hact')|Hbef].
        -- left. exists st'. split; [|done]. by rewrite has_status_update_ne.
        -- right. done.
Qed.

Lemma keeps_order_refl a b s : unfinished a s -> keeps_order a b s s.
Proof. intros Hu. right. done. Qed.

Lemma handleCancelDownload_order a b s x :
  Inv s -> unfinished a s ->
  keeps_order a b s (handleCancelDownload x s).
Proof.
  intros HI Hu. unfold handleCancelDownload.
  destruct (find_download x (downloads s)) as [d|] eqn:Hfd; [|by apply keeps_order_refl].
  apply find_download_spec in Hfd as [Hd Hidx].
  destruct (bool_decide (status d = queued)) eqn:Hq.
  2: { destruct (abortController d) as [c|]; [|by apply keeps_order_refl].
       destruct (abort_cases s c HI) as [->|(t & Ht & ->)];
         [by apply keeps_order_refl | by apply settle_order]. }
  apply bool_decide_eq_true in Hq.
  assert (Hxq : has_status (downloads s) x queued) by (by exists d).
  assert (Hid : forall d, id (with_status cancelled d) = id d) by done.
  destruct (decide (a = x)) as [->|Hne].
  - left. exists cancelled. split; [|done]. cbn.
    apply (has_status_update_eq _ _ _ cancelled); try done.
    split; [done | by eapply has_status_id].
  - right. destruct Hu as (st & Hst & Hf). split.
    + exists st. split; [|done]. cbn. by rewrite has_status_update_ne.
    + intros [Hb Hord]. destruct (decide (b = x)) as [->|Hbx].
      * split.
        -- right. cbn. apply (has_status_update_eq _ _ _ cancelled); try done.
           split; [done | by eapply has_status_id].
        -- cbn. intros Hbq.
           apply (has_status_update_eq _ _ _ cancelled) in Hbq as [? _]; done.
      * split.
        -- cbn. rewrite !has_status_update_ne by done. done.
        -- cbn. rewrite has_status_update_ne by done. intros Hbq.
           destruct (Hord Hbq) as [(st' & Hst' & Hact')|Hbef].
           ++ left. exists st'. split; [|done]. by rewrite has_status_update_ne.
           ++ right. by apply before_filter.
Qed.

Lemma handleRetryDownload_order a b s x :
  Inv s -> offered s (Retry x) -> unfinished a s ->
  keeps_order a b s (handleRetryDownload x s).
Proof.
  intros HI (stx & Hstx & Hoff) Hu.
  apply (status_of_spec _ _ _ (ids_nodup s HI)) in Hstx.
  assert (Hfx : is_finished stx = true) by (by destruct stx).
  assert (Hax : a <> x).
  { intros ->. apply (unfinished_not_finished x s HI Hu). by exists stx. }
  unfold handleRetryDownload.
  destruct (find_download x (downloads s)) as [d|] eqn:Hfd; [|by apply keeps_order_refl].
  assert (Hid : forall d, id (requeued (controllers s) d) = id d) by done.
  right. split.
  - destruct Hu as (st & Hst & Hf). exists st. split; [|done]. cbn.
    by rewrite has_status_update_ne.
  - intros [Hb Hord]. destruct (decide (b = x)) as [->|Hbx].
    + split.
      * left. cbn. apply (has_status_update_eq _ _ _ queued); try done.
        split; [done | by eapply has_status_id].
      * intros _. cbn.
        destruct (unfinished_in_queue_or_active a s HI Hu) as [Hq|(st & Hst & Hact)].
        -- right. by apply before_last.
        -- left. exists st. split; [|done]. by rewrite has_status_update_ne.
    + split.
      * cbn. rewrite !has_status_update_ne by done. done.
      * cbn. rewrite has_status_update_ne by done. intros Hbq.
        destruct (Hord Hbq) as [(st' & Hst' & Hact')|Hbef].
        -- left. exists st'. split; [|done]. by rewrite has_status_update_ne.
        -- right. by apply before_app_r.
Qed.

Lemma handleClearCompleted_order a b s :
  Inv s -> unfinished a s -> keeps_order a b s (handleClearCompleted s).
Proof.
  intros HI (st & Hst & Hf). right. split.
  - exists st. split; [|done]. cbn. apply has_status_clear. split; [done|].
    by destruct st.
  - intros [Hb Hord]. split.
    + cbn. rewrite !has_status_clear. destruct Hb as [Hb|Hb]; [left | right]; done.
    + cbn. rewrite has_status_clear. intros [Hbq _].
      destruct (Hord Hbq) as [(st' & Hst' & Hact')|Hbef].
      * left. exists st'. split; [|done]. apply has_status_clear.
        split; [done | by destruct st'].
      * by right.
Qed.

Lemma started_order a b s x :
  Inv s -> offered s (Started x) -> unfinished a s ->
  keeps_order a b s (react s (Started x)).
Proof.
  intros HI Hoff Hu. simpl in Hoff.
  apply (transfer_iff s HI) in Hoff as (stx & Hstx & Hactx).
  assert (Hid : forall d, id (with_status downloading d) = id d) by done.
  assert (Hx : has_status (downloads (react s (Started x))) x downloading).
  { cbn. apply (has_status_update_eq _ _ _ downloading); try done.
    split; [done | by eapply has_status_id]. }
  right. split.
  - destruct (decide (a = x)) as [->|Hne]; [by exists downloading|].
    destruct Hu as (st & Hst & Hf). exists st. split; [|done]. cbn.
    by rewrite has_status_update_ne.
  - intros [Hb Hord].
    assert (Hbx : b <> x).
    { intros ->. destruct Hb as [Hb|Hb];
        pose proof (has_status_fun _ _ _ _ (ids_nodup s HI) Hb Hstx) as <-; done. }
    split.
    + cbn. rewrite !has_status_update_ne by done. done.
    + cbn. rewrite has_status_update_ne by done. intros Hbq.
      destruct (decide (a = x)) as [->|Hne]; [left; by exists downloading|].
      destruct (Hord Hbq) as [(st' & Hst' & Hact')|Hbef].
      * left. exists st'. split; [|done]. by rewrite has_status_update_ne.
      * by right.
Qed.

Lemma progress_order a b s x p :
  unfinished a s -> keeps_order a b s (react s (Progress x p)).
Proof.
  intros (st & Hst & Hf).
  assert (Hid : forall d, id (with_progress p d) = id d) by done.
  assert (Hsame : forall d, status (with_progress p d) = status d) by done.
  right. split.
  - exists st. split; [|done]. cbn. by rewrite has_status_update_same.
  - intros [Hb Hord]. split.
    + cbn. rewrite !has_status_update_same by done. done.
    + cbn. rewrite has_status_update_same by done. intros Hbq.
      destruct (Hord Hbq) as [(st' & Hst' & Hact')|Hbef].
      * left. exists st'. split; [|done]. by rewrite has_status_update_same.
      * by right.
Qed.

(** Every offered event keeps the order between [a] and [b]. *)
Lemma react_order a b s e :
  Inv s -> offered s e -> unfinished a s -> keeps_order a b s (react s e).
Proof.
  intros HI Hoff Hu. destruct e as [x ti ch fo u f|x|x| |x|x p|x o|k].
  - apply commit_keeps_order; [by apply handleDownload_inv
                               | by apply handleDownload_order].
  - apply commit_keeps_order; [by apply handleCancelDownload_inv
                               | by apply handleCancelDownload_order].
  - apply commit_keeps_order; [by apply handleRetryDownload_inv
                               | by apply handleRetryDownload_order].
  - apply commit_keeps_order; [by apply handleClearCompleted_inv
                               | by apply handleClearCompleted_order].
  - by apply started_order.
  - by apply progress_order.
  - simpl. destruct (transfer_of x s) as [t|] eqn:Ht; [|by apply keeps_order_refl].
    apply transfer_of_spec in Ht as [Ht _]; [|done].
    apply commit_keeps_order; [by apply settle_inv | by apply settle_order].
  - simpl in Hoff. rewrite (no_timers s HI) in Hoff. simpl in Hoff. lia.
Qed.

(** *** Runs *)

Lemma run_app s l1 s' l2 s'' : run s l1 s' -> run s' l2 s'' -> run s (l1 ++ l2) s''.
Proof.
  intros H1 H2. induction H2 as [|s' evs s'' e _ IH Hoff].
  - by rewrite app_nil_r.
  - rewrite app_assoc. apply run_snoc; auto.
Qed.

Lemma run_cons s e evs s' : offered s e -> run (react s e) evs s' -> run s (e :: evs) s'.
Proof.
  intros Hoff Hrun. change (e :: evs) with ([e] ++ evs).
  eapply run_app; [|exact Hrun]. apply (run_snoc s [] s e); [constructor | done].
Qed.

(** Until [a] has finished it stays unfinished. *)
Lemma run_unfinished a s evs s' :
  run s evs s' -> Inv s -> unfinished a s ->
  (exists evs1 s1, evs1 `prefix_of` evs /\ run s evs1 s1 /\ settled a s1)
  \/ unfinished a s'.
Proof.
  induction 1 as [|s evs s' e Hrun IH Hoff]; intros HI Hu; [by right|].
  destruct (IH HI Hu) as [(evs1 & s1 & Hpre & Hrun1 & Hset)|Hu'].
  - left. exists evs1, s1. split; [|done]. by apply prefix_app_r.
  - destruct (react_order a a s' e (run_inv _ _ _ Hrun HI) Hoff Hu') as [Hset|[Hu'' _]].
    + left. exists (evs ++ [e]), (react s' e). split; [done|]. split; [|done].
      by apply run_snoc.
    + by right.
Qed.

(** Until [a] has finished, [b] waits behind it. *)
Lemma run_in_order a b s evs s' :
  run s evs s' -> Inv s -> in_order a b s ->
  (exists evs1 s1, evs1 `prefix_of` evs /\ run s evs1 s1 /\ settled a s1)
  \/ (unfinished a s' /\ waits_behind a b s').
Proof.
  induction 1 as [|s evs s' e Hrun IH Hoff]; intros HI Hord.
  - destruct Hord as [Hset|Hw]; [|by right].
    left. exists [], s. split; [done|]. split; [constructor | done].
  - destruct (IH HI Hord) as [(evs1 & s1 & Hpre & Hrun1 & Hset)|[Hu' Hw']].
    + left. exists evs1, s1. split; [|done]. by apply prefix_app_r.
    + destruct (react_order a b s' e (run_inv _ _ _ Hrun HI) Hoff Hu') as [Hset|[Hu'' Hw'']].
      * left. exists (evs ++ [e]), (react s' e). split; [done|]. split; [|done].
        by apply run_snoc.
      * right. auto.
Qed.

Lemma handleDownload_unfinished s a title channel format url formatId :
  unfinished a (handleDownload a title channel format url formatId s).
Proof. exists queued. split; [|done]. cbn. apply has_status_cons. by left. Qed.

Lemma commit_unfinished a prev next :
  Inv next -> unfinished a next -> unfinished a (commit prev next).
Proof.
  apply effects_keep. intros s HI HP.
  destruct (processQueue_cases s HI) as [->|(h & rest & c & Hn & Hq & ->)]; [done|].
  by apply take_slot_unfinished.
Qed.

(** First in, first out: when [b], requested after [a], holds the slot,
    [a] has finished on the way. *)
Lemma fifo s0 a ta ca fa ua ia evs2 s2 b tb cb fb ub ib evs3 s3 :
  Inv s0 ->
  offered s0 (Download a ta ca fa ua ia) ->
  run (react s0 (Download a ta ca fa ua ia)) evs2 s2 ->
  offered s2 (Download b tb cb fb ub ib) ->
  run (react s2 (Download b tb cb fb ub ib)) evs3 s3 ->
  active b s3 ->
  exists evs1 s1,
    evs1 `prefix_of` (evs2 ++ Download b tb cb fb ub ib :: evs3) /\
    run (react s0 (Download a ta ca fa ua ia)) evs1 s1 /\ finished a s1.
Proof.
  intros HI0 Hoffa Hrun2 Hoffb Hrun3 Hact.
  set (sa := react s0 (Download a ta ca fa ua ia)) in *.
  assert (HIa : Inv sa) by (by apply react_inv).
  assert (Hua : unfinished a sa).
  { apply commit_unfinished; [by apply handleDownload_inv|].
    apply handleDownload_unfinished. }
  assert (Hfin : forall evs1 s1, run sa evs1 s1 -> settled a s1 -> finished a s1).
  { intros evs1 s1 Hr (st & Hst & Hf). exists st. split; [|done].
    apply status_of_spec; [|done]. apply (ids_nodup s1). by eapply run_inv. }
  assert (HI2 : Inv s2) by (by eapply run_inv).
  destruct (run_unfinished a sa evs2 s2 Hrun2 HIa Hua)
    as [(evs1 & s1 & Hpre & Hr1 & Hset)|Hu2].
  { exists evs1, s1. split; [by apply prefix_app_r|]. split; [done|]. by eapply Hfin. }
  set (sb := react s2 (Download b tb cb fb ub ib)) in *.
  assert (HIb : Inv sb) by (by apply react_inv).
  assert (Hordb : in_order a b sb).
  { assert (Hk : keeps_order a b (handleDownload b tb cb fb ub ib s2) sb).
    { apply commit_keeps_order; [by apply handleDownload_inv|].
      apply keeps_order_refl. destruct Hu2 as (st & Hst & Hf).
      exists st. split; [|done]. cbn. apply has_status_cons. by right. }
    destruct Hk as [Hs|[Hu Hw]]; [by left|]. right. split; [done|].
    apply Hw. by apply handleDownload_behind. }
  destruct (run_in_order a b sb evs3 s3 Hrun3 HIb Hordb)
    as [(evs1 & s1 & Hpre & Hr1 & Hset)|[Hu3 [Hb3 _]]].
  - exists (evs2 ++ Download b tb cb fb ub ib :: evs1), s1. split; [|split].
    + apply prefix_app, prefix_cons, Hpre.
    + eapply run_app; [exact Hrun2|]. by apply run_cons.
    + apply (Hfin (evs2 ++ Download b tb cb fb ub ib :: evs1)); [|done].
      eapply run_app; [exact Hrun2|]. by apply run_cons.
  - destruct Hact as (st & Hst & Hact).
    assert (HI3 : Inv s3) by (by eapply run_inv).
    apply (status_of_spec _ _ _ (ids_nodup s3 HI3)) in Hst.
    destruct Hb3 as [Hb3|Hb3];
      pose proof (has_status_fun _ _ _ _ (ids_nodup s3 HI3) Hst Hb3) as ->; done.
Qed.

(** *** The first request takes the slot, the next ones wait *)

Lemma truthy_nonempty x : x <> EmptyString -> Js.nonempty x = true.
Proof. by destruct x. Qed.

Lemma first_download a t c f u i :
  offered initial (Download a t c f u i) ->
  react initial (Download a t c f u i)
  = MkState [MkItem a t c f preparing None None (Some 0%nat) (Some u) (Some i)]
            1 [] [(a, Some 0%nat)] [] [a] 1.
Proof.
  intros (_ & Ha & Hu & Hi).
  apply truthy_nonempty in Ha, Hu, Hi.
  unfold react, commit, find_download.
  repeat (cbn; rewrite ?Ha, ?Hu, ?Hi, ?String.eqb_refl). done.
Qed.

Lemma busy_download s x t c f u i :
  1 <= activeDownloads s ->
  react s (Download x t c f u i) = handleDownload x t c f u i s.
Proof.
  intros Hbusy. unfold react, commit.
  set (next := handleDownload x t c f u i s).
  assert (Hp : processQueue (activeDownloads next) next = next).
  { unfold processQueue. cbn [next handleDownload activeDownloads].
    unfold MAX_CONCURRENT_DOWNLOADS.
    destruct (Z.leb_spec 1 (activeDownloads s)); [done | lia]. }
  assert (Hsame : deps_changed next next = false).
  { unfold deps_changed. by rewrite Z.eqb_refl, Nat.eqb_refl. }
  cbn [Nat.add]. unfold effects at 1. fold effects.
  destruct (deps_changed s next); [|done].
  rewrite Hp. simpl. by rewrite Hsame.
Qed.


(** *** Cancelling an item that waits *)

Lemma find_download_update x f ds y :
  (forall d, id (f d) = id d) ->
  find_download y (update x f ds)
  = (fun d => if String.eqb (id d) x then f d else d) <$> find_download y ds.
Proof.
  intros Hid. unfold find_download, update.
  induction ds as [|d ds IH]; [done|]. cbn [map List.find].
  assert (Hsame : id (if String.eqb (id d) x then f d else d) = id d).
  { destruct (String.eqb (id d) x); [apply Hid | done]. }
  rewrite Hsame. destruct (String.eqb (id d) y); [done | apply IH].
Qed.

Lemma deps_same_commit prev next :
  activeDownloads prev = activeDownloads next ->
  length (downloads prev) = length (downloads next) ->
  commit prev next = next.
Proof.
  intros Ha Hl. unfold commit. cbn [Nat.add effects]. unfold deps_changed.
  rewrite Ha, Hl, Z.eqb_refl, Nat.eqb_refl. done.
Qed.

(** Cancelling a waiting item, in any state. *)
Lemma cancel_waiting s x :
  status_of s x = Some queued ->
  react s (Cancel x)
  = MkState (update x (with_status cancelled) (downloads s)) (activeDownloads s)
            (List.filter (fun i => negb (String.eqb i x)) (downloadQueue s))
            (transfers s) (timers s) (requests s) (controllers s).
Proof.
  intros Hst. unfold status_of in Hst. unfold react, handleCancelDownload.
  destruct (find_download x (downloads s)) as [d|]; [|done].
  injection Hst as Hst. rewrite Hst, bool_decide_eq_true_2 by done.
  apply deps_same_commit; cbn; [done | by rewrite length_update].
Qed.

Lemma settle_requests t o s : requests (settle t o s) = requests s.
Proof. done. Qed.

Lemma settle_cancelled s t o x :
  Inv s -> transfers s = [t] -> has_status (downloads s) x cancelled ->
  has_status (downloads (settle t o s)) x cancelled.
Proof.
  intros HI Ht Hx.
  destruct (settle_downloads t o s) as (f & Hid & Hsto & Hwf & Hds).
  assert (Hact : exists st, has_status (downloads s) t.1 st /\ is_active st = true).
  { apply (transfer_iff s HI). rewrite Ht. simpl. left. }
  destruct Hact as (stt & Hstt & Hactt).
  assert (x <> t.1).
  { intros ->. by pose proof (has_status_fun _ _ _ _ (ids_nodup s HI) Hx Hstt) as <-. }
  rewrite Hds. by rewrite has_status_update_ne.
Qed.

Lemma commit_stays_cancelled x sent prev next :
  Inv next -> stays_cancelled x sent next -> stays_cancelled x sent (commit prev next).
Proof.
  apply effects_keep. intros s HI [Hx (more & Hreq & Hmore)].
  destruct (processQueue_cases s HI) as [->|(h & rest & c & Hn & Hq & ->)];
    [by split; [|exists more]|].
  assert (Hhq : has_status (downloads s) h queued).
  { apply (queue_iff s HI). rewrite Hq. left. }
  assert (Hxh : x <> h).
  { intros ->. by pose proof (has_status_fun _ _ _ _ (ids_nodup s HI) Hx Hhq). }
  split.
  - cbn. by rewrite has_status_update_ne.
  - exists (more ++ [h]). cbn. rewrite Hreq, app_assoc. split; [done|].
    rewrite elem_of_app, list_elem_of_singleton. by intros [?|?].
Qed.

(** Without a retry a cancelled item stays cancelled, and nothing is
    requested for it. *)
Lemma react_stays_cancelled x sent s e :
  Inv s -> offered s e -> e <> Retry x ->
  stays_cancelled x sent s -> stays_cancelled x sent (react s e).
Proof.
  intros HI Hoff Hne [Hx Hreq].
  destruct e as [y ti ch fo u f|y|y| |y|y p|y o|k].
  - apply commit_stays_cancelled; [by apply handleDownload_inv|].
    split; [|done]. cbn. apply has_status_cons. by right.
  - apply commit_stays_cancelled; [by apply handleCancelDownload_inv|].
    unfold handleCancelDownload.
    destruct (find_download y (downloads s)) as [d|] eqn:Hfd; [|done].
    apply find_download_spec in Hfd as [Hd Hidy].
    destruct (bool_decide (status d = queued)) eqn:Hq.
    + apply bool_decide_eq_true in Hq.
      assert (x <> y).
      { intros ->. assert (Hyq : has_status (downloads s) y queued) by (by exists d).
        by pose proof (has_status_fun _ _ _ _ (ids_nodup s HI) Hx Hyq). }
      split; [|done]. cbn. by rewrite has_status_update_ne.
    + destruct (abortController d) as [c|]; [|done].
      destruct (abort_cases s c HI) as [->|(t & Ht & ->)]; [done|].
      split; [by apply settle_cancelled | done].
  - apply commit_stays_cancelled; [by apply handleRetryDownload_inv|].
    assert (x <> y) by congruence.
    unfold handleRetryDownload.
    destruct (find_download y (downloads s)) as [d|]; [|done].
    split; [|done]. cbn. by rewrite has_status_update_ne.
  - apply commit_stays_cancelled; [by apply handleClearCompleted_inv|].
    split; [|done]. cbn. apply has_status_clear. done.
  - simpl in Hoff. apply (transfer_iff s HI) in Hoff as (sty & Hsty & Hacty).
    assert (x <> y).
    { intros ->. by pose proof (has_status_fun _ _ _ _ (ids_nodup s HI) Hx Hsty) as <-. }
    split; [|done]. cbn. by rewrite has_status_update_ne.
  - split; [|done]. cbn. by rewrite has_status_update_same.
  - simpl. destruct (transfer_of y s) as [t|] eqn:Ht; [|done].
    apply transfer_of_spec in Ht as [Ht _]; [|done].
    apply commit_stays_cancelled; [by apply settle_inv|].
    split; [by apply settle_cancelled | done].
  - simpl in Hoff. rewrite (no_timers s HI) in Hoff. simpl in Hoff. lia.
Qed.

Lemma run_stays_cancelled x sent s evs s' :
  run s evs s' -> Inv s -> Retry x ∉ evs ->
  stays_cancelled x sent s -> stays_cancelled x sent s'.
Proof.
  induction 1 as [|s evs s' e Hrun IH Hoff]; intros HI Hno Hx; [done|].
  apply not_elem_of_app in Hno as [Hno He].
  apply react_stays_cancelled; [by eapply run_inv | done | | by apply IH].
  intros ->. apply He. left.
Qed.

(** A dequeued identifier whose item does not wait is passed over. *)
Lemma processQueue_skip captured s x rest :
  captured < MAX_CONCURRENT_DOWNLOADS ->
  downloadQueue s = x :: rest -> x <> EmptyString ->
  status_of s x <> Some queued ->
  processQueue captured s
  = MkState (downloads s) (activeDownloads s) rest (transfers s)
            (timers s ++ [captured]) (requests s) (controllers s).
Proof.
  intros Hfree Hq Hx Hst. unfold processQueue.
  destruct (Z.leb_spec MAX_CONCURRENT_DOWNLOADS captured); [lia|].
  rewrite Hq, (truthy_nonempty x Hx). cbn [negb downloads].
  unfold status_of in Hst.
  destruct (find_download x (downloads s)) as [d|]; [|done].
  destruct (bool_decide (status d = queued)) eqn:E; [|done].
  apply bool_decide_eq_true in E. simpl in Hst. congruence.
Qed.

End QueueFacts.

(** C5. In every reachable state at most one item is preparing or
    downloading.  Of three requests made one after the other on a fresh
    queue the first is preparing and the other two wait in their order.
    And admission is first in, first out: when an item requested after
    another holds the slot, the earlier one has, at some point since its
    request, been completed, failed or cancelled. *)
Theorem single_slot_fifo :
  (forall s, Queue.reachable s -> (length (Queue.active_items s) <= 1)%nat) /\
  (forall a b c t ch f u i,
     a <> b -> a <> c -> b <> c ->
     a <> EmptyString -> b <> EmptyString -> c <> EmptyString ->
     u <> EmptyString -> i <> EmptyString ->
     let s := foldl Queue.react Queue.initial
                [Queue.Download a t ch f u i; Queue.Download b t ch f u i;
                 Queue.Download c t ch f u i] in
     Queue.status_of s a = Some Queue.preparing /\
     Queue.status_of s b = Some Queue.queued /\
     Queue.status_of s c = Some Queue.queued /\
     Queue.downloadQueue s = [b; c] /\ Queue.requests s = [a]) /\
  (forall s0 a ta ca fa ua ia evs2 s2 b tb cb fb ub ib evs3 s3,
     Queue.reachable s0 ->
     Queue.offered s0 (Queue.Download a ta ca fa ua ia) ->
     Queue.run (Queue.react s0 (Queue.Download a ta ca fa ua ia)) evs2 s2 ->
     Queue.offered s2 (Queue.Download b tb cb fb ub ib) ->
     Queue.run (Queue.react s2 (Queue.Download b tb cb fb ub ib)) evs3 s3 ->
     Queue.active b s3 ->
     exists evs1 s1,
       evs1 `prefix_of` (evs2 ++ Queue.Download b tb cb fb ub ib :: evs3) /\
       Queue.run (Queue.react s0 (Queue.Download a ta ca fa ua ia)) evs1 s1 /\
       Queue.finished a s1).
Proof.
  split; [|split].
  - intros s Hs. by apply single_active, reachable_inv.
  - intros a b c t ch f u i Hab Hac Hbc Ha Hb Hc Hu Hi s. unfold s. cbn [foldl].
    rewrite first_download.
    2: { split; [apply not_elem_of_nil | done]. }
    rewrite !busy_download by (simpl; lia).
    unfold Queue.status_of, Queue.find_download. cbn.
    rewrite String.eqb_refl.
    apply not_eq_sym in Hab, Hac, Hbc.
    apply String.eqb_neq in Hab, Hac, Hbc. rewrite ?Hab, ?Hac, ?Hbc.
    rewrite String.eqb_refl. cbn. rewrite ?Hbc, String.eqb_refl. done.
  - intros s0 a ta ca fa ua ia evs2 s2 b tb cb fb ub ib evs3 s3 Hs0.
    apply fifo. by apply reachable_inv.
Qed.

(** The second of two requests is preparing only after the first one,
    here, has completed. *)
Lemma single_slot_fifo_witness :
  let A := Queue.Download "A" "title" "channel" "720p (MP4)" "https://youtu.be/abc123" "22" in
  let B := Queue.Download "B" "title" "channel" "360p (MP4)" "https://youtu.be/abc123" "18" in
  let s3 := foldl Queue.react Queue.initial
              [A; B; Queue.Started "A"; Queue.Settled "A" Queue.Succeeded] in
  Queue.status_of s3 "B" = Some Queue.preparing /\
  exists evs1 s1,
    evs1 `prefix_of` [B; Queue.Started "A"; Queue.Settled "A" Queue.Succeeded] /\
    Queue.run (Queue.react Queue.initial A) evs1 s1 /\ Queue.finished "A" s1.
Proof.
  intros A B s3. split; [reflexivity|].
  destruct single_slot_fifo as (_ & _ & H).
  apply (H Queue.initial "A" _ _ _ _ _ [] (Queue.react Queue.initial A)
           "B" _ _ _ _ _ [Queue.Started "A"; Queue.Settled "A" Queue.Succeeded] s3).
  - constructor.
  - split; [apply not_elem_of_nil | done].
  - constructor.
  - split; [|done]. intros Hin. apply list_elem_of_singleton in Hin. discriminate Hin.
  - apply (Queue.run_snoc _ [Queue.Started "A"] _ (Queue.Settled "A" Queue.Succeeded)).
    + apply (Queue.run_snoc _ [] _ (Queue.Started "A")); [constructor|].
      simpl. apply list_elem_of_singleton. reflexivity.
    + simpl. apply list_elem_of_singleton. reflexivity.
  - exists Queue.preparing. split; reflexivity.
Defined.

(** The restriction of retry to failed and cancelled items carries the
    invariant.  Were a retry delivered for the item that holds the slot,
    its identifier would be dequeued once it has completed and passed
    over, which leaves a timer whose closure still sees a free slot; two
    requests later that timer starts a second download beside the
    running one. *)
Example retry_of_active_item :
  let D := fun x => Queue.Download x "title" "channel" "720p (MP4)"
                                   "https://youtu.be/abc123" "22" in
  let s := foldl Queue.react Queue.initial
             [D "A"; Queue.Retry "A"; Queue.Settled "A" Queue.Succeeded;
              D "B"; D "C"; Queue.Timeout 0] in
  ~ Queue.offered (Queue.react Queue.initial (D "A")) (Queue.Retry "A") /\
  map Queue.id (Queue.active_items s) = ["C"; "B"] /\
  Queue.activeDownloads s = 2.
Proof.
  intros D s. split; [|split; reflexivity].
  intros (st & Hst & Hoff). injection Hst as <-. discriminate Hoff.
Qed.

(** C7. Cancelling an item that waits removes its identifier from the
    pending queue and sets its status to cancelled; no request is sent
    and the slot is left as it was.  From then on, through every run
    without a retry of the item, it stays cancelled (so it never becomes
    preparing), stays out of the queue, and no request is sent for it.
    And when [processQueue] dequeues an identifier whose item does not
    wait, it passes it over: the items, the slot, the transfers and the
    requests stay as they are, and it schedules its next run. *)
Theorem cancel_waiting_item :
  (forall s x,
     Queue.status_of s x = Some Queue.queued ->
     let s' := Queue.react s (Queue.Cancel x) in
     Queue.status_of s' x = Some Queue.cancelled /\
     (x ∉ Queue.downloadQueue s') /\
     Queue.requests s' = Queue.requests s /\
     Queue.transfers s' = Queue.transfers s /\
     Queue.activeDownloads s' = Queue.activeDownloads s) /\
  (forall s x evs s',
     Queue.reachable s ->
     Queue.status_of s x = Some Queue.queued ->
     Queue.run (Queue.react s (Queue.Cancel x)) evs s' ->
     Queue.Retry x ∉ evs ->
     Queue.status_of s' x = Some Queue.cancelled /\
     (x ∉ Queue.downloadQueue s') /\
     exists more, Queue.requests s' = Queue.requests s ++ more /\ x ∉ more) /\
  (forall captured s x rest,
     captured < Queue.MAX_CONCURRENT_DOWNLOADS ->
     Queue.downloadQueue s = x :: rest -> x <> EmptyString ->
     Queue.status_of s x <> Some Queue.queued ->
     let s' := Queue.processQueue captured s in
     Queue.downloads s' = Queue.downloads s /\
     Queue.activeDownloads s' = Queue.activeDownloads s /\
     Queue.transfers s' = Queue.transfers s /\
     Queue.requests s' = Queue.requests s /\
     Queue.downloadQueue s' = rest /\
     Queue.timers s' = Queue.timers s ++ [captured]).
Proof.
  assert (Hfirst : forall s x,
     Queue.status_of s x = Some Queue.queued ->
     Queue.status_of (Queue.react s (Queue.Cancel x)) x = Some Queue.cancelled /\
     (x ∉ Queue.downloadQueue (Queue.react s (Queue.Cancel x))) /\
     Queue.requests (Queue.react s (Queue.Cancel x)) = Queue.requests s /\
     Queue.transfers (Queue.react s (Queue.Cancel x)) = Queue.transfers s /\
     Queue.activeDownloads (Queue.react s (Queue.Cancel x)) = Queue.activeDownloads s).
  { intros s x Hst. rewrite (cancel_waiting s x Hst).
    cbn [Queue.downloadQueue Queue.requests Queue.transfers Queue.activeDownloads].
    split; [|split; [|done]].
    - unfold Queue.status_of in *. cbn [Queue.downloads].
      rewrite find_download_update by done.
      destruct (Queue.find_download x (Queue.downloads s)) as [d|] eqn:Hfd; [|done].
      apply find_download_spec in Hfd as [_ Hid]. cbn.
      rewrite Hid, String.eqb_refl. done.
    - rewrite elem_of_filter_ne. by intros [_ ?]. }
  split; [exact Hfirst|]. split.
  - intros s x evs s' Hs Hst Hrun Hno.
    pose proof (reachable_inv s Hs) as HI.
    assert (HIc : Queue.Inv (Queue.react s (Queue.Cancel x))) by (by apply react_inv).
    destruct (Hfirst s x Hst) as (Hc & _ & Hreq & _).
    assert (Hstart : Queue.stays_cancelled x (Queue.requests s)
                       (Queue.react s (Queue.Cancel x))).
    { split.
      - by apply (status_of_spec _ _ _ (Queue.ids_nodup _ HIc)).
      - exists []. rewrite Hreq, app_nil_r. split; [done | apply not_elem_of_nil]. }
    pose proof (run_inv _ _ _ Hrun HIc) as HI'.
    destruct (run_stays_cancelled x _ _ evs s' Hrun HIc Hno Hstart) as [Hx Hmore].
    split; [by apply (status_of_spec _ _ _ (Queue.ids_nodup _ HI'))|].
    split; [|done].
    intros Hin. apply (Queue.queue_iff _ HI') in Hin.
    by pose proof (has_status_fun _ _ _ _ (Queue.ids_nodup _ HI') Hx Hin).
  - intros captured s x rest Hfree Hq Hx Hst s'. unfold s'.
    by rewrite (processQueue_skip captured s x rest).
Qed.

(** Of two requests the second is cancelled while it waits; the first
    completes and a third is requested: the second is still cancelled
    and only the other two were ever requested from the server. *)
Lemma cancel_waiting_item_witness :
  let D := fun x => Queue.Download x "title" "channel" "720p (MP4)"
                                   "https://youtu.be/abc123" "22" in
  let s := foldl Queue.react Queue.initial [D "A"; D "B"] in
  let s' := foldl Queue.react s
              [Queue.Cancel "B"; Queue.Settled "A" Queue.Succeeded; D "C"] in
  Queue.status_of s' "B" = Some Queue.cancelled /\
  ("B" ∉ Queue.downloadQueue s') /\
  Queue.requests s' = ["A"; "C"].
Proof.
  intros D s s'.
  destruct cancel_waiting_item as (_ & H & _).
  destruct (H s "B" [Queue.Settled "A" Queue.Succeeded; D "C"] s')
    as (Hst & Hq & _).
  - apply (Queue.reachable_react _ (D "B")).
    + apply (Queue.reachable_react _ (D "A")); [constructor|].
      split; [apply not_elem_of_nil | done].
    + split; [|done]. intros Hin. apply list_elem_of_singleton in Hin. discriminate Hin.
  - reflexivity.
  - apply (Queue.run_snoc _ [Queue.Settled "A" Queue.Succeeded] _ (D "C")).
    + apply (Queue.run_snoc _ [] _ (Queue.Settled "A" Queue.Succeeded)); [constructor|].
      simpl. apply list_elem_of_singleton. reflexivity.
    + split; [|done]. intros Hin.
      apply elem_of_cons in Hin as [Hin|Hin]; [discriminate Hin|].
      apply list_elem_of_singleton in Hin. discriminate Hin.
  - intros Hin. apply elem_of_cons in Hin as [Hin|Hin]; [discriminate Hin|].
    apply list_elem_of_singleton in Hin. discriminate Hin.
  - split; [exact Hst|]. split; [exact Hq | reflexivity].
Defined.

(* ===================================================================== *)
(** * Part III: further properties of the code *)
(* ===================================================================== *)

(** ** Rate limiting: what the map holds *)

Lemma window_pos l : 0 < RateLimit.window l.
Proof. by destruct l. Qed.

(** X1. After a call at [now] of either limiter the map holds no entry
    whose reset time has passed and no key that was not there before
    except the caller's; and counts that lay between 1 and the maximum
    still do.  Hence in every map built by calls from the empty map each
    count is at least 1 and at most the maximum. *)
Theorem limiter_entries (l : RateLimit.limiter) :
  (forall now ip m,
     let r := RateLimit.check_of l now ip m in
     (forall k e, r.2 !! k = Some e -> now <= RateLimit.resetTime e) /\
     (forall k, is_Some (r.2 !! k) -> k = ip \/ is_Some (m !! k)) /\
     is_Some (r.2 !! ip) /\
     ((forall k e, m !! k = Some e -> 1 <= RateLimit.count e <= RateLimit.max_requests l) ->
      forall k e, r.2 !! k = Some e -> 1 <= RateLimit.count e <= RateLimit.max_requests l)) /\
  (forall calls k e,
     RateLimit.run_of l calls ∅ !! k = Some e ->
     1 <= RateLimit.count e <= RateLimit.max_requests l).
Proof.
  pose proof (window_pos l) as HW. pose proof (max_requests_pos l) as HN.
  assert (Hstep : forall now ip m,
     let r := RateLimit.check_of l now ip m in
     (forall k e, r.2 !! k = Some e -> now <= RateLimit.resetTime e) /\
     (forall k, is_Some (r.2 !! k) -> k = ip \/ is_Some (m !! k)) /\
     is_Some (r.2 !! ip) /\
     ((forall k e, m !! k = Some e -> 1 <= RateLimit.count e <= RateLimit.max_requests l) ->
      forall k e, r.2 !! k = Some e -> 1 <= RateLimit.count e <= RateLimit.max_requests l)).
  { intros now ip m r. unfold r. rewrite check_of_eq.
    assert (Hlive : forall k e, RateLimit.live now m k = Some e ->
                      m !! k = Some e /\ now <= RateLimit.resetTime e).
    { intros k e. unfold RateLimit.live. destruct (m !! k) as [e'|]; [|done].
      destruct (Z.ltb_spec (RateLimit.resetTime e') now); [done|].
      intros [= <-]. split; [done | lia]. }
    assert (Hown := check_own (RateLimit.window l) (RateLimit.max_requests l) now ip m).
    assert (Hoth := check_other (RateLimit.window l) (RateLimit.max_requests l) now ip m).
    set (m' := (RateLimit.check (RateLimit.window l) (RateLimit.max_requests l) now ip m).2) in *.
    split; [|split; [|split]].
    - intros k e He. destruct (decide (k = ip)) as [->|Hne].
      + rewrite Hown in He. destruct (RateLimit.live now m ip) as [u|] eqn:Hu.
        * apply Hlive in Hu as [_ Hu].
          destruct (RateLimit.count u <? RateLimit.max_requests l);
            injection He as <-; simpl; lia.
        * injection He as <-. simpl. lia.
      + rewrite Hoth in He by done. by apply Hlive in He as [_ ?].
    - intros k [e He]. destruct (decide (k = ip)) as [->|Hne]; [by left|].
      right. rewrite Hoth in He by done. apply Hlive in He as [He _]. by exists e.
    - rewrite Hown. destruct (RateLimit.live now m ip) as [u|];
        [destruct (RateLimit.count u <? RateLimit.max_requests l)|]; by eexists.
    - intros Hm k e He. destruct (decide (k = ip)) as [->|Hne].
      + rewrite Hown in He. destruct (RateLimit.live now m ip) as [u|] eqn:Hu.
        * apply Hlive in Hu as [Hu _]. apply Hm in Hu.
          destruct (Z.ltb_spec (RateLimit.count u) (RateLimit.max_requests l));
            injection He as <-; simpl; lia.
        * injection He as <-. simpl. lia.
      + rewrite Hoth in He by done. apply Hlive in He as [He _]. by apply (Hm k). }
  split; [exact Hstep|].
  intros calls.
  assert (Hrun : forall m,
     (forall k e, m !! k = Some e -> 1 <= RateLimit.count e <= RateLimit.max_requests l) ->
     forall k e, RateLimit.run_of l calls m !! k = Some e ->
                 1 <= RateLimit.count e <= RateLimit.max_requests l).
  { induction calls as [|[now ip] rest IH]; intros m Hm; [exact Hm|].
    unfold RateLimit.run_of in *. simpl. apply IH.
    destruct (Hstep now ip m) as (_ & _ & _ & Hkeep).
    rewrite check_of_eq in Hkeep. by apply Hkeep. }
  apply Hrun. intros k e He. by rewrite lookup_empty in He.
Qed.

(** The second of two keys expired before the call of the first: it is
    gone, and the caller holds a count of 1. *)
Lemma limiter_entries_witness :
  let m : gmap string RateLimit.entry :=
    {[ "10.0.0.2" := RateLimit.Entry 7 5000 ]} in
  let r := RateLimit.check_of RateLimit.Metadata 6000 "10.0.0.1" m in
  r.2 !! "10.0.0.2" = None /\
  forall k e, r.2 !! k = Some e -> 1 <= RateLimit.count e <= 30.
Proof.
  intros m r. split; [reflexivity|].
  destruct (limiter_entries RateLimit.Metadata) as [H _].
  destruct (H 6000 "10.0.0.1" m) as (_ & _ & _ & Hkeep).
  apply Hkeep. intros k e He.
  destruct (decide (k = "10.0.0.2")) as [->|Hne].
  - unfold m in He. rewrite lookup_singleton_eq in He. injection He as <-.
    change (1 <= 7 <= 30). lia.
  - unfold m in He. rewrite lookup_singleton_ne in He by done. discriminate He.
Defined.

(** ** The metadata endpoint *)

Lemma length_substring0 n : forall s, (String.length (Js.substring0 n s) <= n)%nat.
Proof.
  induction n as [|n IH]; intros [|c s]; simpl; try lia. specialize (IH s). lia.
Qed.

Lemma substring0_all n : forall s, (String.length s <= n)%nat -> Js.substring0 n s = s.
Proof.
  induction n as [|n IH]; intros [|c s] Hlen; simpl in *; try done; try lia.
  rewrite IH; [done | lia].
Qed.

Lemma substring0_nonempty n s :
  (0 < n)%nat -> Js.nonempty s = true -> Js.nonempty (Js.substring0 n s) = true.
Proof. destruct n, s; simpl; try done; lia. Qed.

Lemma substring0_head n c s :
  (0 < n)%nat -> exists rest, Js.substring0 n (String c s) = String c rest.
Proof. destruct n; [lia|]. intros _. by eexists. Qed.

Lemma trim_start_head s : Js.no_leading_space (Js.trim_start s).
Proof.
  induction s as [|c s IH]; simpl; [done|].
  destruct (Js.is_space c) eqn:E; [done | by simpl].
Qed.

Lemma trim_end_head s : Js.no_leading_space s -> Js.no_leading_space (Js.trim_end s).
Proof.
  destruct s as [|c s]; simpl; [done|]. intros Hc.
  destruct (Js.trim_end s); [by rewrite Hc | done].
Qed.

(** X2. [sanitizeInput] yields at most 2000 characters with no white
    space in front, and leaves alone a text of at most 2000 characters
    that has no white space at either end. *)
Theorem sanitizeInput_bounds (input : string) :
  (String.length (MetadataRoute.sanitizeInput input) <= 2000)%nat /\
  Js.no_leading_space (MetadataRoute.sanitizeInput input) /\
  (Js.trim input = input -> (String.length input <= 2000)%nat ->
   MetadataRoute.sanitizeInput input = input).
Proof.
  unfold MetadataRoute.sanitizeInput. split; [apply length_substring0|]. split.
  - pose proof (trim_end_head _ (trim_start_head input)) as H.
    fold (Js.trim input) in H. destruct (Js.trim input) as [|c s]; [done|].
    destruct (substring0_head 2000 c s) as [rest ->]; [lia | done].
  - intros -> Hlen. by apply substring0_all.
Qed.

Lemma sanitizeInput_bounds_witness :
  MetadataRoute.sanitizeInput "https://youtu.be/abc123" = "https://youtu.be/abc123".
Proof.
  apply (sanitizeInput_bounds "https://youtu.be/abc123"); [reflexivity|].
  cbn. lia.
Defined.

Section MetadataFacts.

Variable URL_parse : string -> option UrlValidation.URL.
Variable JSON_parse : string -> option MetadataRoute.VideoInfo.
Variable toFixed1 : Formats.number -> N -> string.
Variable Date_short : string -> option string.
Variable exec : string -> DownloadRoute.ExecResult.

Local Ltac refusal side :=
  eexists _, _; split; [reflexivity|]; split; [reflexivity | side].

(** The cases of the handler, each with what it answers and runs. *)
Lemma metadata_POST_cases now request server :
  let r := MetadataRoute.POST URL_parse JSON_parse toFixed1 Date_short exec
             now request server in
  (MetadataRoute.executed r.2 = MetadataRoute.executed server /\
   exists status error,
     r.1 = MetadataRoute.Json status error /\ Js.nonempty error = true /\
     (status = 429 \/ status = 400 \/ status = 500)) \/
  (exists url,
     MetadataRoute.body request = MetadataRoute.Body (DownloadRoute.JString url) /\
     Js.nonempty url = true /\
     UrlValidation.validateYouTubeUrl URL_parse (MetadataRoute.sanitizeInput url) = true /\
     MetadataRoute.executed r.2
     = MetadataRoute.executed server
       ++ [MetadataRoute.command_line (MetadataRoute.sanitizeInput url)] /\
     ((exists status error,
         r.1 = MetadataRoute.Json status error /\ Js.nonempty error = true /\
         (status = 408 \/ status = 500 \/ status = 404)) \/
      (exists stdout stderr videoInfo,
         exec (MetadataRoute.command_line (MetadataRoute.sanitizeInput url))
         = DownloadRoute.Exited stdout stderr /\
         JSON_parse stdout = Some videoInfo /\
         Formats.truthy_str (MetadataRoute.info_id videoInfo) = true /\
         Formats.truthy_str (MetadataRoute.info_title videoInfo) = true /\
         r.1 = MetadataRoute.Data
                 (MetadataRoute.videoData_of toFixed1 Date_short videoInfo)))).
Proof.
  intros r. unfold r, MetadataRoute.POST.
  destruct (RateLimit.checkRateLimit _ _ _) as [ok limits].
  destruct ok; cbn [negb].
  2: { left. split; [done|]. refusal ltac:(by left). }
  destruct (MetadataRoute.body request) as [| |v] eqn:Hbody.
  { left. split; [done|]. refusal ltac:(right; by left). }
  { left. split; [done|]. refusal ltac:(right; by right). }
  destruct v as [|url|].
  { left. split; [done|]. refusal ltac:(right; by left). }
  2: { left. split; [done|]. refusal ltac:(right; by left). }
  destruct (Js.nonempty url) eqn:Hurl; cbn [negb].
  2: { left. split; [done|]. refusal ltac:(right; by left). }
  destruct (UrlValidation.validateYouTubeUrl URL_parse (MetadataRoute.sanitizeInput url))
    eqn:Hvalid; cbn [negb].
  2: { left. split; [done|]. refusal ltac:(right; by left). }
  right. exists url. split; [done|]. split; [done|]. split; [done|].
  cbv zeta.
  destruct (exec _) as [stdout stderr|[]] eqn:Hexec.
  - destruct (Js.nonempty stderr && Js.includes "ERROR" stderr).
    { split; [done|]. left. refusal ltac:(right; by right). }
    destruct (JSON_parse stdout) as [videoInfo|] eqn:Hparse.
    2: { split; [done|]. left. refusal ltac:(right; by left). }
    destruct (Formats.truthy_str (MetadataRoute.info_id videoInfo)) eqn:Hid; cbn [negb orb].
    2: { split; [done|]. left. refusal ltac:(right; by left). }
    destruct (Formats.truthy_str (MetadataRoute.info_title videoInfo)) eqn:Htitle; cbn [negb].
    2: { split; [done|]. left. refusal ltac:(right; by left). }
    split; [done|]. right. by exists stdout, stderr, videoInfo.
  - split; [done|]. left. refusal ltac:(by left).
  - split; [done|]. left. refusal ltac:(right; by left).
Qed.

End MetadataFacts.

(** ** The descriptors the endpoint sends *)

Lemma getQualityString_nonempty f : Js.nonempty (Formats.getQualityString f) = true.
Proof.
  unfold Formats.getQualityString.
  destruct (Formats.truthy_num (Formats.raw_height f)) eqn:Eh.
  { destruct (Formats.raw_height f) as [h|]; [|done].
    unfold Formats.number_to_string.
    pose proof (render_nonempty (Formats.whole h)) as Hn.
    destruct (Formats.render (Formats.whole h)); [done|]. by rewrite !append_cons. }
  destruct (Formats.truthy_num (Formats.raw_abr f)) eqn:Ea.
  { destruct (Formats.raw_abr f) as [a|]; [|done].
    unfold Formats.number_to_string.
    pose proof (render_nonempty (Formats.whole a)) as Hn.
    destruct (Formats.render (Formats.whole a)); [done|]. by rewrite !append_cons. }
  destruct (Formats.truthy_str (Formats.raw_quality f)) eqn:Eq.
  { by destruct (Formats.raw_quality f). }
  destruct (Formats.truthy_str (Formats.raw_format_note f)) eqn:En; [|done].
  by destruct (Formats.raw_format_note f).
Qed.

Lemma processFormats_shape formats :
  Forall (fun f => Formats.truthy_str (Formats.format_id f) = true /\
                   Js.nonempty (Formats.ext f) = true /\
                   Js.nonempty (Formats.quality f) = true)
         (Formats.processFormats formats).
Proof.
  unfold Formats.processFormats. rewrite sort_perm.
  apply Forall_forall. intros d Hd.
  apply list_elem_of_fmap in Hd as (f & -> & Hf).
  apply list_elem_of_In, filter_In in Hf as [_ Hf].
  apply andb_prop in Hf as [Hid _].
  split; [done|]. split; [|apply getQualityString_nonempty].
  cbn. destruct (Formats.truthy_str (Formats.raw_ext f)) eqn:Ee; [|done].
  by destruct (Formats.raw_ext f).
Qed.

Lemma metadata_error_status URL_parse JSON_parse toFixed1 Date_short exec
    now request server status error :
  (MetadataRoute.POST URL_parse JSON_parse toFixed1 Date_short exec
     now request server).1 = MetadataRoute.Json status error ->
  Js.nonempty error = true /\
  (status = 400 \/ status = 404 \/ status = 408 \/ status = 429 \/ status = 500).
Proof.
  intros Hr.
  destruct (metadata_POST_cases URL_parse JSON_parse toFixed1 Date_short exec
              now request server)
    as [(_ & st & e & Heq & He & Hst)
       |(url & _ & _ & _ & _ & [(st & e & Heq & He & Hst)|(so & se & vi & _ & _ & _ & _ & Heq)])];
    rewrite Hr in Heq; [| |done]; injection Heq as -> ->; (split; [done|]); lia.
Qed.

(** X3. The metadata endpoint answers with one of six statuses, and it
    runs the tool at most once per request: only when the body holds a
    text whose trimmed and cut form passes [validateYouTubeUrl], and then
    with exactly that form between the quotes of the command line. *)
Theorem metadata_tool_guard (URL_parse : string -> option UrlValidation.URL)
    (JSON_parse : string -> option MetadataRoute.VideoInfo)
    (toFixed1 : Formats.number -> N -> string)
    (Date_short : string -> option string)
    (exec : string -> DownloadRoute.ExecResult)
    (now : Z) (request : MetadataRoute.Request) (server : MetadataRoute.Server) :
  let r := MetadataRoute.POST URL_parse JSON_parse toFixed1 Date_short exec
             now request server in
  In (MetadataRoute.status_of r.1) [200; 400; 404; 408; 429; 500] /\
  (MetadataRoute.executed r.2 = MetadataRoute.executed server \/
   exists url,
     MetadataRoute.body request = MetadataRoute.Body (DownloadRoute.JString url) /\
     UrlValidation.validateYouTubeUrl URL_parse (MetadataRoute.sanitizeInput url) = true /\
     (String.length (MetadataRoute.sanitizeInput url) <= 2000)%nat /\
     MetadataRoute.executed r.2
     = MetadataRoute.executed server
       ++ [MetadataRoute.command_line (MetadataRoute.sanitizeInput url)]) /\
  (In (MetadataRoute.status_of r.1) [200; 404; 408] ->
   MetadataRoute.executed r.2 <> MetadataRoute.executed server).
Proof.
  intros r.
  assert (Hstatus : In (MetadataRoute.status_of r.1) [200; 400; 404; 408; 429; 500]).
  { destruct r.1 as [status error|d] eqn:Hr; [|cbn; tauto].
    apply metadata_error_status in Hr as [_ Hst]. cbn. lia. }
  split; [done|].
  destruct (metadata_POST_cases URL_parse JSON_parse toFixed1 Date_short exec
              now request server)
    as [(Hex & st & e & Heq & _ & Hst)|(url & Hbody & _ & Hvalid & Hex & _)];
    fold r in Hex.
  - split; [by left|]. fold r in Heq. rewrite Heq. cbn. intros Hin.
    cbn in Hin. lia.
  - split.
    + right. exists url. split; [done|]. split; [done|]. split; [|done].
      apply length_substring0.
    + intros _. rewrite Hex. intros Habs.
      apply (f_equal length) in Habs. rewrite length_app in Habs. cbn in Habs. lia.
Qed.

(** X4. What the metadata endpoint sends on success: an identifier and a
    title that are not empty, a title of at most 200 characters, a
    channel name that is not empty and of at most 100 characters, a
    description of at most 1000 characters, and only formats with an
    identifier, a container and a quality label that are not empty. *)
Theorem metadata_success_shape (URL_parse : string -> option UrlValidation.URL)
    (JSON_parse : string -> option MetadataRoute.VideoInfo)
    (toFixed1 : Formats.number -> N -> string)
    (Date_short : string -> option string)
    (exec : string -> DownloadRoute.ExecResult)
    (now : Z) (request : MetadataRoute.Request) (server : MetadataRoute.Server)
    (videoData : MetadataRoute.VideoData) :
  (MetadataRoute.POST URL_parse JSON_parse toFixed1 Date_short exec
     now request server).1 = MetadataRoute.Data videoData ->
  Js.nonempty (MetadataRoute.id videoData) = true /\
  Js.nonempty (MetadataRoute.title videoData) = true /\
  (String.length (MetadataRoute.title videoData) <= 200)%nat /\
  Js.nonempty (MetadataRoute.channel videoData) = true /\
  (String.length (MetadataRoute.channel videoData) <= 100)%nat /\
  (String.length (MetadataRoute.description videoData) <= 1000)%nat /\
  Forall (fun f => Formats.truthy_str (Formats.format_id f) = true /\
                   Js.nonempty (Formats.ext f) = true /\
                   Js.nonempty (Formats.quality f) = true)
         (MetadataRoute.formats videoData).
Proof.
  intros Hr.
  destruct (metadata_POST_cases URL_parse JSON_parse toFixed1 Date_short exec
              now request server)
    as [(_ & st & e & Heq & _)
       |(url & _ & _ & _ & _ & [(st & e & Heq & _)|(so & se & vi & _ & _ & Hid & Htitle & Heq)])];
    rewrite Hr in Heq; [done|done|]. injection Heq as ->.
  cbn [MetadataRoute.videoData_of MetadataRoute.id MetadataRoute.title
       MetadataRoute.channel MetadataRoute.description MetadataRoute.formats].
  destruct (MetadataRoute.info_id vi) as [i|]; [|done].
  destruct (MetadataRoute.info_title vi) as [t|]; [|done].
  cbn in Hid, Htitle. cbn [default].
  split; [done|]. split; [by apply substring0_nonempty; [lia|]|].
  split; [apply length_substring0|].
  split.
  { apply substring0_nonempty; [lia|].
    unfold MetadataRoute.or_else.
    destruct (MetadataRoute.info_uploader vi) as [u|];
      [destruct (Js.nonempty u) eqn:Eu; [done|]|];
      (destruct (MetadataRoute.info_channel vi) as [c|];
       [by destruct (Js.nonempty c) eqn:Ec | done]). }
  split; [apply length_substring0|]. split; [apply length_substring0|].
  apply processFormats_shape.
Qed.

(** A request for a short link, answered by the tool with a document
    that names the video, its title and one format. *)
Lemma metadata_success_shape_witness :
  let videoInfo :=
    MetadataRoute.MkInfo (Some "abc123") (Some "A title") None (Some "A channel")
      None None None None None
      (Some [Formats.video_format "137" 1080 "avc1"]) in
  let videoData :=
    MetadataRoute.videoData_of (fun _ _ => "1.0") (fun _ => None) videoInfo in
  MetadataRoute.channel videoData = "A channel" /\
  Js.nonempty (MetadataRoute.title videoData) = true /\
  (String.length (MetadataRoute.title videoData) <= 200)%nat.
Proof.
  intros videoInfo videoData.
  split; [reflexivity|].
  assert (Hr : (MetadataRoute.POST UrlValidation.parse_plain
            (fun _ => Some videoInfo) (fun _ _ => "1.0") (fun _ => None)
            (fun _ => DownloadRoute.Exited "{}" EmptyString)
            1000
            (MetadataRoute.MkRequest None
               (MetadataRoute.Body (DownloadRoute.JString " https://youtu.be/abc123 ")))
            (MetadataRoute.MkServer ∅ [])).1 = MetadataRoute.Data videoData)
    by (vm_compute; reflexivity).
  destruct (metadata_success_shape _ _ _ _ _ _ _ _ _ Hr) as (_ & Ht & Hl & _).
  split; [exact Ht | exact Hl].
Defined.

(** The same request: the tool is run once, on the trimmed link. *)
Lemma metadata_tool_guard_witness :
  let r := MetadataRoute.POST UrlValidation.parse_plain
             (fun _ => None) (fun _ _ => "1.0") (fun _ => None)
             (fun _ => DownloadRoute.ExecError true)
             1000
             (MetadataRoute.MkRequest None
                (MetadataRoute.Body (DownloadRoute.JString " https://youtu.be/abc123 ")))
             (MetadataRoute.MkServer ∅ []) in
  MetadataRoute.status_of r.1 = 408 /\
  MetadataRoute.executed r.2 <> [].
Proof.
  intros r. split; [reflexivity|].
  destruct (metadata_tool_guard UrlValidation.parse_plain
             (fun _ => None) (fun _ _ => "1.0") (fun _ => None)
             (fun _ => DownloadRoute.ExecError true)
             1000
             (MetadataRoute.MkRequest None
                (MetadataRoute.Body (DownloadRoute.JString " https://youtu.be/abc123 ")))
             (MetadataRoute.MkServer ∅ [])) as (_ & _ & H).
  apply H. change (In 408 [200; 404; 408]). cbn. lia.
Defined.

(** ** The metadata client *)

Lemma metadata_data_named URL_parse JSON_parse toFixed1 Date_short exec
    now request server videoData :
  (MetadataRoute.POST URL_parse JSON_parse toFixed1 Date_short exec
     now request server).1 = MetadataRoute.Data videoData ->
  Js.nonempty (MetadataRoute.id videoData) = true /\
  Js.nonempty (MetadataRoute.title videoData) = true.
Proof.
  intros Hr.
  destruct (metadata_POST_cases URL_parse JSON_parse toFixed1 Date_short exec
              now request server)
    as [(_ & st & e & Heq & _)
       |(url & _ & _ & _ & _ & [(st & e & Heq & _)|(so & se & vi & _ & _ & Hid & Htitle & Heq)])];
    rewrite Hr in Heq; [done|done|]. injection Heq as ->.
  cbn [MetadataRoute.videoData_of MetadataRoute.id MetadataRoute.title].
  destruct (MetadataRoute.info_id vi) as [i|]; [|done].
  destruct (MetadataRoute.info_title vi) as [t|]; [|done].
  cbn in Hid, Htitle. cbn [default].
  split; [done|]. by apply substring0_nonempty; [lia|].
Qed.

(** X5. Whatever the metadata endpoint answers, [fetchVideoInfo] hands
    on: the video data untouched when there is some (its own check of
    identifier and title never fires), and otherwise an error with the
    endpoint's own message and status (its default message is never
    needed). *)
Theorem fetchVideoInfo_after_POST (URL_parse : string -> option UrlValidation.URL)
    (JSON_parse : string -> option MetadataRoute.VideoInfo)
    (toFixed1 : Formats.number -> N -> string)
    (Date_short : string -> option string)
    (exec : string -> DownloadRoute.ExecResult)
    (now : Z) (request : MetadataRoute.Request) (server : MetadataRoute.Server) :
  let r := MetadataRoute.POST URL_parse JSON_parse toFixed1 Date_short exec
             now request server in
  Form.fetchVideoInfo (Form.on_the_wire r.1)
  = match r.1 with
    | MetadataRoute.Data videoData => inl videoData
    | MetadataRoute.Json status error => inr (Form.MkError error status)
    end.
Proof.
  intros r. destruct r.1 as [status error|videoData] eqn:Hr.
  - apply metadata_error_status in Hr as [He Hst].
    cbn [Form.on_the_wire Form.fetchVideoInfo]. rewrite He.
    assert ((200 <=? status) && (status <? 300) = false) as ->; [|done].
    apply andb_false_iff. lia.
  - apply metadata_data_named in Hr as (Hid & Htitle).
    cbn [Form.on_the_wire Form.fetchVideoInfo]. rewrite Hid, Htitle. done.
Qed.

(** ** The processed format list *)




(** ** The shape of sanitized names *)

Lemma all_chars_remove_keep (P class : ascii -> bool) s :
  Js.all_chars P s = true -> Js.all_chars P (Js.remove class s) = true.
Proof.
  induction s as [|c s IH]; [done|]. cbn [Js.all_chars Js.remove].
  intros [Hc Hs]%andb_prop. destruct (class c); [by apply IH|].
  cbn [Js.all_chars]. by rewrite Hc, IH.
Qed.

Lemma all_chars_remove (class : ascii -> bool) s :
  Js.all_chars (fun c => negb (class c)) (Js.remove class s) = true.
Proof.
  induction s as [|c s IH]; [done|]. cbn [Js.remove].
  destruct (class c) eqn:E; [done|]. cbn [Js.all_chars]. by rewrite E, IH.
Qed.

Lemma all_chars_and (P Q : ascii -> bool) s :
  Js.all_chars P s = true -> Js.all_chars Q s = true ->
  Js.all_chars (fun c => P c && Q c) s = true.
Proof.
  induction s as [|c s IH]; [done|]. cbn [Js.all_chars].
  intros [-> Hs]%andb_prop [-> Hs']%andb_prop. by rewrite IH.
Qed.

Lemma all_chars_collapse (P : ascii -> bool) s : forall in_run,
  P " "%char = true -> Js.all_chars P s = true ->
  Js.all_chars P (Js.collapse_from in_run s) = true.
Proof.
  induction s as [|c s IH]; intros in_run Hsp; [done|].
  cbn [Js.all_chars Js.collapse_from]. intros [Hc Hs]%andb_prop.
  destruct (Js.is_space c); [destruct in_run|]; cbn [Js.all_chars];
    rewrite ?Hsp, ?Hc, ?IH; done.
Qed.

Lemma all_chars_trim_start (P : ascii -> bool) s :
  Js.all_chars P s = true -> Js.all_chars P (Js.trim_start s) = true.
Proof.
  induction s as [|c s IH]; [done|]. cbn [Js.trim_start].
  destruct (Js.is_space c); [|done]. cbn [Js.all_chars].
  intros [_ Hs]%andb_prop. by apply IH.
Qed.

Lemma all_chars_substring0 (P : ascii -> bool) n : forall s,
  Js.all_chars P s = true -> Js.all_chars P (Js.substring0 n s) = true.
Proof.
  induction n as [|n IH]; intros [|c s]; try done.
  cbn [Js.substring0 Js.all_chars]. intros [-> Hs]%andb_prop. by rewrite IH.
Qed.

Lemma trim_end_prefix s :
  Js.trim_end s = Js.substring0 (String.length (Js.trim_end s)) s.
Proof.
  induction s as [|c s IH]; [done|]. cbn [Js.trim_end].
  destruct (Js.trim_end s) as [|k kept] eqn:E.
  - destruct (Js.is_space c); [done|]. cbn. by destruct s.
  - cbn [String.length Js.substring0]. f_equal. exact IH.
Qed.

Lemma single_spaced_tail c s :
  Js.single_spaced (String c s) = true -> Js.single_spaced s = true.
Proof. destruct s as [|c' s]; [done|]. cbn. by intros [_ ?]%andb_prop. Qed.

Lemma single_spaced_trim_start s :
  Js.single_spaced s = true -> Js.single_spaced (Js.trim_start s) = true.
Proof.
  induction s as [|c s IH]; [done|]. cbn [Js.trim_start].
  destruct (Js.is_space c); [|done]. intros H. by apply IH, (single_spaced_tail c).
Qed.

Lemma single_spaced_substring0 n : forall s,
  Js.single_spaced s = true -> Js.single_spaced (Js.substring0 n s) = true.
Proof.
  induction n as [|n IH]; intros [|c s] Hs; try done.
  cbn [Js.substring0]. specialize (IH s (single_spaced_tail _ _ Hs)).
  destruct s as [|c' s]; [by destruct n|].
  destruct n as [|n]; [done|]. cbn [Js.substring0] in *.
  change (negb (Js.is_space c && Js.is_space c')
          && Js.single_spaced (String c' s) = true) in Hs.
  change (negb (Js.is_space c && Js.is_space c')
          && Js.single_spaced (String c' (Js.substring0 n s)) = true).
  apply andb_prop in Hs as [-> _]. done.
Qed.

Lemma single_spaced_collapse s : forall in_run,
  Js.single_spaced (Js.collapse_from in_run s) = true /\
  (in_run = true -> Js.no_leading_space (Js.collapse_from in_run s)).
Proof.
  induction s as [|c s IH]; intros in_run; [done|].
  cbn [Js.collapse_from]. destruct (Js.is_space c) eqn:Ec.
  - destruct in_run; [apply IH|]. split; [|done].
    destruct (IH true) as [Hs Hh]. specialize (Hh eq_refl).
    destruct (Js.collapse_from true s) as [|c' s'] eqn:E; [done|].
    change (negb (Js.is_space " " && Js.is_space c')
            && Js.single_spaced (String c' s') = true).
    cbn in Hh. rewrite Hh, Hs. by rewrite andb_false_r.
  - split; [|done]. destruct (IH false) as [Hs _].
    destruct (Js.collapse_from false s) as [|c' s'] eqn:E; [done|].
    change (negb (Js.is_space c && Js.is_space c')
            && Js.single_spaced (String c' s') = true).
    by rewrite Ec, Hs.
Qed.

Lemma trim_head s : Js.no_leading_space (Js.trim s).
Proof. apply trim_end_head, trim_start_head. Qed.

Lemma substring0_no_leading_space n s :
  Js.no_leading_space s -> Js.no_leading_space (Js.substring0 n s).
Proof. destruct n, s; done. Qed.

Lemma cleaned_chars filename :
  Js.all_chars DownloadRoute.is_filename_char (Client.cleaned filename) = true.
Proof.
  apply (all_chars_and (fun c => negb (DownloadRoute.is_invalid_char c))
                       (fun c => negb (DownloadRoute.is_non_printable c)));
    [apply all_chars_remove_keep|]; apply all_chars_remove.
Qed.

Lemma all_chars_trim (P : ascii -> bool) s :
  Js.all_chars P s = true -> Js.all_chars P (Js.trim s) = true.
Proof.
  intros H. unfold Js.trim. rewrite trim_end_prefix.
  by apply all_chars_substring0, all_chars_trim_start.
Qed.

(** X7. Both sanitizers yield at most 200 characters, all of them
    printable ASCII outside the class of the first replacement (so no
    double quote, slash or backslash), with no white space in front;
    the server's, in addition, never has two spaces in a row. *)
Theorem sanitizeFilename_shape (filename : string) :
  let server := DownloadRoute.sanitizeFilename filename in
  let client := Client.sanitizeFilename filename in
  ((String.length server <= 200)%nat /\
   Js.all_chars DownloadRoute.is_filename_char server = true /\
   Js.no_leading_space server /\
   Js.single_spaced server = true) /\
  ((String.length client <= 200)%nat /\
   Js.all_chars DownloadRoute.is_filename_char client = true /\
   Js.no_leading_space client).
Proof.
  intros server client. unfold server, client,
    DownloadRoute.sanitizeFilename, Client.sanitizeFilename.
  fold (Client.cleaned filename). pose proof (cleaned_chars filename) as Hc.
  split; [split; [|split; [|split]] | split; [|split]].
  - apply length_substring0.
  - by apply all_chars_substring0, all_chars_trim, all_chars_collapse.
  - apply substring0_no_leading_space, trim_head.
  - apply single_spaced_substring0. unfold Js.trim. rewrite trim_end_prefix.
    apply single_spaced_substring0, single_spaced_trim_start, single_spaced_collapse.
  - apply length_substring0.
  - by apply all_chars_substring0, all_chars_trim.
  - apply substring0_no_leading_space, trim_head.
Qed.

(** A title with a colon and single spaces is named alike on both sides. *)
Lemma sanitizers_agree_witness :
  DownloadRoute.sanitizeFilename "My Video: part 1"
  = Client.sanitizeFilename "My Video: part 1".
Proof. apply sanitizers_agree. reflexivity. Defined.

(** ** What the download endpoint streams *)

Lemma filter_head_elem {A} (P : A -> bool) (l : list A) x rest :
  List.filter P l = x :: rest -> x ∈ l /\ P x = true.
Proof.
  intros H. assert (Hin : In x (List.filter P l)) by (rewrite H; by left).
  apply filter_In in Hin as [Hin HP]. split; [by apply list_elem_of_In | done].
Qed.

Lemma deliver_stream tempDir filename stderr server path ct cd len :
  (DownloadRoute.deliver tempDir filename stderr server).1
  = DownloadRoute.FileStream path ct cd len ->
  exists name,
    name ∈ map fst (DownloadRoute.tempFiles server) /\
    Js.includes filename name = true /\
    path = DownloadRoute.join tempDir name /\
    ct = DownloadRoute.getContentType (DownloadRoute.fileExtension_of name) /\
    cd = "attachment; filename=" +:+ DownloadRoute.dquote +:+ name
         +:+ DownloadRoute.dquote /\
    len = DownloadRoute.statSync_size (DownloadRoute.tempFiles server) name /\
    (DownloadRoute.deliver tempDir filename stderr server).2
    = DownloadRoute.MkServer (DownloadRoute.downloadRateLimitMap server)
        (DownloadRoute.tempFiles server) (DownloadRoute.executed server)
        (path :: DownloadRoute.cleanups server).
Proof.
  unfold DownloadRoute.deliver.
  destruct (Js.nonempty stderr && Js.includes "ERROR" stderr); [done|].
  destruct (List.filter _ _) as [|name rest] eqn:Hfound; [done|].
  apply filter_head_elem in Hfound as [Hin Hinc].
  destruct (negb (DownloadRoute.existsSync _ _)); [done|].
  destruct (DownloadRoute.maxFileSize <? _); [done|].
  intros [= <- <- <- <-]. by exists name.
Qed.




(** ** The command line of a download *)





(** ** The clean-up triggers *)

Lemma unlinkSync_absent dir name :
  DownloadRoute.existsSync dir name = false -> DownloadRoute.unlinkSync dir name = dir.
Proof.
  unfold DownloadRoute.existsSync, DownloadRoute.unlinkSync.
  induction dir as [|f dir IH]; [done|]. cbn [existsb List.filter].
  intros [Hf Hdir]%orb_false_elim. rewrite Hf. cbn [negb]. by rewrite IH.
Qed.

Lemma cleanup_unlinks name dir :
  TempFiles.cleanup name dir = (DownloadRoute.unlinkSync dir name, false).
Proof.
  unfold TempFiles.cleanup, TempFiles.unlink_or_throw.
  destruct (DownloadRoute.existsSync dir name) eqn:E; [done|].
  by rewrite unlinkSync_absent.
Qed.

Lemma unlinkSync_filter (P : string * Z -> bool) dir name :
  DownloadRoute.unlinkSync (List.filter P dir) name
  = List.filter (fun f => P f && negb (String.eqb f.1 name)) dir.
Proof.
  unfold DownloadRoute.unlinkSync.
  induction dir as [|f dir IH]; [done|]. cbn [List.filter].
  destruct (P f); cbn [List.filter andb]; rewrite IH; done.
Qed.

(** X11. However many clean-up triggers fire, for whichever files and
    in whatever order, [unlinkSync] is never called for a file that is
    not there (so the [catch] is not entered for a missing file), the
    files named are gone and every other file is left as it was; a
    trigger that fires after another one for the same file changes
    nothing. *)
Theorem cleanup_triggers (names : list string) (dir : DownloadRoute.Directory) :
  (TempFiles.fire names dir).2 = false /\
  (TempFiles.fire names dir).1
  = List.filter (fun f => negb (Js.array_includes names f.1)) dir /\
  (forall name, In name names ->
     DownloadRoute.existsSync (TempFiles.fire names dir).1 name = false /\
     TempFiles.fire (names ++ [name]) dir = TempFiles.fire names dir).
Proof.
  assert (Hfire : forall names dir,
            TempFiles.fire names dir
            = (List.filter (fun f => negb (Js.array_includes names f.1)) dir, false)).
  { clear. induction names as [|n names IH]; intros dir.
    - cbn. f_equal. induction dir as [|f dir IHd]; [done|]. cbn. by rewrite <- IHd.
    - cbn [TempFiles.fire]. rewrite cleanup_unlinks, IH. f_equal.
      unfold DownloadRoute.unlinkSync.
      induction dir as [|f dir IHd]; [done|]. cbn [List.filter].
      unfold Js.array_includes at 2. cbn [existsb].
      destruct (String.eqb f.1 n) eqn:E; cbn [negb orb].
      + exact IHd.
      + cbn [List.filter].
        change (existsb (String.eqb f.1) names) with (Js.array_includes names f.1).
        destruct (Js.array_includes names f.1); cbn [negb]; by rewrite IHd. }
  rewrite Hfire. split; [done|]. split; [done|].
  intros name Hin. cbn [fst]. split.
  - unfold DownloadRoute.existsSync.
    induction dir as [|f dir IH]; [done|]. cbn [List.filter].
    destruct (Js.array_includes names f.1) eqn:E; cbn [negb]; [done|].
    cbn [existsb]. rewrite IH, orb_false_r.
    apply String.eqb_neq. intros Heq.
    assert (Js.array_includes names f.1 = true); [|congruence].
    apply array_includes_spec. by rewrite Heq.
  - rewrite Hfire. f_equal.
    induction dir as [|f dir IH]; [done|]. cbn [List.filter]. rewrite IH.
    assert (Js.array_includes (names ++ [name]) f.1 = Js.array_includes names f.1)
      as ->; [|done].
    unfold Js.array_includes. rewrite existsb_app. cbn [existsb].
    rewrite orb_false_r.
    destruct (String.eqb_spec f.1 name) as [Heq|_]; [|apply orb_false_r].
    rewrite orb_true_r. symmetry. apply existsb_exists.
    exists name. split; [done | by apply String.eqb_eq].
Qed.

(** The three triggers of one response, fired on a directory that holds
    its file and another one. *)
Lemma cleanup_triggers_witness :
  TempFiles.fire ["a.mp4"; "a.mp4"; "a.mp4"] [("a.mp4", 10); ("b.mp4", 20)]
  = ([("b.mp4", 20)], false).
Proof.
  destruct (cleanup_triggers ["a.mp4"; "a.mp4"] [("a.mp4", 10); ("b.mp4", 20)])
    as (_ & _ & H).
  change (TempFiles.fire (["a.mp4"; "a.mp4"] ++ ["a.mp4"])
            [("a.mp4", 10); ("b.mp4", 20)] = ([("b.mp4", 20)], false)).
  destruct (H "a.mp4") as [_ ->]; [by left | reflexivity].
Defined.

(** ** From the streamed file to the saved one *)

Lemma known_content_type fileExtension :
  is_Some (DownloadRoute.contentTypes !! Js.toLowerCase fileExtension) ->
  let ct := DownloadRoute.getContentType fileExtension in
  Js.nonempty ct = true /\
  Js.includes "video" ct || Js.includes "audio" ct = true.
Proof.
  intros [v Hv] ct. unfold ct, DownloadRoute.getContentType. rewrite Hv. cbn [default].
  unfold DownloadRoute.contentTypes in Hv.
  apply elem_of_list_to_map_2 in Hv.
  repeat (apply elem_of_cons in Hv as [[= _ ->]|Hv]; [by vm_compute|]).
  by apply not_elem_of_nil in Hv.
Qed.

Lemma substring_all s : String.substring 0 (String.length s) s = s.
Proof. induction s as [|c s IH]; [done|]. cbn. by rewrite IH. Qed.

Lemma after_first_unfold sep s :
  Client.after_first sep s
  = if String.prefix sep s
    then Some (String.substring (String.length sep)
                                (String.length s - String.length sep) s)
    else match s with
         | EmptyString => None
         | String _ rest => Client.after_first sep rest
         end.
Proof. by destruct s. Qed.

Lemma before_first_unfold sep s :
  Client.before_first sep s
  = if String.prefix sep s then EmptyString
    else match s with
         | EmptyString => EmptyString
         | String c rest => String c (Client.before_first sep rest)
         end.
Proof. by destruct s. Qed.

Lemma after_first_disposition rest :
  Client.after_first "filename=" ("attachment; filename=" +:+ rest) = Some rest.
Proof.
  change ("attachment; filename=" +:+ rest)
    with ("attachment; " +:+ ("filename=" +:+ rest)).
  assert (Htail : Client.after_first "filename=" ("filename=" +:+ rest) = Some rest).
  { rewrite after_first_unfold.
    assert (String.prefix "filename=" ("filename=" +:+ rest) = true) as ->.
    { apply prefix_spec. by exists rest. }
    rewrite !append_cons, append_nil. cbn [String.length Nat.sub String.substring].
    by rewrite Nat.sub_0_r, substring_all. }
  revert Htail. generalize ("filename=" +:+ rest). intros tail Htail.
  rewrite !append_cons, append_nil.
  do 12 (rewrite after_first_unfold, prefix_cons_cons;
         destruct (Ascii.ascii_dec _ _) as [Habs|_]; [discriminate Habs|]).
  exact Htail.
Qed.

Lemma before_first_absent sep : forall s,
  Js.includes sep s = false -> Client.before_first sep s = s.
Proof.
  induction s as [|c s IH]; rewrite includes_unfold, before_first_unfold;
    intros [-> Hs]%orb_false_elim; [done|]. by rewrite IH.
Qed.

(** A text that does not hold the quote is a prefix of [s] followed by
    a quote only if it is one of [s]. *)
Lemma prefix_before_quote p : forall s,
  p <> EmptyString -> Js.all_chars (fun c => negb (Client.is_dquote c)) p = true ->
  String.prefix p (s +:+ DownloadRoute.dquote) = String.prefix p s.
Proof.
  induction p as [|c p IH]; intros s Hne Hp; [done|].
  cbn [Js.all_chars] in Hp. apply andb_prop in Hp as [Hc Hp].
  destruct s as [|c' s].
  - rewrite append_nil, prefix_cons_nil. unfold DownloadRoute.dquote.
    rewrite prefix_cons_cons. destruct (Ascii.ascii_dec _ _) as [->|_]; [done|done].
  - rewrite append_cons, !prefix_cons_cons.
    destruct (Ascii.ascii_dec c c'); [|done].
    destruct p as [|c'' p]; [by rewrite !prefix_nil|]. by apply IH.
Qed.

Lemma includes_before_quote p : forall s,
  p <> EmptyString -> Js.all_chars (fun c => negb (Client.is_dquote c)) p = true ->
  Js.includes p (s +:+ DownloadRoute.dquote) = Js.includes p s.
Proof.
  intros s Hne Hp. induction s as [|c s IH].
  - rewrite append_nil. destruct p as [|c p]; [done|].
    cbn [Js.all_chars] in Hp. apply andb_prop in Hp as [Hc Hp].
    unfold DownloadRoute.dquote. cbn [Js.includes].
    rewrite prefix_cons_cons, prefix_cons_nil.
    destruct (Ascii.ascii_dec _ _) as [->|_]; done.
  - rewrite append_cons, (includes_unfold p (String c s)),
      (includes_unfold p (String c (s +:+ _))), IH.
    by rewrite <- append_cons, prefix_before_quote.
Qed.

Lemma remove_app class s t :
  Js.remove class (s +:+ t) = Js.remove class s +:+ Js.remove class t.
Proof.
  induction s as [|c s IH]; [done|]. rewrite append_cons. cbn [Js.remove].
  destruct (class c); [done|]. by rewrite append_cons, IH.
Qed.

Lemma disposition_round_trip name :
  Js.includes "filename=" name = false ->
  Client.disposition_filename
    ("attachment; filename=" +:+ DownloadRoute.dquote +:+ name +:+ DownloadRoute.dquote)
  = Some (Js.remove Client.is_dquote name).
Proof.
  intros Hname. unfold Client.disposition_filename.
  rewrite after_first_disposition. f_equal.
  rewrite before_first_absent.
  - rewrite !remove_app. unfold DownloadRoute.dquote.
    cbn [Js.remove]. change (Client.is_dquote (ascii_of_nat 34)) with true.
    cbn. by rewrite append_nil_r.
  - unfold DownloadRoute.dquote at 1. rewrite append_cons, append_nil.
    rewrite includes_unfold, prefix_cons_cons.
    destruct (Ascii.ascii_dec _ _) as [Habs|_]; [discriminate Habs|].
    cbn [orb]. by rewrite includes_before_quote.
Qed.

Lemma POST_stream_headers env tool now request server path ct cd len :
  (DownloadRoute.POST env tool now request server).1
  = DownloadRoute.FileStream path ct cd len ->
  exists name,
    path = DownloadRoute.join (DownloadRoute.getTempDir env) name /\
    ct = DownloadRoute.getContentType (DownloadRoute.fileExtension_of name) /\
    cd = "attachment; filename=" +:+ DownloadRoute.dquote +:+ name
         +:+ DownloadRoute.dquote.
Proof.
  unfold DownloadRoute.POST.
  destruct (RateLimit.checkDownloadRateLimit _ _ _) as [ok limits].
  destruct ok; cbn [negb]; [|done].
  destruct (DownloadRoute.body request) as [| |url formatId title channel]; try done.
  destruct url as [|url|]; try done.
  destruct (Js.nonempty url); cbn [negb]; [|done].
  destruct formatId as [|formatId|]; try done.
  destruct (Js.nonempty formatId); cbn [negb]; [|done].
  destruct (DownloadRoute.validateFormatId formatId); cbn [negb]; [|done].
  destruct (DownloadRoute.or_default title "video") as [t|]; [|done].
  destruct (DownloadRoute.or_default channel "unknown") as [c|]; [|done].
  unfold DownloadRoute.download.
  destruct (tool _ _ _) as [result files].
  destruct result as [stdout stderr|[]]; try done.
  intros (name & _ & _ & -> & -> & -> & _)%deliver_stream. by exists name.
Qed.

(** X12. A file that the download endpoint streams, once it has arrived
    in full, is saved by the client exactly when its extension is one of
    the ten of the server's table and it is not empty: then the promise
    resolves and the browser saves it once, under the name of the
    server's entry without its double quotes (for a name that does not
    hold the text [filename=]).  An empty file is rejected as
    [Downloaded file is empty]. *)
Theorem streamed_file_saved (env : DownloadRoute.Env) (tool : DownloadRoute.Tool)
  (now : Z) (request : DownloadRoute.Request) (server : DownloadRoute.Server)
  (path ct cd : string) (len : Z) (title channel : string) :
  (DownloadRoute.POST env tool now request server).1
  = DownloadRoute.FileStream path ct cd len ->
  exists name,
    path = DownloadRoute.join (DownloadRoute.getTempDir env) name /\
    let known :=
      is_Some (DownloadRoute.contentTypes
                 !! Js.toLowerCase (DownloadRoute.fileExtension_of name)) in
    let outcome := Client.on_load title channel (Client.received_file ct cd len) in
    (outcome.1 = Client.Resolved <-> known /\ len <> 0) /\
    (known -> len = 0 ->
     outcome = (Client.Rejected "Downloaded file is empty" 500, [])) /\
    (known -> len <> 0 -> Js.includes "filename=" name = false ->
     outcome = (Client.Resolved, [Some (Js.remove Client.is_dquote name)])).
Proof.
  intros (name & -> & -> & ->)%POST_stream_headers. exists name. split; [done|].
  intros known outcome.
  assert (Hunknown : ~ known -> outcome.1 <> Client.Resolved).
  { intros Hk. unfold outcome, Client.on_load, Client.received_file.
    cbn [Client.status Client.content_type].
    change ((200 <=? 200) && (200 <? 300)) with true. cbn iota.
    unfold DownloadRoute.getContentType.
    destruct (DownloadRoute.contentTypes
                !! Js.toLowerCase (DownloadRoute.fileExtension_of name)) eqn:E.
    - destruct Hk. unfold known. rewrite ?E. by eexists.
    - by cbn. }
  assert (Hknown : known ->
    outcome = if len =? 0 then (Client.Rejected "Downloaded file is empty" 500, [])
              else (Client.Resolved,
                    [Client.disposition_filename
                       ("attachment; filename=" +:+ DownloadRoute.dquote +:+ name
                        +:+ DownloadRoute.dquote)])).
  { intros Hk. destruct (known_content_type _ Hk) as [Hne Hinc].
    unfold outcome, Client.on_load, Client.received_file.
    cbn [Client.status Client.content_type Client.blob_size Client.content_disposition].
    change ((200 <=? 200) && (200 <? 300)) with true. cbn iota.
    rewrite Hne. cbn [negb orb].
    apply orb_prop in Hinc.
    assert (negb (Js.includes "video" (DownloadRoute.getContentType
                                          (DownloadRoute.fileExtension_of name)))
            && negb (Js.includes "audio" (DownloadRoute.getContentType
                                            (DownloadRoute.fileExtension_of name)))
            = false) as ->.
    { destruct Hinc as [-> | ->]; [done | by rewrite andb_false_r]. }
    destruct (len =? 0); [done|]. done. }
  split; [|split].
  - split.
    + intros Hres. destruct (decide known) as [Hk|Hk]; [|by destruct (Hunknown Hk)].
      split; [done|]. intros ->. rewrite (Hknown Hk) in Hres. discriminate Hres.
    + intros [Hk Hlen]. rewrite (Hknown Hk).
      by destruct (Z.eqb_spec len 0).
  - intros Hk ->. by rewrite (Hknown Hk).
  - intros Hk Hlen Hname. rewrite (Hknown Hk).
    destruct (Z.eqb_spec len 0); [done|]. by rewrite disposition_round_trip.
Qed.

(** The file of 1000 bytes that the tool left is saved under its name. *)
Lemma streamed_file_saved_witness :
  let cd := "attachment; filename=" +:+ DownloadRoute.dquote
            +:+ "video - unknown.mp4" +:+ DownloadRoute.dquote in
  Client.on_load "A title" "A channel" (Client.received_file "video/mp4" cd 1000)
  = (Client.Resolved, [Some "video - unknown.mp4"]).
Proof.
  intros cd.
  pose (request :=
    DownloadRoute.MkRequest (Some "10.0.0.1")
      (DownloadRoute.Fields (DownloadRoute.JString "https://youtu.be/abc123")
                            (DownloadRoute.JString "18")
                            DownloadRoute.JUndefined DownloadRoute.JUndefined)).
  pose (tool := (fun _ _ files =>
      (DownloadRoute.Exited EmptyString EmptyString,
       ("video - unknown.mp4", 1000) :: files)) : DownloadRoute.Tool).
  assert (Hr : (DownloadRoute.POST (DownloadRoute.MkEnv true "/var/tmp") tool 1000
                  request (DownloadRoute.MkServer ∅ [] [] [])).1
               = DownloadRoute.FileStream "/tmp/video - unknown.mp4" "video/mp4" cd 1000)
    by (vm_compute; reflexivity).
  destruct (streamed_file_saved _ _ _ _ _ _ _ _ _ "A title" "A channel" Hr)
    as (name & Hpath & _ & _ & H).
  vm_compute in Hpath. injection Hpath as <-.
  apply H; [by eexists | lia | reflexivity].
Defined.

(** ** The queue of the form, in every reachable state *)





(** ** When the queue moves on *)

Lemma processQueue_progress s :
  Queue.Inv s ->
  (Queue.processQueue (Queue.activeDownloads s) s = s /\
   (Queue.downloadQueue s = [] \/ Queue.activeDownloads s = 1)) \/
  exists h rest signal,
    Queue.activeDownloads s = 0 /\ Queue.downloadQueue s = h :: rest /\
    Queue.processQueue (Queue.activeDownloads s) s = Queue.take_slot h signal rest s.
Proof.
  intros HI.
  pose proof (Queue.slot_count s HI) as Hslot.
  destruct (processQueue_cases s HI) as [Hsame|(h & rest & signal & Hnone & Hq & Hp)].
  - left. split; [done|].
    destruct (transfers_cases s HI) as [Hnone|[t Ht]].
    + destruct (Queue.downloadQueue s) as [|h rest] eqn:Hq; [by left|]. exfalso.
      destruct (processQueue_cases s HI) as [_|(h' & rest' & sg & _ & _ & Hp)].
      * destruct (queue_head_item s h rest HI Hq)
          as (d & Hfind & Hst & (Hid & Hurl & Hfmt) & Hidh).
        assert (Hzero : Queue.activeDownloads s = 0) by (by rewrite Hslot, Hnone).
        revert Hsame. unfold Queue.processQueue. rewrite Hzero, Hq.
        cbn [Queue.downloads].
        change (Queue.MAX_CONCURRENT_DOWNLOADS <=? 0) with false. cbn iota.
        rewrite Hfind, <- Hidh, Hid, Hst, Hurl, Hfmt. cbn [negb orb].
        rewrite bool_decide_eq_true_2 by done. cbn [negb].
        intros Habs. apply (f_equal Queue.activeDownloads) in Habs.
        cbn in Habs. lia.
      * rewrite Hp in Hsame. apply (f_equal Queue.activeDownloads) in Hsame.
        cbn in Hsame. lia.
    + right. rewrite Hslot, Ht. done.
  - right. exists h, rest, signal. split; [by rewrite Hslot, Hnone | done].
Qed.

Lemma commit_moves_on prev next :
  Queue.Inv next -> Queue.deps_changed prev next = true ->
  Queue.downloadQueue (Queue.commit prev next) = [] \/
  Queue.activeDownloads (Queue.commit prev next) = 1.
Proof.
  intros HI Hdeps. unfold Queue.commit. cbn [Nat.add Queue.effects]. rewrite Hdeps.
  assert (Hsame : forall s, Queue.deps_changed s s = false).
  { intros s. unfold Queue.deps_changed. by rewrite Z.eqb_refl, Nat.eqb_refl. }
  destruct (processQueue_progress next HI)
    as [[-> Hdone]|(h & rest & signal & Hfree & Hq & ->)].
  - cbn [Queue.effects]. by rewrite Hsame.
  - right. rewrite Hq. cbn [length Queue.effects].
    assert (Queue.deps_changed next (Queue.take_slot h signal rest next) = true) as ->.
    { unfold Queue.deps_changed. cbn. rewrite Hfree. done. }
    assert (Queue.processQueue
              (Queue.activeDownloads (Queue.take_slot h signal rest next))
              (Queue.take_slot h signal rest next)
            = Queue.take_slot h signal rest next) as ->.
    { unfold Queue.processQueue. cbn [Queue.take_slot Queue.activeDownloads].
      rewrite Hfree. done. }
    rewrite Hsame. cbn. lia.
Qed.

(** X14. A request for a download, and the end of a transfer, never
    leave an item waiting beside a free slot: in the state that follows,
    the pending queue is empty or the slot is taken. *)
Theorem queue_moves_on (s : Queue.State) (e : Queue.Event) :
  Queue.reachable s -> Queue.offered s e ->
  (exists x t c f u i, e = Queue.Download x t c f u i) \/
  (exists x o, e = Queue.Settled x o) ->
  Queue.downloadQueue (Queue.react s e) = [] \/
  Queue.activeDownloads (Queue.react s e) = 1.
Proof.
  intros HI%reachable_inv Hoff [(x & t & c & f & u & i & ->)|(x & o & ->)];
    cbn [Queue.react].
  - apply commit_moves_on; [by apply handleDownload_inv|].
    unfold Queue.deps_changed. cbn.
    destruct (Nat.eqb_spec (length (Queue.downloads s)) (S (length (Queue.downloads s))));
      [lia | apply orb_true_r].
  - cbn in Hoff. destruct (Queue.transfer_of x s) as [tr|] eqn:Htr.
    + apply commit_moves_on.
      * apply (transfer_of_spec s x tr HI) in Htr as [Htr _]. by apply settle_inv.
      * unfold Queue.deps_changed. cbn.
        destruct (Z.eqb_spec (Queue.activeDownloads s) (Queue.activeDownloads s - 1));
          [lia | done].
    + exfalso. unfold Queue.transfer_of in Htr.
      apply list_elem_of_fmap in Hoff as (tr & -> & Hin).
      apply list_elem_of_In in Hin.
      apply (find_none _ _ Htr) in Hin. by rewrite String.eqb_refl in Hin.
Qed.

(** Two requests, then the first transfer ends: the second item takes
    the slot in that turn. *)
Lemma queue_moves_on_witness :
  let D := fun x => Queue.Download x "title" "channel" "720p (MP4)"
                                   "https://youtu.be/abc123" "22" in
  let s := Queue.react (Queue.react Queue.initial (D "A")) (D "B") in
  Queue.downloadQueue (Queue.react s (Queue.Settled "A" Queue.Succeeded)) = [] \/
  Queue.activeDownloads (Queue.react s (Queue.Settled "A" Queue.Succeeded)) = 1.
Proof.
  intros D s. apply queue_moves_on.
  - apply Queue.reachable_react.
    + apply Queue.reachable_react; [constructor|].
      split; [apply not_elem_of_nil | done].
    + split; [|done]. intros Hin. apply list_elem_of_singleton in Hin. discriminate Hin.
  - cbn. apply list_elem_of_singleton. reflexivity.
  - right. by exists "A", Queue.Succeeded.
Defined.

(** X15. A retry only puts the item back in line: it becomes queued
    with a fresh controller and its identifier joins the end of the
    pending queue, but [processQueue] does not run in that turn, since
    neither dependency of its effect changes.  No request is sent and
    the slot is left as it was, also when it is free. *)
Theorem retry_only_queues (s : Queue.State) (x : string) :
  Queue.reachable s -> Queue.offered s (Queue.Retry x) ->
  let s' := Queue.react s (Queue.Retry x) in
  Queue.status_of s' x = Some Queue.queued /\
  Queue.downloadQueue s' = Queue.downloadQueue s ++ [x] /\
  Queue.requests s' = Queue.requests s /\
  Queue.transfers s' = Queue.transfers s /\
  Queue.activeDownloads s' = Queue.activeDownloads s /\
  (forall y, y <> x -> Queue.status_of s' y = Queue.status_of s y).
Proof.
  intros HI%reachable_inv (st & Hst & Hoff) s'.
  assert (Hs' : s' = Queue.handleRetryDownload x s).
  { unfold s'. cbn [Queue.react]. apply deps_same_commit.
    - unfold Queue.handleRetryDownload. by destruct (Queue.find_download _ _).
    - unfold Queue.handleRetryDownload.
      destruct (Queue.find_download _ _); [|done]. cbn. by rewrite length_update. }
  rewrite Hs'. unfold Queue.handleRetryDownload.
  unfold Queue.status_of in Hst.
  destruct (Queue.find_download x (Queue.downloads s)) as [d|] eqn:Hfind; [|done].
  cbn [Queue.downloadQueue Queue.requests Queue.transfers Queue.activeDownloads].
  split.
  { unfold Queue.status_of. cbn [Queue.downloads].
    rewrite find_download_update by done. rewrite Hfind. cbn.
    apply find_download_spec in Hfind as [_ ->]. by rewrite String.eqb_refl. }
  do 4 (split; [done|]).
  intros y Hy. unfold Queue.status_of. cbn [Queue.downloads].
  rewrite find_download_update by done.
  destruct (Queue.find_download y (Queue.downloads s)) as [d'|] eqn:Hfy; [|done].
  cbn. apply find_download_spec in Hfy as [_ Hidy].
  destruct (String.eqb_spec (Queue.id d') x); [congruence | done].
Qed.

(** The only download has failed; its retry leaves it queued beside a
    free slot, and no second request is sent. *)
Lemma retry_only_queues_witness :
  let D := Queue.Download "A" "title" "channel" "720p (MP4)"
                          "https://youtu.be/abc123" "22" in
  let s := Queue.react (Queue.react Queue.initial D)
             (Queue.Settled "A" (Queue.ApiError "Download failed" 500)) in
  let s' := Queue.react s (Queue.Retry "A") in
  Queue.status_of s' "A" = Some Queue.queued /\
  Queue.activeDownloads s' = 0 /\ Queue.requests s' = ["A"].
Proof.
  intros D s s'.
  assert (Hs : Queue.reachable s).
  { apply Queue.reachable_react.
    - apply Queue.reachable_react; [constructor|].
      split; [apply not_elem_of_nil | done].
    - cbn. apply list_elem_of_singleton. reflexivity. }
  assert (Hoff : Queue.offered s (Queue.Retry "A")).
  { exists Queue.error. split; reflexivity. }
  destruct (retry_only_queues s "A" Hs Hoff) as (Hst & _ & Hreq & _ & Hact & _).
  split; [exact Hst|]. split; [exact Hact | exact Hreq].
Defined.

(** ** Clearing the completed items *)

Lemma commit_cases prev next :
  Queue.Inv next ->
  Queue.commit prev next = next \/
  exists h rest signal,
    Queue.downloadQueue next = h :: rest /\
    Queue.commit prev next = Queue.take_slot h signal rest next.
Proof.
  intros HI. unfold Queue.commit. cbn [Nat.add Queue.effects].
  destruct (Queue.deps_changed prev next); [|by left].
  assert (Hsame : forall s, Queue.deps_changed s s = false).
  { intros s. unfold Queue.deps_changed. by rewrite Z.eqb_refl, Nat.eqb_refl. }
  destruct (processQueue_progress next HI)
    as [[-> Hdone]|(h & rest & signal & Hfree & Hq & ->)].
  - left. cbn [Queue.effects]. by rewrite Hsame.
  - right. exists h, rest, signal. split; [done|].
    rewrite Hq. cbn [length Queue.effects].
    destruct (Queue.deps_changed next _); [|done].
    assert (Queue.processQueue
              (Queue.activeDownloads (Queue.take_slot h signal rest next))
              (Queue.take_slot h signal rest next)
            = Queue.take_slot h signal rest next) as ->.
    { unfold Queue.processQueue. cbn [Queue.take_slot Queue.activeDownloads].
      rewrite Hfree. done. }
    by rewrite Hsame.
Qed.

Lemma has_status_elem ds x :
  x ∈ map Queue.id ds -> exists st, Queue.has_status ds x st.
Proof.
  intros (d & -> & Hd)%list_elem_of_fmap. exists (Queue.status d). by exists d.
Qed.

Lemma status_of_None s x :
  NoDup (map Queue.id (Queue.downloads s)) ->
  (forall st, ~ Queue.has_status (Queue.downloads s) x st) ->
  Queue.status_of s x = None.
Proof.
  intros Hnd Hno. destruct (Queue.status_of s x) as [st|] eqn:E; [|done].
  apply status_of_spec in E; [|done]. by destruct (Hno st).
Qed.

(** X16. Clearing removes exactly the completed items: afterwards no
    item is completed, the items that were completed are gone, and every
    other item is still there with the status it had, except that the
    item at the head of the pending queue may have been started in that
    turn. *)
Theorem clear_completed (s : Queue.State) :
  Queue.reachable s ->
  let s' := Queue.react s Queue.ClearCompleted in
  (forall x, Queue.status_of s' x <> Some Queue.completed) /\
  (forall x, Queue.status_of s x = Some Queue.completed -> Queue.status_of s' x = None) /\
  (forall x, Queue.status_of s x = None -> Queue.status_of s' x = None) /\
  (forall x st,
     Queue.status_of s x = Some st -> st <> Queue.completed ->
     Queue.status_of s' x = Some st \/
     (st = Queue.queued /\ Queue.status_of s' x = Some Queue.preparing)).
Proof.
  intros HI%reachable_inv s'.
  pose proof (handleClearCompleted_inv s HI) as HIn.
  assert (HI' : Queue.Inv s').
  { apply react_inv; [done | exact I]. }
  pose proof (Queue.ids_nodup s HI) as Hnd.
  pose proof (Queue.ids_nodup s' HI') as Hnd'.
  set (cleared := List.filter
                    (fun d => negb (bool_decide (Queue.status d = Queue.completed)))
                    (Queue.downloads s)).
  assert (Hpres : forall d, Queue.id (Queue.with_status Queue.preparing d) = Queue.id d)
    by done.
  (* what the list of the next state is *)
  assert (Hcases :
    Queue.downloads s' = cleared \/
    exists h, Queue.has_status cleared h Queue.queued /\
      Queue.downloads s'
      = Queue.update h (Queue.with_status Queue.preparing) cleared).
  { unfold s'. cbn [Queue.react].
    destruct (commit_cases s (Queue.handleClearCompleted s) HIn)
      as [->|(h & rest & signal & Hq & ->)]; [by left|].
    right. exists h. split; [|done].
    apply (Queue.queue_iff _ HIn). rewrite Hq. left. }
  (* an item of the next state comes from one that was not completed *)
  assert (Hfrom : forall x st', Queue.has_status (Queue.downloads s') x st' ->
            st' <> Queue.completed /\
            exists st, Queue.has_status (Queue.downloads s) x st /\ st <> Queue.completed).
  { intros x st' Hst'. destruct Hcases as [Heq|(h & Hh & Heq)]; rewrite Heq in Hst'.
    - apply has_status_clear in Hst' as [Hst' Hne]. split; [done|]. by exists st'.
    - destruct (decide (x = h)) as [->|Hne].
      + apply (has_status_update_eq h _ _ Queue.preparing) in Hst' as [-> Hin]; try done.
        split; [done|]. exists Queue.queued.
        apply has_status_clear in Hh as [Hh _]. done.
      + apply has_status_update_ne in Hst'; try done.
        apply has_status_clear in Hst' as [Hst' Hc]. split; [done|]. by exists st'. }
  split; [|split; [|split]].
  - intros x Hx. apply status_of_spec in Hx; [|done].
    by destruct (Hfrom x _ Hx) as [? _].
  - intros x Hx. apply status_of_spec in Hx; [|done].
    apply status_of_None; [done|]. intros st' Hst'.
    destruct (Hfrom x _ Hst') as (_ & st & Hst & Hne).
    by rewrite (has_status_fun _ _ _ _ Hnd Hst Hx) in Hne.
  - intros x Hx. apply status_of_None; [done|]. intros st' Hst'.
    destruct (Hfrom x _ Hst') as (_ & st & Hst & _).
    apply status_of_spec in Hst; [|done]. congruence.
  - intros x st Hx Hne. apply status_of_spec in Hx; [|done].
    assert (Hc : Queue.has_status cleared x st) by (by apply has_status_clear).
    destruct Hcases as [Heq|(h & Hh & Heq)].
    + left. apply status_of_spec; [done|]. by rewrite Heq.
    + destruct (decide (x = h)) as [->|Hxh].
      * right.
        assert (Hndc : NoDup (map Queue.id cleared)) by apply (Queue.ids_nodup _ HIn).
        split; [apply (has_status_fun _ _ _ _ Hndc Hc Hh)|].
        apply status_of_spec; [done|]. rewrite Heq.
        apply (has_status_update_eq h _ _ Queue.preparing); try done.
        split; [done|]. by eapply has_status_id.
      * left. apply status_of_spec; [done|]. rewrite Heq.
        by apply has_status_update_ne.
Qed.

(** A download has completed and is cleared. *)
Lemma clear_completed_witness :
  let D := Queue.Download "A" "title" "channel" "720p (MP4)"
                          "https://youtu.be/abc123" "22" in
  let s := Queue.react (Queue.react Queue.initial D)
             (Queue.Settled "A" Queue.Succeeded) in
  Queue.status_of (Queue.react s Queue.ClearCompleted) "A" = None.
Proof.
  intros D s.
  assert (Hs : Queue.reachable s).
  { apply Queue.reachable_react.
    - apply Queue.reachable_react; [constructor|].
      split; [apply not_elem_of_nil | done].
    - cbn. apply list_elem_of_singleton. reflexivity. }
  destruct (clear_completed s Hs) as (_ & H & _).
  apply H. reflexivity.
Defined.

(** ** The pattern of the form *)

Lemma substring_app p : forall r,
  String.substring (String.length p) (String.length (p +:+ r) - String.length p)
                   (p +:+ r) = r.
Proof.
  induction p as [|c p IH]; intros r.
  - rewrite append_nil. cbn [String.length]. by rewrite Nat.sub_0_r, substring_all.
  - rewrite append_cons. cbn [String.length Nat.sub String.substring]. apply IH.
Qed.

Lemma strip_prefix_app p r : UrlValidation.strip_prefix p (p +:+ r) = Some r.
Proof.
  unfold UrlValidation.strip_prefix.
  assert (String.prefix p (p +:+ r) = true) as ->.
  { apply prefix_spec. by exists r. }
  by rewrite substring_app.
Qed.

Lemma strip_prefix_None p s :
  String.prefix p s = false -> UrlValidation.strip_prefix p s = None.
Proof. unfold UrlValidation.strip_prefix. by intros ->. Qed.

Lemma strip_prefix_Some p s r :
  UrlValidation.strip_prefix p s = Some r -> s = p +:+ r.
Proof.
  unfold UrlValidation.strip_prefix.
  destruct (String.prefix p s) eqn:E; [|done].
  apply prefix_spec in E as [rest ->]. rewrite substring_app. congruence.
Qed.

Local Ltac strip_step :=
  match goal with
  | |- context [UrlValidation.strip_prefix ?p ?s] =>
      first [ rewrite (strip_prefix_app p)
            | rewrite (strip_prefix_None p s) by reflexivity ]
  end; cbv beta iota.

(** X17. The submit button's pattern accepts exactly the texts made of
    an optional [http://] or [https://], an optional [www.], the host
    [youtube.com] or [youtu.be], a slash and at least one character
    that is no line terminator. *)
Theorem isValidYouTubeUrl_exact (url : string) :
  Form.isValidYouTubeUrl url = true <-> Form.matches_pattern url.
Proof.
  split.
  - unfold Form.isValidYouTubeUrl, Form.drop_prefix. intros H.
    set (after_scheme :=
           match UrlValidation.strip_prefix "https://" url with
           | Some rest => rest
           | None => match UrlValidation.strip_prefix "http://" url with
                     | Some rest => rest
                     | None => url
                     end
           end) in *.
    assert (Hscheme : exists scheme,
              In scheme [EmptyString; "http://"; "https://"] /\
              url = scheme +:+ after_scheme).
    { unfold after_scheme.
      destruct (UrlValidation.strip_prefix "https://" url) as [r|] eqn:E1.
      - exists "https://". split; [cbn; tauto | by apply strip_prefix_Some].
      - destruct (UrlValidation.strip_prefix "http://" url) as [r|] eqn:E2.
        + exists "http://". split; [cbn; tauto | by apply strip_prefix_Some].
        + exists EmptyString. split; [cbn; tauto | done]. }
    clearbody after_scheme. destruct Hscheme as (scheme & Hscheme & ->).
    set (after_www :=
           match UrlValidation.strip_prefix "www." after_scheme with
           | Some rest => rest
           | None => after_scheme
           end) in *.
    assert (Hwww : exists www, In www [EmptyString; "www."] /\
                               after_scheme = www +:+ after_www).
    { unfold after_www.
      destruct (UrlValidation.strip_prefix "www." after_scheme) as [r|] eqn:E.
      - exists "www.". split; [cbn; tauto | by apply strip_prefix_Some].
      - exists EmptyString. split; [cbn; tauto | done]. }
    clearbody after_www. destruct Hwww as (www & Hwww & ->).
    assert (Hhost : exists host tail,
              In host ["youtube.com"; "youtu.be"] /\ after_www = host +:+ tail /\
              match tail with
              | String slash (String c _) =>
                  (Js.code slash =? 47)%nat && negb (Form.is_line_terminator c)
              | _ => false
              end = true).
    { destruct (UrlValidation.strip_prefix "youtube.com" after_www) as [r|] eqn:E1.
      - exists "youtube.com", r. split; [cbn; tauto|].
        split; [by apply strip_prefix_Some | done].
      - destruct (UrlValidation.strip_prefix "youtu.be" after_www) as [r|] eqn:E2; [|done].
        exists "youtu.be", r. split; [cbn; tauto|].
        split; [by apply strip_prefix_Some | done]. }
    destruct Hhost as (host & tail & Hhost & -> & Htail).
    destruct tail as [|slash [|c rest]]; try done.
    apply andb_prop in Htail as [Hslash Hc].
    apply Nat.eqb_eq in Hslash. apply negb_true_iff in Hc.
    assert (slash = "/"%char) as ->.
    { rewrite <- (ascii_nat_embedding slash). unfold Js.code in Hslash.
      by rewrite Hslash. }
    exists scheme, www, host, c, rest. done.
  - intros (scheme & www & host & c & rest & Hscheme & Hwww & Hhost & Hc & ->).
    cbn [In] in Hscheme, Hwww, Hhost.
    destruct Hscheme as [<-|[<-|[<-|[]]]];
      destruct Hwww as [<-|[<-|[]]];
      destruct Hhost as [<-|[<-|[]]];
      rewrite ?append_nil;
      unfold Form.isValidYouTubeUrl, Form.drop_prefix;
      repeat strip_step;
      rewrite append_cons, append_nil; cbv beta iota;
      by rewrite Hc.
Qed.

(** X18. The form never lets a link to the mobile host through: for a
    text that starts with the host [m.youtube.com], with or without a
    scheme, the submit button stays disabled; yet the host is on the
    endpoint's list, which accepts such a link when it has a [/watch]
    path. *)
Theorem mobile_links_kept_out (URL_parse : string -> option UrlValidation.URL)
    (scheme rest : string) (isLoading : bool) :
  In scheme [EmptyString; "http://"; "https://"] ->
  let url := scheme +:+ "m.youtube.com" +:+ rest in
  Form.submit_enabled url isLoading = false /\
  (forall path,
     URL_parse url = Some (UrlValidation.MkURL "m.youtube.com" path) ->
     Js.includes "/watch" path = true ->
     UrlValidation.validateYouTubeUrl URL_parse url = true).
Proof.
  intros Hscheme url. split.
  - unfold Form.submit_enabled.
    assert (Form.isValidYouTubeUrl url = false) as ->;
      [|by rewrite andb_false_r].
    unfold url. cbn [In] in Hscheme.
    destruct Hscheme as [<-|[<-|[<-|[]]]];
      rewrite ?append_nil;
      unfold Form.isValidYouTubeUrl, Form.drop_prefix;
      repeat strip_step; done.
  - intros path Hparse Hwatch. unfold UrlValidation.validateYouTubeUrl.
    rewrite Hparse. cbn. by rewrite Hwatch.
Qed.

(** A mobile watch link: refused by the form, accepted by the endpoint. *)
Lemma mobile_links_kept_out_witness :
  let url := "https://m.youtube.com/watch?v=abc123" in
  Form.submit_enabled url false = false /\
  UrlValidation.validateYouTubeUrl UrlValidation.parse_plain url = true.
Proof.
  intros url.
  destruct (mobile_links_kept_out UrlValidation.parse_plain "https://" "/watch?v=abc123"
              false) as [Hform Hserver]; [cbn; tauto|].
  split; [exact Hform|]. apply (Hserver "/watch"); reflexivity.
Defined.

(** ** What the form shows after a submit *)

(** X19. After a submit that reached the endpoint, the form holds the
    video data exactly when the endpoint sent some, and an error text
    otherwise: the endpoint's own message for the statuses 408 and 500,
    and a text of its own for 400, 404 and 429, whatever the endpoint
    said. *)
Theorem handleSubmit_after_POST (URL_parse : string -> option UrlValidation.URL)
    (JSON_parse : string -> option MetadataRoute.VideoInfo)
    (toFixed1 : Formats.number -> N -> string)
    (Date_short : string -> option string)
    (exec : string -> DownloadRoute.ExecResult)
    (now : Z) (request : MetadataRoute.Request) (server : MetadataRoute.Server) :
  let r := MetadataRoute.POST URL_parse JSON_parse toFixed1 Date_short exec
             now request server in
  let shown := Form.handleSubmit (Form.on_the_wire r.1) in
  (forall videoData, r.1 = MetadataRoute.Data videoData ->
                     shown = (Some videoData, None)) /\
  (forall status error,
     r.1 = MetadataRoute.Json status error ->
     shown.1 = None /\
     (status = 408 \/ status = 500 -> shown.2 = Some error) /\
     (status = 429 ->
      shown.2 = Some "Whoa, slow down! Please wait a moment before trying again.") /\
     (status = 400 ->
      shown.2 = Some "Hmm, that doesn't look like a valid YouTube link. Can you double-check?") /\
     (status = 404 ->
      shown.2 = Some "We couldn't find that video. It might be private or deleted.")).
Proof.
  intros r shown. split.
  - intros videoData Hr. unfold shown. rewrite Hr.
    apply metadata_data_named in Hr as [Hid Htitle].
    unfold Form.handleSubmit. cbn [Form.on_the_wire Form.fetchVideoInfo].
    by rewrite Hid, Htitle.
  - intros status error Hr. unfold shown. rewrite Hr.
    apply metadata_error_status in Hr as [He Hst].
    unfold Form.handleSubmit. cbn [Form.on_the_wire Form.fetchVideoInfo]. rewrite He.
    assert ((200 <=? status) && (status <? 300) = false) as ->.
    { apply andb_false_iff. lia. }
    cbn [Form.status Form.message fst snd].
    split; [done|].
    repeat split; intros Hs;
      destruct Hst as [->|[->|[->|[->| ->]]]]; try lia; try done.
Qed.

(** The tool runs out of time: the form shows the endpoint's message. *)
Lemma handleSubmit_after_POST_witness :
  let r := MetadataRoute.POST UrlValidation.parse_plain
             (fun _ => None) (fun _ _ => "1.0") (fun _ => None)
             (fun _ => DownloadRoute.ExecError true)
             1000
             (MetadataRoute.MkRequest None
                (MetadataRoute.Body (DownloadRoute.JString "https://youtu.be/abc123")))
             (MetadataRoute.MkServer ∅ []) in
  (Form.handleSubmit (Form.on_the_wire r.1)).2
  = Some "Request timeout. Video might be too large or unavailable.".
Proof.
  intros r.
  destruct (handleSubmit_after_POST UrlValidation.parse_plain
             (fun _ => None) (fun _ _ => "1.0") (fun _ => None)
             (fun _ => DownloadRoute.ExecError true)
             1000
             (MetadataRoute.MkRequest None
                (MetadataRoute.Body (DownloadRoute.JString "https://youtu.be/abc123")))
             (MetadataRoute.MkServer ∅ [])) as [_ H].
  destruct (H 408 "Request timeout. Video might be too large or unavailable." eq_refl)
    as (_ & Hown & _).
  apply Hown. by left.
Defined.

(** ** The formats on offer *)

(** X20. The two tabs offer a format of the list exactly when it has
    both picture and sound, or it has no picture and its container is
    [m4a] or [mp4].  So a format with picture but no sound is never
    offered, and no format stands in both tabs. *)
Theorem tabs_offer (formats : list Formats.Descriptor) (f : Formats.Descriptor) :
  (In f (FormatSelector.offered formats) <->
   In f formats /\
   ((FormatSelector.has_video f = true /\ FormatSelector.has_audio f = true) \/
    (FormatSelector.has_video f = false /\
     (Formats.ext f = "m4a" \/ Formats.ext f = "mp4")))) /\
  (FormatSelector.has_video f = true -> FormatSelector.has_audio f = false ->
   ~ In f (FormatSelector.offered formats)) /\
  (In f (FormatSelector.combinedFormats formats) ->
   ~ In f (FormatSelector.audioFormats formats)).
Proof.
  assert (Haudio : forall g,
    (bool_decide (Formats.vcodec g = Some "none")
     || negb (Formats.truthy_str (Formats.vcodec g)))
    = negb (FormatSelector.has_video g)).
  { intros g. unfold FormatSelector.has_video, Formats.is_video.
    destruct (Formats.truthy_str (Formats.vcodec g)) eqn:Et;
      destruct (bool_decide (Formats.vcodec g = Some "none")) eqn:En; done. }
  assert (Hiff :
    In f (FormatSelector.offered formats) <->
    In f formats /\
    ((FormatSelector.has_video f = true /\ FormatSelector.has_audio f = true) \/
     (FormatSelector.has_video f = false /\
      (Formats.ext f = "m4a" \/ Formats.ext f = "mp4")))).
  { unfold FormatSelector.offered, FormatSelector.combinedFormats,
      FormatSelector.audioFormats.
    rewrite in_app_iff, !filter_In, Haudio, !andb_true_iff, negb_true_iff,
      orb_true_iff, !String.eqb_eq. tauto. }
  split; [exact Hiff|]. split.
  - intros Hv Ha [_ [[_ Ha']|[Hv' _]]]%Hiff; congruence.
  - unfold FormatSelector.combinedFormats, FormatSelector.audioFormats.
    rewrite !filter_In, Haudio, !andb_true_iff, negb_true_iff.
    intros [_ [Hv _]] [_ [Hv' _]]. congruence.
Qed.

(** A 1080p stream without sound, as the tool lists it, is ranked by
    the endpoint and passed over by the tabs. *)
Lemma tabs_offer_witness :
  let f := Formats.describe (Formats.video_format "137" 1080 "avc1") in
  ~ In f (FormatSelector.offered (Formats.processFormats
                                    [Formats.video_format "137" 1080 "avc1"])).
Proof.
  intros f.
  destruct (tabs_offer (Formats.processFormats [Formats.video_format "137" 1080 "avc1"]) f)
    as (_ & H & _).
  apply H; reflexivity.
Defined.

(** A short link without a scheme passes the pattern. *)
Lemma isValidYouTubeUrl_exact_witness :
  Form.isValidYouTubeUrl "youtu.be/abc123" = true.
Proof.
  apply isValidYouTubeUrl_exact.
  exists EmptyString, EmptyString, "youtu.be", "a"%char, "bc123".
  cbn. split; [tauto|]. split; [tauto|]. split; [tauto|]. split; reflexivity.
Defined.

(** ** The duration badge *)




(** ** The view count on the card *)

(** X22. The endpoint sends a count below a thousand as its digits, and
    the card appends the word: [999 views].  For a video whose count is
    missing or zero the endpoint already sends [0 views], so the card
    reads [0 views views]. *)
Theorem views_label_cases (toFixed1 : Formats.number -> N -> string)
    (Date_short : string -> option string) (videoInfo : MetadataRoute.VideoInfo) :
  let video := MetadataRoute.videoData_of toFixed1 Date_short videoInfo in
  (Formats.truthy_num (MetadataRoute.info_view_count videoInfo) = false ->
   VideoDetails.views_label video = "0 views views") /\
  (forall n : N,
     MetadataRoute.info_view_count videoInfo = Some (Formats.whole_number n) ->
     (0 < n < 1000)%N ->
     VideoDetails.views_label video = Formats.render n +:+ " views").
Proof.
  intros video. unfold VideoDetails.views_label, video.
  cbn [MetadataRoute.videoData_of MetadataRoute.viewCount].
  unfold MetadataRoute.formatViewCount. split.
  - intros Hfalsy. destruct (MetadataRoute.info_view_count videoInfo) as [v|]; [|done].
    cbn in Hfalsy. by rewrite Hfalsy.
  - intros n -> Hn. rewrite whole_truthy by lia. cbn [negb Formats.whole Formats.whole_number].
    destruct (N.leb_spec 1000000000 n); [lia|].
    destruct (N.leb_spec 1000000 n); [lia|].
    destruct (N.leb_spec 1000 n); [lia|].
    by rewrite whole_to_string.
Qed.

(** A video without a view count. *)
Lemma views_label_cases_witness :
  VideoDetails.views_label
    (MetadataRoute.videoData_of (fun _ _ => "1.0") (fun _ => None)
       (MetadataRoute.MkInfo (Some "abc123") (Some "A title") None None
          None None None None None None))
  = "0 views views".
Proof.
  apply (views_label_cases (fun _ _ => "1.0") (fun _ => None)). reflexivity.
Defined.

(** ** Cancelling the running download *)

Lemma signals_update x f s ds' :
  (forall d, Queue.id (f d) = Queue.id d) ->
  (forall d, Queue.abortController (f d) = Queue.abortController d) ->
  ds' = Queue.update x f (Queue.downloads s) ->
  Queue.signals_ok s ->
  forall y signal, (y, signal) ∈ Queue.transfers s ->
    exists d controller,
      d ∈ ds' /\ Queue.id d = y /\ signal = Some controller
      /\ Queue.abortController d = Some controller.
Proof.
  intros Hid Hac -> HJ y signal Hin.
  destruct (HJ y signal Hin) as (d & c & Hd & Hidd & Hsig & Hc).
  exists (if String.eqb (Queue.id d) x then f d else d), c.
  split; [apply elem_of_update; by exists d|].
  destruct (String.eqb (Queue.id d) x); rewrite ?Hid, ?Hac; done.
Qed.

Lemma same_item ds d d' :
  NoDup (map Queue.id ds) -> d ∈ ds -> d' ∈ ds -> Queue.id d = Queue.id d' -> d = d'.
Proof.
  induction ds as [|a ds IH]; intros Hnd Hd Hd' Hid; [by apply elem_of_nil in Hd|].
  apply NoDup_cons in Hnd as [Hfresh Hnd]. cbn in Hfresh.
  apply elem_of_cons in Hd as [->|Hd]; apply elem_of_cons in Hd' as [->|Hd'].
  - done.
  - destruct Hfresh. rewrite Hid. apply list_elem_of_fmap. by exists d'.
  - destruct Hfresh. rewrite <- Hid. apply list_elem_of_fmap. by exists d.
  - by apply IH.
Qed.

Lemma take_slot_signals s h rest d :
  Queue.signals_ok s -> Queue.transfers s = [] ->
  d ∈ Queue.downloads s -> Queue.id d = h ->
  (exists controller, Queue.abortController d = Some controller) ->
  Queue.signals_ok (Queue.take_slot h (Queue.abortController d) rest s).
Proof.
  intros HJ Hnone Hd Hid [c Hc] y signal Hin.
  cbn [Queue.take_slot Queue.transfers Queue.downloads] in *.
  rewrite Hnone in Hin. apply list_elem_of_singleton in Hin as [= -> ->].
  exists (if String.eqb (Queue.id d) h
          then Queue.with_status Queue.preparing d else d), c.
  split; [apply elem_of_update; by exists d|].
  rewrite Hid, String.eqb_refl. done.
Qed.

Lemma processQueue_take s h rest :
  Queue.Inv s -> Queue.transfers s = [] -> Queue.downloadQueue s = h :: rest ->
  exists d, d ∈ Queue.downloads s /\ Queue.id d = h /\
    Queue.processQueue (Queue.activeDownloads s) s
    = Queue.take_slot h (Queue.abortController d) rest s.
Proof.
  intros HI Hnone Hq.
  destruct (queue_head_item s h rest HI Hq)
    as (d & Hfind & Hst & (Hid & Hurl & Hfmt) & Hidh).
  exists d. pose proof (find_download_spec _ _ _ Hfind) as [Hd _].
  split; [done|]. split; [done|].
  assert (Hzero : Queue.activeDownloads s = 0)
    by (by rewrite (Queue.slot_count s HI), Hnone).
  unfold Queue.processQueue. rewrite Hzero, Hq. cbn [Queue.downloads].
  change (Queue.MAX_CONCURRENT_DOWNLOADS <=? 0) with false. cbn iota.
  rewrite Hfind, <- Hidh, Hid, Hst, Hurl, Hfmt. cbn [negb orb].
  rewrite bool_decide_eq_true_2 by done. cbn [negb].
  unfold Queue.take_slot, Queue.startDownload. cbn. by rewrite Hzero.
Qed.

Lemma processQueue_signals s :
  Queue.Inv s ->
  Queue.signals_ok s /\ Forall (fun d => is_Some (Queue.abortController d))
                               (Queue.downloads s) ->
  Queue.signals_ok (Queue.processQueue (Queue.activeDownloads s) s)
  /\ Forall (fun d => is_Some (Queue.abortController d))
            (Queue.downloads (Queue.processQueue (Queue.activeDownloads s) s)).
Proof.
  intros HI [HJ Hall].
  destruct (processQueue_cases s HI) as [->|(h & rest & signal & Hnone & Hq & Hp)];
    [done|].
  destruct (processQueue_take s h rest HI Hnone Hq) as (d & Hd & Hid & ->).
  split.
  - apply take_slot_signals; try done.
    rewrite Forall_forall in Hall. destruct (Hall d Hd) as [c Hc]. by exists c.
  - cbn [Queue.take_slot Queue.downloads]. unfold Queue.update.
    rewrite Forall_fmap. eapply Forall_impl; [exact Hall|].
    intros a Ha. cbn. by destruct (String.eqb (Queue.id a) h).
Qed.

Lemma Forall_update (P : Queue.DownloadItem -> Prop) x f ds :
  (forall d, P d -> P (f d)) -> Forall P ds -> Forall P (Queue.update x f ds).
Proof.
  intros Hf Hall. unfold Queue.update. rewrite Forall_fmap.
  eapply Forall_impl; [exact Hall|]. intros d Hd. cbn.
  destruct (String.eqb (Queue.id d) x); [by apply Hf | done].
Qed.

Lemma commit_signals prev next :
  Queue.Inv next ->
  Queue.signals_ok next /\ Forall (fun d => is_Some (Queue.abortController d))
                                  (Queue.downloads next) ->
  Queue.signals_ok (Queue.commit prev next)
  /\ Forall (fun d => is_Some (Queue.abortController d))
            (Queue.downloads (Queue.commit prev next)).
Proof.
  intros HI HK. unfold Queue.commit.
  apply (effects_keep
           (fun s => Queue.signals_ok s
                     /\ Forall (fun d => is_Some (Queue.abortController d))
                               (Queue.downloads s))); [|done|done].
  intros s. apply processQueue_signals.
Qed.

Lemma settle_signals s t o :
  Queue.transfers s = [t] ->
  Forall (fun d => is_Some (Queue.abortController d)) (Queue.downloads s) ->
  Queue.signals_ok (Queue.settle t o s)
  /\ Forall (fun d => is_Some (Queue.abortController d))
            (Queue.downloads (Queue.settle t o s)).
Proof.
  intros Ht Hall. split.
  - intros y signal Hin. cbn [Queue.settle Queue.transfers] in Hin.
    rewrite Ht in Hin. cbn in Hin. rewrite bool_decide_eq_true_2 in Hin by done.
    by apply elem_of_nil in Hin.
  - cbn [Queue.settle Queue.downloads]. apply Forall_update; [|done].
    intros d Hd. by destruct o.
Qed.

Lemma active_transfer s y signal d :
  Queue.Inv s -> (y, signal) ∈ Queue.transfers s ->
  d ∈ Queue.downloads s -> Queue.id d = y ->
  Queue.is_active (Queue.status d) = true.
Proof.
  intros HI Hin Hd Hid.
  assert (Hy : y ∈ map fst (Queue.transfers s)).
  { apply list_elem_of_fmap. by exists (y, signal). }
  apply (Queue.transfer_iff s HI) in Hy as (st & (d' & Hd' & Hid' & Hst) & Hact).
  rewrite (same_item _ d d' (Queue.ids_nodup s HI) Hd Hd') by congruence.
  by rewrite Hst.
Qed.

Lemma react_signals s e :
  Queue.Inv s -> Queue.offered s e ->
  Queue.signals_ok s /\ Forall (fun d => is_Some (Queue.abortController d))
                               (Queue.downloads s) ->
  Queue.signals_ok (Queue.react s e)
  /\ Forall (fun d => is_Some (Queue.abortController d))
            (Queue.downloads (Queue.react s e)).
Proof.
  intros HI Hoff [HJ Hall].
  destruct e as [x ti ch fo u f|x|x| |x|x p|x o|k]; cbn [Queue.react].
  - apply commit_signals; [by apply handleDownload_inv|]. split.
    + intros y signal Hin. cbn in Hin.
      destruct (HJ y signal Hin) as (d & c & Hd & Hrest).
      exists d, c. split; [by apply elem_of_cons; right | done].
    + cbn. constructor; [by eexists | done].
  - apply commit_signals; [by apply handleCancelDownload_inv|].
    unfold Queue.handleCancelDownload.
    destruct (Queue.find_download x (Queue.downloads s)) as [d|]; [|done].
    destruct (bool_decide (Queue.status d = Queue.queued)).
    + split.
      * intros y signal Hin. cbn in Hin. cbn [Queue.downloads].
        apply (signals_update x (Queue.with_status Queue.cancelled) s _
                 (fun _ => eq_refl) (fun _ => eq_refl) eq_refl HJ y signal Hin).
      * cbn. by apply Forall_update.
    + destruct (Queue.abortController d) as [c|]; [|done].
      destruct (abort_cases s c HI) as [->|(t & Ht & ->)]; [done|].
      by apply settle_signals.
  - apply commit_signals; [by apply handleRetryDownload_inv|].
    destruct Hoff as (st & Hst & Hretry).
    unfold Queue.handleRetryDownload.
    destruct (Queue.find_download x (Queue.downloads s)) as [d0|]; [|done].
    split.
    + intros y signal Hin. cbn in Hin. cbn [Queue.downloads].
      destruct (HJ y signal Hin) as (d & c & Hd & Hid & Hsig & Hc).
      exists d, c. split; [|done].
      apply elem_of_update. exists d. split; [done|].
      destruct (String.eqb_spec (Queue.id d) x) as [Heq|_]; [|done]. exfalso.
      pose proof (active_transfer s y signal d HI Hin Hd Hid) as Hact.
      apply status_of_spec in Hst; [|apply (Queue.ids_nodup s HI)].
      destruct Hst as (d' & Hd' & Hid' & Hst').
      rewrite (same_item _ d d' (Queue.ids_nodup s HI) Hd Hd') in Hact by congruence.
      rewrite Hst' in Hact. by destruct st.
    + cbn. apply Forall_update; [|done]. intros d _. by eexists.
  - apply commit_signals; [by apply handleClearCompleted_inv|]. split.
    + intros y signal Hin. cbn in Hin. cbn [Queue.handleClearCompleted Queue.downloads].
      destruct (HJ y signal Hin) as (d & c & Hd & Hid & Hsig & Hc).
      exists d, c. split; [|done].
      apply list_elem_of_In, filter_In. split; [by apply list_elem_of_In|].
      pose proof (active_transfer s y signal d HI Hin Hd Hid) as Hact.
      by destruct (Queue.status d).
    + cbn. rewrite Forall_forall in *. intros d Hd. apply Hall.
      apply list_elem_of_In, filter_In in Hd as [Hd _]. by apply list_elem_of_In.
  - split.
    + intros y signal Hin. cbn in Hin. cbn [Queue.set_downloads Queue.downloads].
      apply (signals_update x (Queue.with_status Queue.downloading) s _
               (fun _ => eq_refl) (fun _ => eq_refl) eq_refl HJ y signal Hin).
    + cbn. by apply Forall_update.
  - split.
    + intros y signal Hin. cbn in Hin. cbn [Queue.set_downloads Queue.downloads].
      apply (signals_update x (Queue.with_progress p) s _
               (fun _ => eq_refl) (fun _ => eq_refl) eq_refl HJ y signal Hin).
    + cbn. by apply Forall_update.
  - destruct (Queue.transfer_of x s) as [t|] eqn:Ht; [|done].
    apply (transfer_of_spec s x t HI) in Ht as [Ht _].
    apply commit_signals; [by apply settle_inv|]. by apply settle_signals.
  - cbn in Hoff. rewrite (Queue.no_timers s HI) in Hoff. cbn in Hoff. lia.
Qed.

Lemma reachable_signals s :
  Queue.reachable s ->
  Queue.signals_ok s /\ Forall (fun d => is_Some (Queue.abortController d))
                               (Queue.downloads s).
Proof.
  induction 1 as [|s e Hs IH Hoff].
  - split; [|constructor]. intros y signal Hin. by apply elem_of_nil in Hin.
  - apply react_signals; [by apply reachable_inv | done | done].
Qed.

(** X23. Cancelling the item that holds the slot stops its transfer:
    in the state that follows the item is cancelled, no transfer is
    pending for it, and the queue has moved on, so that the pending
    queue is empty or the next item has taken the slot. *)
Theorem cancel_running_item (s : Queue.State) (x : string) (st : Queue.Status) :
  Queue.reachable s ->
  Queue.status_of s x = Some st -> Queue.is_active st = true ->
  let s' := Queue.react s (Queue.Cancel x) in
  Queue.status_of s' x = Some Queue.cancelled /\
  (x ∉ map fst (Queue.transfers s')) /\
  (Queue.downloadQueue s' = [] \/ Queue.activeDownloads s' = 1).
Proof.
  intros Hreach Hst Hact s'.
  pose proof (reachable_inv s Hreach) as HI.
  destruct (reachable_signals s Hreach) as [HJ _].
  pose proof (Queue.ids_nodup s HI) as Hnd.
  assert (HI' : Queue.Inv s') by (apply react_inv; [done | exact I]).
  pose proof (proj1 (status_of_spec s x st Hnd) Hst) as Hhas.
  (* the one transfer is that of [x], with the signal of its controller *)
  assert (Hx : x ∈ map fst (Queue.transfers s)).
  { apply (Queue.transfer_iff s HI). by exists st. }
  destruct (transfers_cases s HI) as [Hnone|[t Ht]];
    [rewrite Hnone in Hx; by apply elem_of_nil in Hx|].
  rewrite Ht in Hx. apply list_elem_of_singleton in Hx.
  destruct t as [y signal]. cbn in Hx. subst y.
  destruct (HJ x signal) as (d & c & Hd & Hid & -> & Hc); [rewrite Ht; left|].
  (* the handler aborts it *)
  assert (Hnext : s' = Queue.commit s (Queue.settle (x, Some c) Queue.Aborted s)).
  { unfold s'. cbn [Queue.react]. f_equal. unfold Queue.handleCancelDownload.
    destruct (Queue.find_download x (Queue.downloads s)) as [d'|] eqn:Hfind.
    2: { apply find_download_None in Hfind. destruct Hfind.
         apply list_elem_of_fmap. by exists d. }
    apply find_download_spec in Hfind as [Hd' Hid'].
    rewrite <- (same_item _ d d' Hnd Hd Hd') by congruence.
    destruct Hhas as (d'' & Hd'' & Hid'' & Hst'').
    rewrite (same_item _ d d'' Hnd Hd Hd'') by congruence.
    rewrite Hst''. rewrite bool_decide_eq_false_2 by (by destruct st).
    rewrite <- (same_item _ d d'' Hnd Hd Hd'') by congruence.
    rewrite Hc. unfold Queue.abort. rewrite Ht. cbn.
    by rewrite bool_decide_eq_true_2. }
  set (next := Queue.settle (x, Some c) Queue.Aborted s) in *.
  assert (HIn : Queue.Inv next) by (by apply settle_inv).
  assert (Hcancelled : Queue.has_status (Queue.downloads next) x Queue.cancelled).
  { unfold next. cbn [Queue.settle Queue.downloads fst].
    apply (has_status_update_eq x _ _ Queue.cancelled); try done.
    split; [done|]. by eapply has_status_id. }
  split; [|split].
  - apply status_of_spec; [apply (Queue.ids_nodup s' HI')|]. rewrite Hnext.
    destruct (commit_cases s next HIn) as [->|(h & rest & sg & Hq & ->)]; [done|].
    cbn [Queue.take_slot Queue.downloads].
    apply has_status_update_ne; [done| |done].
    intros ->.
    assert (Hq' : Queue.has_status (Queue.downloads next) h Queue.queued).
    { apply (Queue.queue_iff next HIn). rewrite Hq. left. }
    pose proof (has_status_fun _ _ _ _ (Queue.ids_nodup next HIn) Hcancelled Hq').
    discriminate.
  - intros Hin. apply (Queue.transfer_iff s' HI') in Hin as (st' & Hst' & Hact').
    assert (Hc' : Queue.has_status (Queue.downloads s') x Queue.cancelled).
    { rewrite Hnext.
      destruct (commit_cases s next HIn) as [->|(h & rest & sg & Hq & ->)]; [done|].
      cbn [Queue.take_slot Queue.downloads].
      apply has_status_update_ne; [done| |done].
      intros ->.
      assert (Hq' : Queue.has_status (Queue.downloads next) h Queue.queued).
      { apply (Queue.queue_iff next HIn). rewrite Hq. left. }
      pose proof (has_status_fun _ _ _ _ (Queue.ids_nodup next HIn) Hcancelled Hq').
      discriminate. }
    rewrite (has_status_fun _ _ _ _ (Queue.ids_nodup s' HI') Hst' Hc') in Hact'.
    discriminate Hact'.
  - rewrite Hnext. apply commit_moves_on; [done|].
    unfold Queue.deps_changed, next. cbn.
    destruct (Z.eqb_spec (Queue.activeDownloads s) (Queue.activeDownloads s - 1));
      [lia | done].
Qed.

(** Two requests, then the first is cancelled while it runs: it is
    cancelled and the second takes the slot. *)
Lemma cancel_running_item_witness :
  let D := fun x => Queue.Download x "title" "channel" "720p (MP4)"
                                   "https://youtu.be/abc123" "22" in
  let s := Queue.react (Queue.react Queue.initial (D "A")) (D "B") in
  Queue.status_of (Queue.react s (Queue.Cancel "A")) "A" = Some Queue.cancelled /\
  Queue.status_of (Queue.react s (Queue.Cancel "A")) "B" = Some Queue.preparing.
Proof.
  intros D s.
  assert (Hs : Queue.reachable s).
  { apply Queue.reachable_react.
    - apply Queue.reachable_react; [constructor|].
      split; [apply not_elem_of_nil | done].
    - split; [|done]. intros Hin. apply list_elem_of_singleton in Hin. discriminate Hin. }
  destruct (cancel_running_item s "A" Queue.preparing Hs eq_refl eq_refl) as [H _].
  split; [exact H | reflexivity].
Defined.

(** ** The extension of the streamed file *)

Lemma includes_dot_app base tail :
  Js.includes "." (base +:+ "." +:+ tail) = true.
Proof. apply includes_spec. by exists base, tail. Qed.

Lemma last_segment_app base ext :
  Js.includes "." ext = false ->
  DownloadRoute.last_segment (base +:+ "." +:+ ext) = ext.
Proof.
  intros Hext. induction base as [|c base IH].
  - rewrite append_nil, append_cons, append_nil.
    cbn [DownloadRoute.last_segment]. by rewrite Hext.
  - rewrite append_cons. cbn [DownloadRoute.last_segment].
    by rewrite includes_dot_app.
Qed.

Lemma last_segment_plain name :
  Js.includes "." name = false -> DownloadRoute.last_segment name = name.
Proof.
  destruct name as [|c name]; [done|]. intros Hname.
  rewrite includes_unfold in Hname. apply orb_false_elim in Hname as [Hc Hname].
  cbn [DownloadRoute.last_segment]. rewrite Hname.
  destruct (Nat.eqb_spec (Js.code c) 46) as [Heq|_]; [|done].
  assert (c = "."%char) as ->.
  { rewrite <- (ascii_nat_embedding c). unfold Js.code in Heq. by rewrite Heq. }
  rewrite prefix_cons_cons, prefix_nil in Hc.
  by destruct (Ascii.ascii_dec "." ".").
Qed.

(** X24. The extension that decides the content type is the text after
    the last dot of the file's name; a name that ends in a dot counts
    as [mp4], and a name without any dot is taken whole as its own
    extension. *)
Theorem fileExtension_of_cases :
  (forall base ext,
     Js.includes "." ext = false -> ext <> EmptyString ->
     DownloadRoute.fileExtension_of (base +:+ "." +:+ ext) = ext) /\
  (forall base, DownloadRoute.fileExtension_of (base +:+ ".") = "mp4") /\
  (forall name,
     Js.includes "." name = false -> name <> EmptyString ->
     DownloadRoute.fileExtension_of name = name).
Proof.
  unfold DownloadRoute.fileExtension_of. split; [|split].
  - intros base ext Hext Hne. rewrite last_segment_app by done.
    by rewrite truthy_nonempty.
  - intros base. rewrite <- (append_nil_r (base +:+ ".")).
    assert (Heq : (base +:+ ".") +:+ EmptyString = base +:+ "." +:+ EmptyString).
    { induction base as [|c base IH]; [done|]. rewrite !append_cons. by rewrite IH. }
    rewrite Heq, last_segment_app; done.
  - intros name Hname Hne. rewrite last_segment_plain by done.
    by rewrite truthy_nonempty.
Qed.

(** A name with two dots, and one with none. *)
Lemma fileExtension_of_cases_witness :
  DownloadRoute.fileExtension_of "My.Video - Channel.webm" = "webm" /\
  DownloadRoute.getContentType (DownloadRoute.fileExtension_of "video")
  = "application/octet-stream".
Proof.
  destruct fileExtension_of_cases as (Hext & _ & Hplain). split.
  - apply (Hext "My.Video - Channel" "webm"); [reflexivity | discriminate].
  - rewrite (Hplain "video"); [reflexivity | reflexivity | discriminate].
Defined.
